(** * survey-analyzer: column classifier, grouping automaton and weighted statistics

    A shallow embedding of [src/core/data_loader.py],
    [src/core/statistics.py] and the label wrapping of
    [src/charts/chart_generator.py], and theorems about them.

    Conventions of the embedding.
    - A Python [str] is the list of its Unicode code points ([pystr]);
      literals are written as UTF-8 text and decoded by [u].
    - A pandas cell is [option pystr]: [None] is a missing cell (NaN/None),
      [Some s] a cell whose [str()] form is [s].
    - A Python [float] is an exact rational, an infinity or NaN ([pyfloat]);
      arithmetic is exact, so rounding of doubles is not modelled.
    - A Python exception is a value of [pyerr] carried by the [exc] monad. *)

From Stdlib Require Import ZArith QArith Qcanon Qround Qabs Lqa List String Ascii Lia Bool Permutation Sorted.
From stdpp Require Import base decidable option list gmap sets numbers sorting.

Import ListNotations.
Local Open Scope Z_scope.

(** ** Python strings as code points *)

Abbreviation pystr := (list N).

Module Str.

(** UTF-8 decoding of a literal (1 to 4 byte sequences). *)
Fixpoint decode (bs : list N) : pystr :=
  match bs with
  | [] => []
  | b0 :: r0 =>
    if (b0 <? 128)%N then b0 :: decode r0
    else if (b0 <? 224)%N then
      match r0 with
      | b1 :: r1 => ((b0 - 192) * 64 + (b1 - 128))%N :: decode r1
      | [] => [b0]
      end
    else if (b0 <? 240)%N then
      match r0 with
      | b1 :: b2 :: r2 =>
        ((b0 - 224) * 4096 + (b1 - 128) * 64 + (b2 - 128))%N :: decode r2
      | _ => [b0]
      end
    else
      match r0 with
      | b1 :: b2 :: b3 :: r3 =>
        ((b0 - 240) * 262144 + (b1 - 128) * 4096 + (b2 - 128) * 64 + (b3 - 128))%N
          :: decode r3
      | _ => [b0]
      end
  end.

Fixpoint bytes (s : string) : list N :=
  match s with
  | EmptyString => []
  | String a r => N_of_ascii a :: bytes r
  end.

Definition u (s : string) : pystr := decode (bytes s).

(** [str.isspace]: the characters removed by [str.strip()] and matched by
    [\s] in a [str] pattern. *)
Definition is_space (c : N) : bool :=
  ((9 <=? c) && (c <=? 13) || (28 <=? c) && (c <=? 32) || (c =? 133) || (c =? 160)
   || (c =? 5760) || (8192 <=? c) && (c <=? 8202) || (c =? 8232) || (c =? 8233)
   || (c =? 8239) || (c =? 8287) || (c =? 12288))%N.

(** [\d]: modelled on the ASCII digits. *)
Definition is_digit (c : N) : bool := ((48 <=? c) && (c <=? 57))%N.

Definition is_upper_az (c : N) : bool := ((65 <=? c) && (c <=? 90))%N.
Definition is_lower_az (c : N) : bool := ((97 <=? c) && (c <=? 122))%N.

(** [str.lower()] on Basic Latin, Latin-1 and Latin Extended-A (which holds
    the Polish alphabet); other code points are left unchanged. *)
Definition lower_cp (c : N) : list N :=
  if is_upper_az c then [c + 32]%N
  else if ((192 <=? c) && (c <=? 222) && negb (c =? 215))%N then [c + 32]%N
  else if (c =? 304)%N then [105; 775]%N
  else if (c =? 376)%N then [255]%N
  else if ((256 <=? c) && (c <=? 311) || (330 <=? c) && (c <=? 375))%N then
    (if N.even c then [c + 1] else [c])%N
  else if ((313 <=? c) && (c <=? 328) || (377 <=? c) && (c <=? 382))%N then
    (if N.odd c then [c + 1] else [c])%N
  else [c].

Definition lower (s : pystr) : pystr := concat (map lower_cp s).

Fixpoint lstrip (s : pystr) : pystr :=
  match s with
  | c :: r => if is_space c then lstrip r else s
  | [] => []
  end.

Definition rstrip (s : pystr) : pystr := rev (lstrip (rev s)).

Definition strip (s : pystr) : pystr := rstrip (lstrip s).

Definition eqb (a b : pystr) : bool := bool_decide (a = b).

Fixpoint prefixb (p s : pystr) : bool :=
  match p, s with
  | [], _ => true
  | a :: p', b :: s' => (a =? b)%N && prefixb p' s'
  | _ :: _, [] => false
  end.

(** [p in s] for strings: substring test. *)
Fixpoint contains (p s : pystr) : bool :=
  prefixb p s ||
  match s with
  | [] => false
  | _ :: r => contains p r
  end.

(** Longest prefix whose characters satisfy [f], and the rest. *)
Fixpoint span (f : N -> bool) (s : pystr) : pystr * pystr :=
  match s with
  | c :: r =>
    if f c then let '(a, b) := span f r in (c :: a, b) else ([], s)
  | [] => ([], [])
  end.

(** [int(digits)] for a run of ASCII digits. *)
Definition int_of_digits (ds : pystr) : Z :=
  fold_left (fun acc c => acc * 10 + Z.of_N (c - 48)) ds 0.

(** [str(n)] for a non-negative integer. *)
Fixpoint of_uint (d : Decimal.uint) : pystr :=
  match d with
  | Decimal.Nil => []
  | Decimal.D0 r => 48%N :: of_uint r
  | Decimal.D1 r => 49%N :: of_uint r
  | Decimal.D2 r => 50%N :: of_uint r
  | Decimal.D3 r => 51%N :: of_uint r
  | Decimal.D4 r => 52%N :: of_uint r
  | Decimal.D5 r => 53%N :: of_uint r
  | Decimal.D6 r => 54%N :: of_uint r
  | Decimal.D7 r => 55%N :: of_uint r
  | Decimal.D8 r => 56%N :: of_uint r
  | Decimal.D9 r => 57%N :: of_uint r
  end.

Definition of_nat (n : nat) : pystr := of_uint (Nat.to_uint n).

(** Code-point order of Python strings, as used by [sorted]. *)
Fixpoint ltb (a b : pystr) : bool :=
  match a, b with
  | [], [] => false
  | [], _ :: _ => true
  | _ :: _, [] => false
  | x :: a', y :: b' => (x <? y)%N || (x =? y)%N && ltb a' b'
  end.

End Str.

Abbreviation u := Str.u.

(** ** Exceptions and numbers *)

Inductive pyerr :=
| ValueError | OverflowError | ZeroDivisionError | TypeError | KeyError | IndexError.

Inductive exc (A : Type) :=
| Ok (a : A)
| Raise (e : pyerr).

Arguments Ok {A} a.
Arguments Raise {A} e.

Definition ebind {A B} (m : exc A) (k : A -> exc B) : exc B :=
  match m with
  | Ok a => k a
  | Raise e => Raise e
  end.

Notation "'let!' x := m 'in' k" := (ebind m (fun x => k))
  (at level 10, x name, m at level 100, k at level 200).

#[global] Instance pyerr_eq_dec : EqDecision pyerr.
Proof. solve_decision. Defined.

(** A Python float: a finite value (kept exact), an infinity or NaN. *)
Inductive pyfloat :=
| FNum (q : Qc)
| FInf (neg : bool)
| FNaN.

#[global] Instance pyfloat_eq_dec : EqDecision pyfloat.
Proof. solve_decision. Defined.

Module Float.

(** [a < b] on floats; every comparison with NaN is false. *)
Definition ltb (a b : pyfloat) : bool :=
  match a, b with
  | FNum x, FNum y => bool_decide (x < y)%Qc
  | FNum _, FInf neg => negb neg
  | FInf neg, FNum _ => neg
  | FInf n1, FInf n2 => n1 && negb n2
  | _, _ => false
  end.

Definition underscore (c : N) : bool := (c =? 95)%N.

(** A digit part of a float literal: digits, single underscores allowed
    between them. *)
Fixpoint wf_digitpart (after_digit : bool) (run : pystr) : bool :=
  match run with
  | [] => after_digit
  | c :: r =>
    if Str.is_digit c then wf_digitpart true r
    else after_digit && wf_digitpart false r
  end.

Definition digitpart (s : pystr) : pystr * pystr :=
  Str.span (fun c => Str.is_digit c || underscore c) s.

Definition digits_of (run : pystr) : pystr := filter (fun c => Str.is_digit c = true) run.

Definition sign (s : pystr) : bool * pystr :=
  match s with
  | 45%N :: r => (true, r)
  | 43%N :: r => (false, r)
  | _ => (false, s)
  end.

(** The exponent suffix of a literal: empty, or [e]/[E], a sign, digits. *)
Definition exponent (s : pystr) : option Z :=
  match s with
  | [] => Some 0
  | c :: r =>
    if ((c =? 101) || (c =? 69))%N then
      let '(neg, r1) := sign r in
      let '(run, r2) := digitpart r1 in
      match run, r2 with
      | _ :: _, [] =>
        if wf_digitpart false run then
          let e := Str.int_of_digits (digits_of run) in
          Some (if neg then - e else e)
        else None
      | _, _ => None
      end
    else None
  end.

Definition pow10 (e : Z) : Q := Qpower (10 # 1) e.

Definition mk (neg : bool) (ip fp : pystr) (e : Z) : pyfloat :=
  let m := inject_Z (Str.int_of_digits (ip ++ fp)) in
  let q := (m * pow10 (e - Z.of_nat (length fp)))%Q in
  FNum (Q2Qc (if neg then - q else q)%Q).

Definition number (neg : bool) (s : pystr) : option pyfloat :=
  let '(irun, r1) := digitpart s in
  match r1 with
  | 46%N :: r2 =>
    let '(frun, r3) := digitpart r2 in
    match irun, frun with
    | [], [] => None
    | _, _ =>
      if (match irun with [] => true | _ => wf_digitpart false irun end)
         && (match frun with [] => true | _ => wf_digitpart false frun end)
      then option_map (mk neg (digits_of irun) (digits_of frun)) (exponent r3)
      else None
    end
  | _ =>
    match irun with
    | [] => None
    | _ =>
      if wf_digitpart false irun
      then option_map (mk neg (digits_of irun) []) (exponent r1)
      else None
    end
  end.

(** [float(s)] for a string: [None] stands for the [ValueError] that the
    callers catch. *)
Definition of_str (s : pystr) : option pyfloat :=
  let '(neg, r) := sign (Str.strip s) in
  let l := Str.lower r in
  if Str.eqb l (u "inf") || Str.eqb l (u "infinity") then Some (FInf neg)
  else if Str.eqb l (u "nan") then Some FNaN
  else number neg r.

(** [int(x)]: truncation towards zero; non-finite values raise. *)
Definition to_int (x : pyfloat) : exc Z :=
  match x with
  | FNum q => Ok (Z.quot (Qnum (this q)) (Zpos (Qden (this q))))
  | FInf _ => Raise OverflowError
  | FNaN => Raise ValueError
  end.

End Float.

(** A number stored in a signature: likert bounds are [int], numeric-scale
    bounds are [float]. *)
Inductive pynum :=
| PInt (z : Z)
| PFloat (f : pyfloat).

#[global] Instance pynum_eq_dec : EqDecision pynum.
Proof. solve_decision. Defined.

Definition num_float (x : pynum) : pyfloat :=
  match x with
  | PInt z => FNum (Q2Qc (inject_Z z))
  | PFloat f => f
  end.

Definition num_ltb (a b : pynum) : bool := Float.ltb (num_float a) (num_float b).

(** Python's two-argument [min(a, b)] and [max(a, b)]: the first argument
    is kept unless the second is strictly smaller (larger). *)
Definition py_min2 (a b : pynum) : pynum := if num_ltb b a then b else a.
Definition py_max2 (a b : pynum) : pynum := if num_ltb a b then b else a.

(** [min(l)] and [max(l)] of a list with first element [x]. *)
Definition py_min (x : pynum) (l : list pynum) : pynum := fold_left py_min2 l x.
Definition py_max (x : pynum) (l : list pynum) : pynum := fold_left py_max2 l x.

Definition num_to_int (x : pynum) : exc Z :=
  match x with
  | PInt z => Ok z
  | PFloat f => Float.to_int f
  end.

(** ** data_loader.py: constants and patterns *)

Definition QT_NUMERIC_SCALE : pystr := u "numeric_scale".
Definition QT_LIKERT : pystr := u "likert".
Definition QT_MULTI_CHOICE : pystr := u "multiple_choice".
Definition QT_SINGLE_CHOICE : pystr := u "single_choice".
Definition QT_OPEN : pystr := u "open_text".
Definition QT_META : pystr := u "metadata".

Definition CT_HBAR_MEANS : pystr := u "horizontal_bar_means".
Definition CT_PIE : pystr := u "pie".
Definition CT_FREQ_BAR : pystr := u "frequency_bar".
Definition CT_MULTI_BAR : pystr := u "multiple_choice_bar".

Definition SPECIAL_VALUES : list pystr :=
  [u "nie wiem"; u "nie wiem/ nie znam"; u "nie wiem/nie znam"; u "nie wiem/nie znam ";
   u "trudno powiedzieć"; u "nie wiem/ trudno powiedzieć"; u "nie wiem, trudno powiedzieć";
   u "odmowa odpowiedzi"; u "odmowa"; u "-"; u ""; u "nan"; u "none"; u "nie dotyczy";
   u "nd"; u "n/d"].

Definition META_KEYWORDS : list pystr :=
  [u "numer wywiadu"; u "aranżacja"; u "imię"; u "nazwisko"; u "telefon";
   u "kod pocztowy"; u "miejscowość"; u "waga"; u "[ogółem]"; u "wyniki dla";
   u "makroregion"; u "segmentacja"; u "segment"].

Definition EXCLUDE_KEYWORDS : list pystr := [u "inna, jaka"; u "inne (jakie"].

Definition DEMOGRAPHIC_QIDS : list pystr :=
  [u "M1"; u "M1a"; u "M1b"; u "M2a"; u "M3"; u "M4"; u "M5"; u "M6";
   u "M7"; u "M8"; u "M9"; u "M10"; u "M11"].

Definition EXCLUDE_QIDS : list pystr := [u "M2"].

(** [x in collection] for a collection of strings. *)
Definition str_in (x : pystr) (l : list pystr) : bool := bool_decide (x ∈ l).

Definition not_nl (c : N) : bool := negb (c =? 10)%N.

(** What a trailing [\s*(.+)] matches on [s], given that the whole rest of
    the input is [s]: the white-space run is taken whole when something
    follows it, and gives back its last usable character otherwise.
    [dotall] tells whether [.] matches a newline. *)
Definition ws_then_some (dotall : bool) (s : pystr) : option pystr :=
  let '(ws, r) := Str.span Str.is_space s in
  match r with
  | _ :: _ => Some (if dotall then r else fst (Str.span not_nl r))
  | [] =>
    match List.find (if dotall then fun _ => true else not_nl) (rev ws) with
    | Some c => Some [c]
    | None => None
    end
  end.

(** [LIKERT_PREFIX_RE.match(v)]: groups 1 and 2 of
    [^(\d+)\s*:\s*(.+)]. *)
Definition LIKERT_PREFIX_RE_match (v : pystr) : option (pystr * pystr) :=
  let '(ds, r1) := Str.span Str.is_digit v in
  match ds with
  | [] => None
  | _ :: _ =>
    let '(_, r2) := Str.span Str.is_space r1 in
    match r2 with
    | 58%N :: r3 => option_map (pair ds) (ws_then_some false r3)
    | _ => None
    end
  end.

(** [QID_RE.match(header)]: groups 1 and 2 of
    [^([A-Z]\d+[a-z]?)\.\s*(.+)] with DOTALL. *)
Definition QID_RE_match (header : pystr) : option (pystr * pystr) :=
  match header with
  | c0 :: r0 =>
    if Str.is_upper_az c0 then
      let '(ds, r1) := Str.span Str.is_digit r0 in
      match ds with
      | [] => None
      | _ :: _ =>
        let '(lo, r2) :=
          match r1 with
          | c :: r => if Str.is_lower_az c then ([c], r) else ([], r1)
          | [] => ([], [])
          end in
        match r2 with
        | 46%N :: r3 => option_map (pair (c0 :: ds ++ lo)) (ws_then_some true r3)
        | _ => None
        end
      end
    else None
  | [] => None
  end.

Definition is_sentence_end (c : N) : bool :=
  ((c =? 46) || (c =? 63) || (c =? 33) || (c =? 58) || (c =? 59))%N.

(** The class [[A-ZŹŻŚĆŁÓĄĘUP]]. *)
Definition is_sub_start (c : N) : bool :=
  Str.is_upper_az c || bool_decide (c ∈ u "ŹŻŚĆŁÓĄĘ").

(** After the punctuation mark: [\s+([A-ZŹŻŚĆŁÓĄĘUP].{5,})$]. *)
Definition sub_item_after (r : pystr) : option pystr :=
  let '(ws, r1) := Str.span Str.is_space r in
  match ws, r1 with
  | _ :: _, c :: r2 =>
    if is_sub_start c && (5 <=? length r2)%nat then Some r1 else None
  | _, _ => None
  end.

(** The lazy [^(.+?[.?!:;])] followed by [sub_item_after]: the first
    punctuation mark, not in first position, after which the rest matches.
    [pre] holds the characters already passed, last first. *)
Fixpoint split_scan (pre : pystr) (s : pystr) : option (pystr * pystr) :=
  match s with
  | [] => None
  | c :: r =>
    match pre, is_sentence_end c, sub_item_after r with
    | _ :: _, true, Some sub => Some (rev (c :: pre), sub)
    | _, _, _ => split_scan (c :: pre) r
    end
  end.

Definition split_re_match (rest : pystr) : option (pystr * pystr) := split_scan [] rest.

(** [_split_qid_header]: (qid, parent text, first sub-item). The test
    [len(sub) < len(rest) * 0.85] is written over the integers. *)
Definition _split_qid_header (header : pystr)
  : option pystr * option pystr * option pystr :=
  match QID_RE_match header with
  | None => (None, None, Some header)
  | Some (qid, g2) =>
    let rest := Str.strip g2 in
    let whole := (Some qid, Some (qid ++ u ". " ++ rest), None) in
    match split_re_match rest with
    | Some (g1, sg2) =>
      let parent := qid ++ u ". " ++ Str.strip g1 in
      let sub := Str.strip sg2 in
      if (20 * length sub <? 17 * length rest)%nat
      then (Some qid, Some parent, Some sub)
      else whole
    | None => whole
    end
  end.

Definition any_kw_in (kws : list pystr) (s : pystr) : bool :=
  existsb (fun kw => Str.contains kw s) kws.

Definition _is_meta (col_name : pystr) : bool :=
  any_kw_in META_KEYWORDS (Str.lower col_name).

Definition _should_exclude (col_name : pystr) : bool :=
  any_kw_in EXCLUDE_KEYWORDS (Str.lower col_name).

Definition _infer_chart_type (qtype : pystr) (n_categories : nat) : pystr :=
  if Str.eqb qtype QT_NUMERIC_SCALE || Str.eqb qtype QT_LIKERT then CT_HBAR_MEANS
  else if Str.eqb qtype QT_MULTI_CHOICE then CT_MULTI_BAR
  else if Str.eqb qtype QT_SINGLE_CHOICE then
    (if (n_categories <=? 3)%nat then CT_PIE else CT_FREQ_BAR)
  else CT_FREQ_BAR.

(** ** Column signature detector *)

(** A cell of a pandas column: [None] is missing. *)
Abbreviation cell := (option pystr).

(** The dict returned by [_detect_column_type], by its ['type'] key. *)
Inductive signature :=
| SigEmpty
| SigMulti
| SigLikert (scale_min scale_max : Z) (scale_labels : gmap Z pystr) (special_numeric : gset Z)
| SigNumeric (scale_min scale_max : pyfloat)
| SigOpen (n_unique : nat)
| SigSingle (categories : list pystr) (n_unique : nat).

#[global] Instance signature_eq_dec : EqDecision signature.
Proof. solve_decision. Defined.

Definition sig_type (s : signature) : pystr :=
  match s with
  | SigEmpty => u "empty"
  | SigMulti => QT_MULTI_CHOICE
  | SigLikert _ _ _ _ => QT_LIKERT
  | SigNumeric _ _ => QT_NUMERIC_SCALE
  | SigOpen _ => QT_OPEN
  | SigSingle _ _ => QT_SINGLE_CHOICE
  end.

(** [series.dropna().astype(str).str.strip()], then the non-blank ones. *)
Definition clean_values (series : list cell) : list pystr :=
  filter (fun v => v ≠ []) (map Str.strip (omap id series)).

Definition str_le (a b : pystr) : Prop := Str.ltb b a = false.

#[global] Instance str_le_dec a b : Decision (str_le a b).
Proof. unfold str_le. apply _. Defined.

(** [sorted(set(l))] for integers and for strings. *)
Definition sorted_set_Z (l : list Z) : list Z :=
  merge_sort Z.le (elements (list_to_set l : gset Z)).

Definition sorted_strs (s : gset pystr) : list pystr :=
  merge_sort str_le (elements s).

(** The loop filling [nums] and [labels]: a later label for a code replaces
    an earlier one. *)
Definition likert_step (acc : list Z * gmap Z pystr) (v : pystr) : list Z * gmap Z pystr :=
  match LIKERT_PREFIX_RE_match v with
  | Some (g1, g2) =>
    let n := Str.int_of_digits g1 in
    (acc.1 ++ [n], <[n := Str.strip g2]> acc.2)
  | None => acc
  end.

Definition likert_scan (values : list pystr) : list Z * gmap Z pystr :=
  fold_left likert_step values ([], ∅).

Definition LIKERT_CUES : list pystr := [u "nie wiem"; u "odmowa"; u "trudno"].

Definition is_special_label (labels : gmap Z pystr) (n : Z) : bool :=
  any_kw_in LIKERT_CUES (Str.lower (default [] (labels !! n))).

Definition likert_special (labels : gmap Z pystr) (all_nums : list Z) : gset Z :=
  fold_left (fun sp n => if is_special_label labels n then {[n]} ∪ sp else sp) all_nums ∅.

Definition z_min (x : Z) (l : list Z) : Z := fold_left Z.min l x.
Definition z_max (x : Z) (l : list Z) : Z := fold_left Z.max l x.

(** [min(valid_nums) if valid_nums else min(all_nums)], and the same for
    [max]; [all_nums] is not empty in the likert branch. *)
Definition likert_bound (pick : Z -> list Z -> Z) (valid_nums all_nums : list Z) : Z :=
  match valid_nums, all_nums with
  | x :: r, _ => pick x r
  | [], y :: r => pick y r
  | [], [] => 0
  end.

(** The loop filling [numeric_vals] and [text_vals]. *)
Definition numeric_step (acc : list pyfloat * list pystr) (v : pystr)
  : list pyfloat * list pystr :=
  match Float.of_str v with
  | Some x => (acc.1 ++ [x], acc.2)
  | None =>
    if str_in (Str.strip (Str.lower v)) SPECIAL_VALUES then acc
    else (acc.1, acc.2 ++ [v])
  end.

Definition numeric_scan (values : list pystr) : list pyfloat * list pystr :=
  fold_left numeric_step values ([], []).

Definition f_min (x : pyfloat) (l : list pyfloat) : pyfloat :=
  fold_left (fun best y => if Float.ltb y best then y else best) l x.
Definition f_max (x : pyfloat) (l : list pyfloat) : pyfloat :=
  fold_left (fun best y => if Float.ltb best y then y else best) l x.

Definition MENTION_FLAGS : gset pystr := {[ u "MENTIONED"; u "NOT MENTIONED" ]}.

(** [_detect_column_type]. The thresholds [> len * 0.4] and [> len * 0.5]
    are written over the integers. *)
Definition _detect_column_type (series : list cell) : signature :=
  let values := clean_values series in
  match values with
  | [] => SigEmpty
  | _ :: _ =>
    let unique : gset pystr := list_to_set values in
    if bool_decide (unique ⊆ MENTION_FLAGS) then SigMulti
    else
      let likert_count :=
        length (filter (fun v => is_Some (LIKERT_PREFIX_RE_match v)) values) in
      if (2 * length values <? 5 * likert_count)%nat then
        let '(nums, labels) := likert_scan values in
        let all_nums := sorted_set_Z nums in
        let special := likert_special labels all_nums in
        let valid_nums := filter (fun n => n ∉ special) all_nums in
        SigLikert (likert_bound z_min valid_nums all_nums)
                  (likert_bound z_max valid_nums all_nums)
                  labels special
      else
        let '(numeric_vals, text_vals) := numeric_scan values in
        match numeric_vals, text_vals with
        | x :: r, [] =>
          if (length values <? 2 * length numeric_vals)%nat
          then SigNumeric (f_min x r) (f_max x r)
          else if (15 <? size unique)%nat then SigOpen (size unique)
          else SigSingle (sorted_strs unique) (size unique)
        | _, _ =>
          if (15 <? size unique)%nat then SigOpen (size unique)
          else SigSingle (sorted_strs unique) (size unique)
        end
  end.

(** ** Question grouping automaton *)

Record QuestionDef := {
  id : pystr;
  label : pystr;
  columns : list nat;
  column_labels : list pystr;
  question_type : pystr;
  chart_type : pystr;
  scale_min : option Z;
  scale_max : option Z;
  scale_labels : gmap Z pystr;
  special_values : gset Z;
  is_demographic : bool;
  parent_question : pystr;
  weight_column : option pystr;
  notes : pystr;
}.

(** A column of the data frame: [str(col_names[i])] and [df.iloc[:, i]]. *)
Record column := {
  col_name : pystr;
  col_data : list cell;
}.

Abbreviation dataframe := (list column).

(** Truth value of an [Optional[str]]. *)
Definition truthy (o : option pystr) : bool :=
  match o with
  | Some (_ :: _) => true
  | _ => false
  end.

(** [a or b] where [a] is an [Optional[str]]. *)
Definition str_or (a : option pystr) (b : pystr) : pystr :=
  match a with
  | Some (c :: r) => c :: r
  | _ => b
  end.

(** [col_str.strip().lower()] *)
Definition norm_header (col_str : pystr) : pystr := Str.lower (Str.strip col_str).

Definition sig_scale_min (ct : signature) : option pynum :=
  match ct with
  | SigLikert a _ _ _ => Some (PInt a)
  | SigNumeric a _ => Some (PFloat a)
  | _ => None
  end.

Definition sig_scale_max (ct : signature) : option pynum :=
  match ct with
  | SigLikert _ b _ _ => Some (PInt b)
  | SigNumeric _ b => Some (PFloat b)
  | _ => None
  end.

Definition sig_scale_labels (ct : signature) : gmap Z pystr :=
  match ct with
  | SigLikert _ _ l _ => l
  | _ => ∅
  end.

Definition sig_special_numeric (ct : signature) : gset Z :=
  match ct with
  | SigLikert _ _ _ s => s
  | _ => ∅
  end.

Definition sig_n_unique (ct : signature) : nat :=
  match ct with
  | SigOpen n => n
  | SigSingle _ n => n
  | _ => 0%nat
  end.

(** State of the inner loop that gathers the sub-items of a group; the
    signatures [col_types[ci]] of the members are kept next to
    [group_cols] for the merge that follows. *)
Record gather_state := {
  group_cols : list nat;
  group_sigs : list signature;
  group_labels : list pystr;
  g_seen_headers : gset pystr;
  g_processed : gset nat;
}.

Definition g_skip (j : nat) (g : gather_state) : gather_state :=
  {| group_cols := group_cols g; group_sigs := group_sigs g;
     group_labels := group_labels g; g_seen_headers := g_seen_headers g;
     g_processed := {[j]} ∪ g_processed g |}.

Definition g_absorb (j : nat) (jcol : pystr) (jsig : signature) (g : gather_state)
  : gather_state :=
  {| group_cols := group_cols g ++ [j]; group_sigs := group_sigs g ++ [jsig];
     group_labels := group_labels g ++ [jcol];
     g_seen_headers := {[norm_header jcol]} ∪ g_seen_headers g;
     g_processed := g_processed g |}.

(** The inner [while j < n_cols] loop over the columns [rest] that start
    at position [j]; returns the state, the position where it stopped and
    the columns from there on. *)
Fixpoint gather (ctype : pystr) (j : nat) (rest : list (pystr * signature))
    (g : gather_state) : gather_state * nat * list (pystr * signature) :=
  match rest with
  | [] => (g, j, [])
  | (jcol, jsig) :: rest' =>
    if truthy (_split_qid_header jcol).1.1 then (g, j, rest)
    else if _is_meta jcol || _should_exclude jcol then
      gather ctype (S j) rest' (g_skip j g)
    else if bool_decide (norm_header jcol ∈ g_seen_headers g) then
      gather ctype (S j) rest' (g_skip j g)
    else
      let jtype := sig_type jsig in
      if negb (Str.eqb jtype ctype) && negb (Str.eqb jtype (u "empty")) then (g, j, rest)
      else if Str.eqb jtype (u "empty") then gather ctype (S j) rest' (g_skip j g)
      else gather ctype (S j) rest' (g_absorb j jcol jsig g)
  end.

(** One round of the merge of scale bounds. *)
Definition merge_bound (pick : pynum -> pynum -> pynum) (acc s : option pynum)
  : option pynum :=
  match s, acc with
  | Some x, None => Some x
  | Some x, Some a => Some (pick a x)
  | None, _ => acc
  end.

Definition merged_scale_min (sigs : list signature) : option pynum :=
  fold_left (fun acc ct => merge_bound py_min2 acc (sig_scale_min ct)) sigs None.

Definition merged_scale_max (sigs : list signature) : option pynum :=
  fold_left (fun acc ct => merge_bound py_max2 acc (sig_scale_max ct)) sigs None.

Definition merged_labels (sigs : list signature) : gmap Z pystr :=
  fold_left (fun acc ct => sig_scale_labels ct ∪ acc) sigs ∅.

Definition merged_special (sigs : list signature) : gset Z :=
  fold_left (fun acc ct => acc ∪ sig_special_numeric ct) sigs ∅.

(** [int(x) if x is not None else None] *)
Definition opt_int (x : option pynum) : exc (option Z) :=
  match x with
  | None => Ok None
  | Some v => let! z := num_to_int v in Ok (Some z)
  end.

Definition group_question (i : nat) (col_str : pystr)
    (qid parent_text : option pystr) (ctype : pystr) (is_demo : bool)
    (g : gather_state) : exc QuestionDef :=
  let! smin := opt_int (merged_scale_min (group_sigs g)) in
  let! smax := opt_int (merged_scale_max (group_sigs g)) in
  Ok {| id := str_or qid (u "group_" ++ Str.of_nat i);
        label := str_or parent_text col_str;
        columns := group_cols g;
        column_labels := group_labels g;
        question_type := ctype;
        chart_type := _infer_chart_type ctype 0;
        scale_min := smin;
        scale_max := smax;
        scale_labels := merged_labels (group_sigs g);
        special_values := merged_special (group_sigs g);
        is_demographic := is_demo;
        parent_question := [];
        weight_column := None;
        notes := [] |}.

Definition choice_question (i : nat) (col_str : pystr)
    (qid parent_text : option pystr) (n_cat : nat) (is_demo : bool) : QuestionDef :=
  {| id := str_or qid (u "choice_" ++ Str.of_nat i);
     label := str_or parent_text col_str;
     columns := [i];
     column_labels := [col_str];
     question_type := QT_SINGLE_CHOICE;
     chart_type := _infer_chart_type QT_SINGLE_CHOICE n_cat;
     scale_min := None;
     scale_max := None;
     scale_labels := ∅;
     special_values := ∅;
     is_demographic := is_demo;
     parent_question := [];
     weight_column := None;
     notes := [] |}.

Record scan_state := {
  questions : list QuestionDef;
  processed : gset nat;
  seen_headers : gset pystr;
}.

Definition is_group_type (ctype : pystr) : bool :=
  Str.eqb ctype QT_LIKERT || Str.eqb ctype QT_NUMERIC_SCALE || Str.eqb ctype QT_MULTI_CHOICE.

(** The outer [while i < n_cols] loop; [rest] holds the columns from
    position [i] on, each with its entry of [col_types]. [None] means that
    [fuel] rounds did not reach the end of the columns. *)
Fixpoint scan (fuel : nat) (i : nat) (rest : list (pystr * signature))
    (st : scan_state) : option (exc (list QuestionDef)) :=
  match fuel with
  | O => None
  | S fuel' =>
    match rest with
    | [] => Some (Ok (questions st))
    | (col_str, ct) :: rest' =>
      if bool_decide (i ∈ processed st) then scan fuel' (S i) rest' st
      else
        let col_norm := norm_header col_str in
        if Str.eqb (sig_type ct) (u "empty") || _is_meta col_str
           || _should_exclude col_str || bool_decide (col_norm ∈ seen_headers st)
        then
          scan fuel' (S i) rest'
            {| questions := questions st; processed := {[i]} ∪ processed st;
               seen_headers := seen_headers st |}
        else
          let seen := {[col_norm]} ∪ seen_headers st in
          let '(qid, parent_text, first_sub) := _split_qid_header col_str in
          if truthy qid && str_in (default [] qid) EXCLUDE_QIDS then
            scan fuel' (S i) rest'
              {| questions := questions st; processed := {[i]} ∪ processed st;
                 seen_headers := seen |}
          else
            let is_demo :=
              if truthy qid then str_in (default [] qid) DEMOGRAPHIC_QIDS else false in
            let ctype := sig_type ct in
            if is_group_type ctype then
              let '(g, j, rest'') :=
                gather ctype (S i) rest'
                  {| group_cols := [i]; group_sigs := [ct];
                     group_labels := [str_or first_sub col_str];
                     g_seen_headers := seen; g_processed := processed st |} in
              match group_question i col_str qid parent_text ctype is_demo g with
              | Raise e => Some (Raise e)
              | Ok q =>
                scan fuel' j rest''
                  {| questions := questions st ++ [q];
                     processed := list_to_set (group_cols g) ∪ g_processed g;
                     seen_headers := g_seen_headers g |}
              end
            else if Str.eqb ctype QT_SINGLE_CHOICE then
              scan fuel' (S i) rest'
                {| questions :=
                     questions st
                       ++ [choice_question i col_str qid parent_text (sig_n_unique ct) is_demo];
                   processed := {[i]} ∪ processed st;
                   seen_headers := seen |}
            else
              scan fuel' (S i) rest'
                {| questions := questions st; processed := {[i]} ∪ processed st;
                   seen_headers := seen |}
    end
  end.

(** [col_types]: the signature of every column, next to its header. *)
Definition col_types (df : dataframe) : list (pystr * signature) :=
  map (fun c => (col_name c, _detect_column_type (col_data c))) df.

(** [auto_detect_questions]; each round of the outer loop consumes at
    least one column, so [n_cols + 1] rounds are allowed. *)
Definition auto_detect_questions (df : dataframe) : option (exc (list QuestionDef)) :=
  scan (S (length df)) 0 (col_types df)
    {| questions := []; processed := ∅; seen_headers := ∅ |}.

(** ** Extraction of the data of a group *)

(** [str(x)] of a cell; a missing cell is the float NaN. *)
Definition cell_str (x : cell) : pystr := default (u "nan") x.

(** [parse_likert_value]; [None] is Python's [None]. *)
Definition parse_likert_value (val : cell) : option pyfloat :=
  match val with
  | None => None
  | Some v =>
    let s := Str.strip v in
    match s with
    | [] => None
    | _ :: _ =>
      match LIKERT_PREFIX_RE_match s with
      | Some (g1, _) => Some (FNum (Q2Qc (inject_Z (Str.int_of_digits g1))))
      | None =>
        if str_in (Str.lower s) SPECIAL_VALUES then None else Float.of_str s
      end
    end
  end.

(** [parse_numeric_value] *)
Definition parse_numeric_value (val : cell) : option pyfloat :=
  match val with
  | None => None
  | Some v =>
    let s := Str.strip v in
    if str_in (Str.lower s) SPECIAL_VALUES then None else Float.of_str s
  end.

(** A value of a parsed column. *)
Inductive parsed :=
| VFloat (x : option pyfloat)
| VInt (z : Z)
| VRaw (c : cell).

(** [x in question.special_values] for a float [x] and a set of ints. *)
Definition in_special (special : gset Z) (x : pyfloat) : bool :=
  match x with
  | FNum q => bool_decide (Qden (this q) = 1%positive ∧ Qnum (this q) ∈ special)
  | _ => false
  end.

Definition drop_special (special : gset Z) (x : option pyfloat) : option pyfloat :=
  match x with
  | Some f => if in_special special f then None else Some f
  | None => None
  end.

(** The lambda of the multiple-choice branch. *)
Definition mentioned_flag (x : cell) : Z :=
  if Str.eqb (Str.strip (cell_str x)) (u "MENTIONED") then 1 else 0.

Definition parse_column (question : QuestionDef) (series : list cell) : list parsed :=
  if Str.eqb (question_type question) QT_LIKERT then
    let parsed1 := map parse_likert_value series in
    map VFloat
      (if bool_decide (special_values question = ∅) then parsed1
       else map (drop_special (special_values question)) parsed1)
  else if Str.eqb (question_type question) QT_NUMERIC_SCALE then
    map (fun x => VFloat (parse_numeric_value x)) series
  else if Str.eqb (question_type question) QT_MULTI_CHOICE then
    map (fun x => VInt (mentioned_flag x)) series
  else map VRaw series.

(** [d[k] = v] on a dict kept in insertion order. *)
Fixpoint dict_set {V} (k : pystr) (v : V) (d : list (pystr * V)) : list (pystr * V) :=
  match d with
  | [] => [(k, v)]
  | (k', v') :: r => if Str.eqb k' k then (k', v) :: r else (k', v') :: dict_set k v r
  end.

(** [df[col_name]]; the headers of a loaded sheet are distinct. *)
Definition df_column (df : dataframe) (name : pystr) : option (list cell) :=
  option_map col_data (List.find (fun c => Str.eqb (col_name c) name) df).

(** A data frame of parsed columns, by label. *)
Abbreviation parsed_frame := (list (pystr * list parsed)).

(** [pd.to_numeric(df[weight_col], errors='coerce').fillna(1.0)] *)
Definition weight_value (x : cell) : parsed :=
  match x with
  | Some s =>
    match Float.of_str s with
    | Some FNaN | None => VFloat (Some (FNum 1))
    | Some f => VFloat (Some f)
    end
  | None => VFloat (Some (FNum 1))
  end.

Fixpoint numeric_columns (df : dataframe) (question : QuestionDef)
    (cols : list (nat * pystr)) (result : parsed_frame) : exc parsed_frame :=
  match cols with
  | [] => Ok result
  | (col_idx, lbl) :: r =>
    match df !! col_idx with
    | None => Raise IndexError
    | Some c =>
      match df_column df (col_name c) with
      | None => Raise KeyError
      | Some series =>
        numeric_columns df question r (dict_set lbl (parse_column question series) result)
      end
    end
  end.

Definition get_numeric_data (df : dataframe) (question : QuestionDef)
    (weight_col : option pystr) : exc parsed_frame :=
  let! result :=
    numeric_columns df question (combine (columns question) (column_labels question)) [] in
  match weight_col with
  | Some (c :: w) =>
    match df_column df (c :: w) with
    | Some series => Ok (dict_set (u "_weight") (map weight_value series) result)
    | None => Ok result
    end
  | _ => Ok result
  end.

(** ** Schema loading *)

(** A YAML document as [yaml.safe_load] returns it; a mapping keeps its
    keys, which are distinct, in the order of the document. *)
#[local] Set Warnings "-register-all".

Inductive yaml :=
| YNull
| YBool (b : bool)
| YInt (z : Z)
| YFloat (f : pyfloat)
| YStr (s : pystr)
| YSeq (l : list yaml)
| YMap (m : list (yaml * yaml)).

#[local] Set Warnings "+register-all".

Definition is_key (k : pystr) (y : yaml) : bool :=
  match y with
  | YStr s => Str.eqb s k
  | _ => false
  end.

(** [not x] is [negb (py_bool x)]. *)
Definition py_bool (y : yaml) : bool :=
  match y with
  | YNull => false
  | YBool b => b
  | YInt z => negb (z =? 0)
  | YFloat f => negb (bool_decide (f = FNum 0))
  | YStr s => match s with [] => false | _ => true end
  | YSeq l => match l with [] => false | _ => true end
  | YMap m => match m with [] => false | _ => true end
  end.

(** [k in y] for a string [k]. *)
Definition py_in (k : pystr) (y : yaml) : exc bool :=
  match y with
  | YMap m => Ok (existsb (fun kv => is_key k kv.1) m)
  | YSeq l => Ok (existsb (is_key k) l)
  | YStr s => Ok (Str.contains k s)
  | _ => Raise TypeError
  end.

Definition map_get (k : pystr) (m : list (yaml * yaml)) : option yaml :=
  option_map snd (List.find (fun kv => is_key k kv.1) m).

(** [y[k]] for a string [k]. *)
Definition py_getitem (k : pystr) (y : yaml) : exc yaml :=
  match y with
  | YMap m =>
    match map_get k m with
    | Some v => Ok v
    | None => Raise KeyError
    end
  | _ => Raise TypeError
  end.

(** [y.get(k, d)] on a mapping. *)
Definition py_get (k : pystr) (d : yaml) (y : yaml) : exc yaml :=
  match y with
  | YMap m => Ok (default d (map_get k m))
  | _ => Raise TypeError
  end.

(** The elements that [for x in y] visits. *)
Definition py_iter (y : yaml) : exc (list yaml) :=
  match y with
  | YSeq l => Ok l
  | YMap m => Ok (map fst m)
  | YStr s => Ok (map (fun c => YStr [c]) s)
  | _ => Raise TypeError
  end.

Definition hashable (y : yaml) : bool :=
  match y with
  | YSeq _ | YMap _ => false
  | _ => true
  end.

(** [set(y)]: the set is kept as the sequence of the elements put in it. *)
Definition py_set (y : yaml) : exc (list yaml) :=
  let! l := py_iter y in
  if forallb hashable l then Ok l else Raise TypeError.

(** A [QuestionDef] as [load_config] builds it: the fields hold the nodes
    of the document as they were read. *)
Record LoadedQuestionDef := {
  l_id : yaml;
  l_label : yaml;
  l_columns : yaml;
  l_column_labels : yaml;
  l_question_type : yaml;
  l_chart_type : yaml;
  l_scale_min : yaml;
  l_scale_max : yaml;
  l_scale_labels : yaml;
  l_special_values : list yaml;
  l_is_demographic : yaml;
}.

Definition load_question (qd : yaml) : exc LoadedQuestionDef :=
  let! v_id := py_getitem (u "id") qd in
  let! v_label := py_getitem (u "label") qd in
  let! v_columns := py_getitem (u "columns") qd in
  let! v_column_labels := py_get (u "column_labels") (YSeq []) qd in
  let! v_question_type := py_getitem (u "question_type") qd in
  let! v_chart_type := py_getitem (u "chart_type") qd in
  let! v_scale_min := py_get (u "scale_min") YNull qd in
  let! v_scale_max := py_get (u "scale_max") YNull qd in
  let! v_scale_labels := py_get (u "scale_labels") (YMap []) qd in
  let! v_special := py_get (u "special_values") (YSeq []) qd in
  let! special := py_set v_special in
  let! v_demo := py_get (u "is_demographic") (YBool false) qd in
  Ok {| l_id := v_id; l_label := v_label; l_columns := v_columns;
        l_column_labels := v_column_labels; l_question_type := v_question_type;
        l_chart_type := v_chart_type; l_scale_min := v_scale_min;
        l_scale_max := v_scale_max; l_scale_labels := v_scale_labels;
        l_special_values := special; l_is_demographic := v_demo |}.

Fixpoint load_questions (qds : list yaml) : exc (list LoadedQuestionDef) :=
  match qds with
  | [] => Ok []
  | qd :: r =>
    let! q := load_question qd in
    let! qs := load_questions r in
    Ok (q :: qs)
  end.

Section LoadConfig.

(** [str(x)] of a node of the document. *)
Variable py_str : yaml -> pystr.

(** [load_config] on the document that [yaml.safe_load] returned. *)
Definition load_config (config : yaml)
  : exc (list LoadedQuestionDef * option (list pystr)) :=
  let! has_questions :=
    (if py_bool config then py_in (u "questions") config else Ok false) in
  if negb has_questions then Raise ValueError
  else
    let! section := py_getitem (u "questions") config in
    let! qds := py_iter section in
    let! questions := load_questions qds in
    let! categorical_ids := py_get (u "categorical_questions") YNull config in
    match categorical_ids with
    | YNull => Ok (questions, None)
    | ids =>
      let! l := py_iter ids in
      Ok (questions, Some (map (fun x => Str.strip (py_str x)) l))
    end.

End LoadConfig.

(** ** statistics.py

    A numeric pandas column is a list of [option Qc]: [None] is NaN. A
    weight vector is aligned with it by row position. *)

Module Stats.

Local Open Scope Qc_scope.

Definition sum (l : list Qc) : Qc := foldr Qcplus 0 l.

Definition of_nat (n : nat) : Qc := Q2Qc (inject_Z (Z.of_nat n)).

Definition hundred : Qc := Q2Qc (100 # 1).

(** [values.dropna()]: the values left, each with its row label. *)
Definition dropna {A} (values : list (option A)) : list (nat * A) :=
  omap (fun p => option_map (pair p.1) p.2) (imap pair values).

(** [weights.loc[index].fillna(1.0)]; a label that the weights lack is a
    [KeyError]. *)
Fixpoint loc_fillna (weights : list (option Qc)) (index : list nat) : exc (list Qc) :=
  match index with
  | [] => Ok []
  | i :: r =>
    match weights !! i with
    | None => Raise KeyError
    | Some w =>
      let! ws := loc_fillna weights r in
      Ok (default 1 w :: ws)
    end
  end.

(** [np.average(a, weights=w)]: numpy raises [ZeroDivisionError] when the
    weights sum to zero. *)
Definition np_average (a w : list Qc) : exc Qc :=
  let scl := sum w in
  if bool_decide (scl = 0) then Raise ZeroDivisionError
  else Ok (sum (zip_with Qcmult a w) / scl).

(** [Series.mean()] of a column without NaN. *)
Definition mean (a : list Qc) : Qc := sum a / of_nat (length a).

(** [weighted_mean]; [Ok None] is NaN. *)
Definition weighted_mean (values : list (option Qc)) (weights : option (list (option Qc)))
  : exc (option Qc) :=
  let valid := dropna values in
  match valid with
  | [] => Ok None
  | _ :: _ =>
    match weights with
    | Some ws =>
      let! w := loc_fillna ws valid.*1 in
      let! m := np_average valid.*2 w in
      Ok (Some m)
    | None => Ok (Some (mean valid.*2))
    end
  end.

(** [Series.median()] of a column without NaN: the middle value, or the
    mean of the two middle values. *)
Definition median (a : list Qc) : option Qc :=
  let s := merge_sort Qcle a in
  let n := length s in
  if Nat.even n then
    x ← s !! (n / 2 - 1)%nat; y ← s !! (n / 2)%nat; Some ((x + y) / 2)
  else s !! (n / 2)%nat.

(** [np.cumsum] *)
Fixpoint cumsum_from (acc : Qc) (l : list Qc) : list Qc :=
  match l with
  | [] => []
  | x :: r => (acc + x) :: cumsum_from (acc + x) r
  end.

Definition cumsum (l : list Qc) : list Qc := cumsum_from 0 l.

(** Order of the rows under [argsort] of the values. *)
Definition by_value (p q : Qc * Qc) : Prop := p.1 <= q.1.

#[global] Instance by_value_dec p q : Decision (by_value p q).
Proof. unfold by_value. apply _. Defined.

(** [weighted_median]; values that are equal keep their order when the
    rows are sorted by value. *)
Definition weighted_median (values : list (option Qc)) (weights : option (list (option Qc)))
  : exc (option Qc) :=
  let valid := dropna values in
  match valid with
  | [] => Ok None
  | _ :: _ =>
    match weights with
    | None => Ok (median valid.*2)
    | Some ws =>
      let! w := loc_fillna ws valid.*1 in
      let sorted := merge_sort by_value (zip valid.*2 w) in
      let sorted_vals := sorted.*1 in
      let sorted_weights := sorted.*2 in
      let cs := cumsum sorted_weights in
      let cutoff := default 0 (last cs) / 2 in
      match filter (fun p : Qc * Qc => cutoff <= p.2) (zip sorted_vals cs) with
      | (v, _) :: _ => Ok (Some v)
      | [] => Raise IndexError
      end
    end
  end.

(** A standard deviation: NaN, or the square root of a rational. *)
Inductive stdval :=
| StdNaN
| StdSqrt (radicand : Qc).

Definition np_sqrt (q : Qc) : stdval :=
  if bool_decide (q < 0) then StdNaN else StdSqrt q.

Definition sq (x : Qc) : Qc := x * x.

(** [Series.std()]: the sample standard deviation (ddof = 1). *)
Definition std (a : list Qc) : stdval :=
  let m := mean a in
  StdSqrt (sum (map (fun x => sq (x - m)) a) / of_nat (length a - 1)).

(** [weighted_std] *)
Definition weighted_std (values : list (option Qc)) (weights : option (list (option Qc)))
  : exc stdval :=
  let valid := dropna values in
  if (length valid <=? 1)%nat then Ok StdNaN
  else
    match weights with
    | None => Ok (std valid.*2)
    | Some ws =>
      let! w := loc_fillna ws valid.*1 in
      let! avg := np_average valid.*2 w in
      let! variance := np_average (map (fun x => sq (x - avg)) valid.*2) w in
      Ok (np_sqrt variance)
    end.

(** Rounding to the nearest integer, halves to the even one. *)
Definition round_half_even (x : Q) : Z :=
  let f := Qfloor x in
  match ((x - inject_Z f) ?= (1 # 2))%Q with
  | Lt => f
  | Gt => (f + 1)%Z
  | Eq => if Z.even f then f else (f + 1)%Z
  end.

(** [round(x, 1)] and [x.round(1)] *)
Definition round1 (x : Qc) : Qc :=
  Q2Qc (inject_Z (round_half_even (this x * 10)) / 10).

(** The distinct elements of a list in the order of their first
    occurrence. *)
Fixpoint first_seen (seen : list pystr) (l : list pystr) : list pystr :=
  match l with
  | [] => []
  | x :: r =>
    if bool_decide (x ∈ seen) then first_seen seen r
    else x :: first_seen (x :: seen) r
  end.

(** Descending order of the counts. *)
Definition by_count_desc (a b : pystr * Qc) : Prop := b.2 <= a.2.

#[global] Instance by_count_desc_dec a b : Decision (by_count_desc a b).
Proof. unfold by_count_desc. apply _. Defined.

Record freq_row := {
  Kategoria : pystr;
  freq_N : Qc;
  freq_pct : Qc;
}.

(** The rows of the column that [frequency_table] counts. *)
Definition freq_valid (series : list cell) : list (nat * pystr) :=
  filter (fun p => Str.strip p.2 ≠ []) (dropna series).

(** [frequency_table]. With weights the categories come from
    [groupby], which sorts its keys; without weights from
    [value_counts(sort=False)], which keeps the order of the data.
    [sort_values] is taken to keep equal counts in their order. *)
Definition frequency_table (series : list cell) (weights : option (list (option Qc)))
    (sort_by_count : bool) : exc (list freq_row) :=
  let valid := freq_valid series in
  let! ft :=
    match weights with
    | Some ws =>
      let! w := loc_fillna ws valid.*1 in
      let rows := zip valid.*2 w in
      let keys := sorted_strs (list_to_set valid.*2) in
      Ok (map (fun k => (k, sum (filter (fun r => r.1 = k) rows).*2)) keys, sum w)
    | None =>
      Ok (map (fun k => (k, of_nat (length (filter (fun v => v = k) valid.*2))))
              (first_seen [] valid.*2),
          of_nat (length valid))
    end in
  let freq :=
    if sort_by_count
    then merge_sort by_count_desc ft.1
    else ft.1 in
  let total := ft.2 in
  Ok (map (fun kc : pystr * Qc =>
             {| Kategoria := kc.1; freq_N := kc.2;
                freq_pct := if bool_decide (0 < total)
                            then round1 (kc.2 / total * hundred) else 0 |}) freq).

Record choice_row := {
  Opcja : pystr;
  choice_N : nat;
  choice_pct : Qc;
}.

(** Descending order of the percentages. *)
Definition by_pct_desc (a b : choice_row) : Prop := choice_pct b <= choice_pct a.

#[global] Instance by_pct_desc_dec a b : Decision (by_pct_desc a b).
Proof. unfold by_pct_desc. apply _. Defined.

(** [series == 1] *)
Definition is_one (v : parsed) : bool :=
  match v with
  | VInt z => (z =? 1)%Z
  | VFloat (Some (FNum q)) => bool_decide (q = 1)
  | _ => false
  end.

(** [weights[mask].sum()]: missing weights are skipped. *)
Definition masked_sum (weights : list (option Qc)) (mask : list bool) : Qc :=
  sum (omap (fun p : option Qc * bool => if p.2 then p.1 else None) (zip weights mask)).

Definition starts_with_underscore (s : pystr) : bool :=
  match s with
  | 95%N :: _ => true
  | _ => false
  end.

(** [len(data)] *)
Definition frame_len (data : parsed_frame) : nat :=
  match data with
  | [] => 0
  | (_, c) :: _ => length c
  end.

Definition choice_rows (data : parsed_frame) (weights : option (list (option Qc)))
  : list choice_row :=
  let n_total := frame_len data in
  map (fun lc : pystr * list parsed =>
         let mask := map is_one lc.2 in
         let n_mentioned := length (filter (fun b => b = true) mask) in
         let pct :=
           match weights with
           | Some ws =>
             let mentioned_w := masked_sum ws mask in
             let total_w := sum (omap (fun w => w) ws) in
             if bool_decide (0 < total_w) then mentioned_w / total_w * hundred else 0
           | None =>
             if (0 <? n_total)%nat then of_nat n_mentioned / of_nat n_total * hundred else 0
           end in
         {| Opcja := lc.1; choice_N := n_mentioned; choice_pct := round1 pct |})
      (filter (fun lc => starts_with_underscore lc.1 = false) data).

(** [multiple_choice_table]; sorting a frame without rows by a column it
    does not have is a [KeyError]. *)
Definition multiple_choice_table (data : parsed_frame) (weights : option (list (option Qc)))
  : exc (list choice_row) :=
  match choice_rows data weights with
  | [] => Raise KeyError
  | rows => Ok (merge_sort by_pct_desc rows)
  end.

Record crosstab := {
  ct_index : list pystr;
  ct_columns : list pystr;
  ct_values : list (list Qc);
}.

(** The rows where both columns are present, with their weight. *)
Definition paired (data_col group_col : list cell) (weights : option (list (option Qc)))
  : list (pystr * pystr * option Qc) :=
  omap (fun p : nat * (cell * cell) =>
          d ← p.2.1; g ← p.2.2;
          Some (d, g, match weights with
                      | Some ws => mjoin (ws !! p.1)
                      | None => Some 1
                      end))
       (imap pair (zip data_col group_col)).

(** A cell of [pd.crosstab]: a count, or with weights the sum of the
    weights present, NaN ([None]) when no row falls in the cell. *)
Definition ct_cell (weighted : bool) (rows : list (pystr * pystr * option Qc))
    (d g : pystr) : option Qc :=
  let here := filter (fun r => r.1.1 = d ∧ r.1.2 = g) rows in
  match here, weighted with
  | [], true => None
  | _, _ => Some (sum (omap snd here))
  end.

(** [ct.sum(axis=0)] for one column. *)
Definition col_sum (weighted : bool) (rows : list (pystr * pystr * option Qc))
    (index : list pystr) (g : pystr) : Qc :=
  sum (omap (fun d => ct_cell weighted rows d g) index).

(** One entry of [ct.div(col_sums, axis=1) * 100], rounded, NaN filled
    with 0. *)
Definition ct_pct (weighted : bool) (rows : list (pystr * pystr * option Qc))
    (index : list pystr) (d g : pystr) : Qc :=
  let s := col_sum weighted rows index g in
  if bool_decide (s = 0) then 0
  else
    match ct_cell weighted rows d g with
    | Some x => round1 (x / s * hundred)
    | None => 0
    end.

(** [cross_tab_frequencies] *)
Definition cross_tab_frequencies (data_col group_col : list cell)
    (weights : option (list (option Qc))) : crosstab :=
  let rows := paired data_col group_col weights in
  let weighted := bool_decide (is_Some weights) in
  let index := sorted_strs (list_to_set rows.*1.*1) in
  let cols := sorted_strs (list_to_set rows.*1.*2) in
  {| ct_index := index; ct_columns := cols;
     ct_values := map (fun d => map (fun g => ct_pct weighted rows index d g) cols) index |}.

(** The sum of column [k] of the percentage matrix. *)
Definition column_total (ct : crosstab) (k : nat) : Qc :=
  sum (map (fun row => default 0 (row !! k)) (ct_values ct)).

Section GroupTests.

(** The scipy routines and the floats they return are taken as given:
    [F] is the type of a statistic, a routine returns statistic and
    p-value or raises. *)
Variable F : Type.
Variable nan : F.
Variable py_round : F -> nat -> F.
Variable to_numeric : cell -> option Qc.
Variable mannwhitneyu : list Qc -> list Qc -> exc (F * F).
Variable ttest_ind : list Qc -> list Qc -> exc (F * F).
Variable kruskal : list (list Qc) -> exc (F * F).

Record test_result := {
  test : pystr;
  statistic : F;
  p_value : F;
}.

Definition undefined_result (name : pystr) : test_result :=
  {| test := name; statistic := nan; p_value := nan |}.

Definition rounded_result (name : pystr) (r : F * F) : test_result :=
  {| test := name; statistic := py_round r.1 2; p_value := py_round r.2 4 |}.

(** The rows with a number and a group. *)
Definition valid_pairs (data_col group_col : list cell) : list (Qc * pystr) :=
  omap (fun p : cell * cell => x ← to_numeric p.1; g ← p.2; Some (x, g))
       (zip data_col group_col).

Definition group_values (pairs : list (Qc * pystr)) (g : pystr) : list Qc :=
  (filter (fun p => p.2 = g) pairs).*1.

(** [test_group_differences] *)
Definition test_group_differences (data_col group_col : list cell) (test_type : pystr)
  : exc test_result :=
  let pairs := valid_pairs data_col group_col in
  if (length pairs <? 5)%nat then Ok (undefined_result (u "insufficient_data"))
  else
    let unique_groups := first_seen [] pairs.*2 in
    if (length unique_groups <? 2)%nat then Ok (undefined_result (u "single_group"))
    else
      let group_data := map (group_values pairs) unique_groups in
      let kruskal_wallis :=
        match kruskal group_data with
        | Ok r => Ok (rounded_result (u "Kruskal-Wallis") r)
        | Raise _ => Ok (undefined_result (u "error"))
        end in
      match group_data with
      | [g0; g1] =>
        if Str.eqb test_type (u "auto") then
          let! r := mannwhitneyu g0 g1 in
          Ok (rounded_result (u "Mann-Whitney U") r)
        else if Str.eqb test_type (u "ttest") then
          let! r := ttest_ind g0 g1 in
          Ok (rounded_result (u "t-test") r)
        else kruskal_wallis
      | _ => kruskal_wallis
      end.

End GroupTests.

Section ChiSquare.

(** As for the group tests, the scipy routine and the floats it returns
    are taken as given. *)
Variable F : Type.
Variable nan : F.
Variable py_round : F -> nat -> F.
Variable chi2_contingency : list (list Qc) -> exc (F * F).

(** The rows in which both cells are present and neither is blank: the
    row label and the two stripped values. *)
Definition chi_rows (data_col group_col : list cell) : list (nat * (pystr * pystr)) :=
  omap (fun p : nat * (cell * cell) =>
          d ← p.2.1; g ← p.2.2;
          if bool_decide (Str.strip d ≠ [] ∧ Str.strip g ≠ [])
          then Some (p.1, (Str.strip d, Str.strip g)) else None)
       (imap pair (zip data_col group_col)).

(** [pd.crosstab(...)] of the rows, with [fillna(0)] where weights are
    summed: the sorted labels of both axes and, for each pair of labels,
    the total weight of the rows that carry it. *)
Definition contingency (rows : list (pystr * pystr * Qc)) : crosstab :=
  let index := sorted_strs (list_to_set rows.*1.*1) in
  let cols := sorted_strs (list_to_set rows.*1.*2) in
  {| ct_index := index; ct_columns := cols;
     ct_values :=
       map (fun d => map (fun g => sum (filter (fun r => r.1 = (d, g)) rows).*2) cols)
           index |}.

(** [chi_square_test]; only a [ValueError] of the routine is caught. *)
Definition chi_square_test (data_col group_col : list cell)
    (weights : option (list (option Qc))) : exc (test_result F) :=
  let rows := chi_rows data_col group_col in
  if (length rows <? 5)%nat then Ok (undefined_result F nan (u "chi2"))
  else
    let! w :=
      match weights with
      | Some ws => loc_fillna ws rows.*1
      | None => Ok (map (fun _ => 1) rows)
      end in
    let table := contingency (zip rows.*2 w) in
    if (length (ct_index table) <? 2)%nat || (length (ct_columns table) <? 2)%nat
    then Ok (undefined_result F nan (u "chi2"))
    else
      match chi2_contingency (ct_values table) with
      | Ok r => Ok (rounded_result F py_round (u "chi2") r)
      | Raise ValueError => Ok (undefined_result F nan (u "chi2"))
      | Raise e => Raise e
      end.

End ChiSquare.

End Stats.

#[global] Instance exc_eq_dec {A} `{EqDecision A} : EqDecision (exc A).
Proof. solve_decision. Defined.

#[global] Instance stdval_eq_dec : EqDecision Stats.stdval.
Proof. solve_decision. Defined.

#[global] Instance freq_row_eq_dec : EqDecision Stats.freq_row.
Proof. solve_decision. Defined.

#[global] Instance choice_row_eq_dec : EqDecision Stats.choice_row.
Proof. solve_decision. Defined.

#[global] Instance crosstab_eq_dec : EqDecision Stats.crosstab.
Proof. solve_decision. Defined.

#[global] Instance QuestionDef_eq_dec : EqDecision QuestionDef.
Proof. solve_decision. Defined.

(** Closed goals are settled by evaluating the decision procedure. *)
Ltac by_eval := apply (bool_decide_unpack _); vm_compute; exact I.

(** A rational number as a float column value. *)
Definition qz (z : Z) : Qc := Q2Qc (inject_Z z).

(** ** Predicates used in the statements *)

(** The code and the label that the likert loop reads from a value. *)
Definition kv (v : pystr) : option (Z * pystr) :=
  match LIKERT_PREFIX_RE_match v with
  | Some (g1, g2) => Some (Str.int_of_digits g1, Str.strip g2)
  | None => None
  end.

(** Every likert code of the column carries one label text. *)
Definition label_consistent (series : list cell) : Prop :=
  forall v1 v2 n l1 l2,
    v1 ∈ clean_values series -> v2 ∈ clean_values series ->
    kv v1 = Some (n, l1) -> kv v2 = Some (n, l2) -> l1 = l2.

(** No value of the column reads as the float NaN. *)
Definition nan_free (series : list cell) : Prop :=
  forall v, v ∈ clean_values series -> Float.of_str v ≠ Some FNaN.

(** A value that fails [float()] and is not a known non-response. *)
Definition is_text (v : pystr) : bool :=
  match Float.of_str v with
  | Some _ => false
  | None => negb (str_in (Str.strip (Str.lower v)) SPECIAL_VALUES)
  end.

(** A binding list in which a key has one value. *)
Definition functional_kvs (l : list (Z * pystr)) : Prop :=
  forall k x y, (k, x) ∈ l -> (k, y) ∈ l -> x = y.

(** [m] is a least (greatest) element of [l] for the float order. *)
Definition is_least (m : pyfloat) (l : list pyfloat) : Prop :=
  m ∈ l ∧ forall y, y ∈ l -> Float.ltb y m = false.

Definition is_greatest (m : pyfloat) (l : list pyfloat) : Prop :=
  m ∈ l ∧ forall y, y ∈ l -> Float.ltb m y = false.

(** The answers of the yes/no/don't-know example and its signature. *)
Definition tak_nie : list pystr := [u "1: Tak"; u "2: Nie"; u "6: Nie wiem"].

Definition tak_nie_labels : gmap Z pystr :=
  <[1 := u "Tak"]> (<[2 := u "Nie"]> (<[6 := u "Nie wiem"]> ∅)).

(** A column that records its header among the seen ones when it is
    reached with a fresh header: it is not empty and carries neither a
    metadata nor an exclusion keyword. *)
Definition registers (c : pystr * signature) : bool :=
  negb (Str.eqb (sig_type c.2) (u "empty")) && negb (_is_meta c.1)
  && negb (_should_exclude c.1).

(** The normalized headers recorded by the columns [pre]. *)
Definition seen_after (pre : list (pystr * signature)) : gset pystr :=
  list_to_set (map (fun c => norm_header c.1) (filter (fun c => registers c = true) pre)).

Definition has_excluded_qid (header : pystr) : bool :=
  let qid := (_split_qid_header header).1.1 in
  truthy qid && str_in (default [] qid) EXCLUDE_QIDS.

(** The column [c], standing after the columns [pre], is skipped: it is
    empty, carries a metadata or exclusion keyword, repeats a header
    already seen, or carries an excluded identifier. *)
Definition is_skipped (pre : list (pystr * signature)) (c : pystr * signature) : bool :=
  negb (registers c) || bool_decide (norm_header c.1 ∈ seen_after pre)
  || has_excluded_qid c.1.

(** The types for which the automaton builds groups. *)
Definition is_grouped_type (ctype : pystr) : bool :=
  is_group_type ctype || Str.eqb ctype QT_SINGLE_CHOICE.

Definition is_member (cols : list (pystr * signature)) (i : nat) : bool :=
  match cols !! i with
  | Some c => negb (is_skipped (take i cols) c) && is_grouped_type (sig_type c.2)
  | None => false
  end.

(** The positions of the columns that are not skipped and have a grouped
    type, in order. *)
Definition expected_members (cols : list (pystr * signature)) : list nat :=
  filter (fun i => is_member cols i = true) (seq 0 (length cols)).

(** The same positions, counted along the columns [rest] that follow
    [pre]. *)
Fixpoint members_from (pre rest : list (pystr * signature)) : list nat :=
  match rest with
  | [] => []
  | c :: r =>
    (if negb (is_skipped pre c) && is_grouped_type (sig_type c.2)
     then [length pre] else [])
    ++ members_from (pre ++ [c]) r
  end.

Definition finite_num (x : pynum) : Prop :=
  match x with
  | PInt _ | PFloat (FNum _) => True
  | _ => False
  end.

Definition finite_sig (ct : signature) : Prop :=
  match ct with
  | SigNumeric (FNum _) (FNum _) => True
  | SigNumeric _ _ => False
  | _ => True
  end.

(** The numeric columns of the data have finite bounds. *)
Definition finite_bounds (df : dataframe) : Prop :=
  Forall (fun c => finite_sig c.2) (col_types df).

(** What the inner loop has done when it stops: it has passed the columns
    [consumed], absorbed those that are members and recorded their
    headers. *)
Definition gather_post (ctype : pystr) (j : nat) (rest : list (pystr * signature))
    (g : gather_state) (pre : list (pystr * signature))
    (r : gather_state * nat * list (pystr * signature)) : Prop :=
  exists consumed,
    rest = consumed ++ r.2
    ∧ r.1.2 = (j + length consumed)%nat
    ∧ g_seen_headers r.1.1 = seen_after (pre ++ consumed)
    ∧ group_cols r.1.1 = group_cols g ++ members_from pre consumed
    ∧ (forall P : signature -> Prop,
         Forall P (group_sigs g) -> Forall P consumed.*2 -> Forall P (group_sigs r.1.1))
    ∧ (forall x, x ∈ g_processed r.1.1 -> x ∈ g_processed g ∨ (j <= x < r.1.2)%nat).

(** What the outer loop returns from the columns [rest] that follow [pre]:
    it ends, the groups it adds hold the member columns of [rest] in
    order, and it ends without an error when the bounds are finite. *)
Definition scan_post (pre rest : list (pystr * signature)) (st : scan_state)
    (res : option (exc (list QuestionDef))) : Prop :=
  exists r,
    res = Some r
    ∧ (forall qs, r = Ok qs ->
         concat (map columns qs)
         = concat (map columns (questions st)) ++ members_from pre rest)
    ∧ (Forall finite_sig rest.*2 -> exists qs, r = Ok qs).

(** ** Sample data *)

Definition sample_column (header : string) (values : list string) : column :=
  {| col_name := u header; col_data := map (fun s => Some (u s)) values |}.

(** An interview number, a three-item likert battery with an empty column
    in between, a demographic single choice, a numeric scale and a mention
    flag. *)
Definition sample_survey : dataframe :=
  [ sample_column "Numer wywiadu" ["1"; "2"];
    sample_column "A1. Jak oceniasz jakość usług? Uprzejmość personelu"
      ["1: Źle"; "5: Dobrze"];
    sample_column "Czas oczekiwania" ["2: Źle"; "6: Nie wiem"];
    sample_column "pusta" [];
    sample_column "Czystość" ["3: Średnio"; "4: Dobrze"];
    sample_column "M3. Płeć" ["Kobieta"; "Mężczyzna"];
    sample_column "B1. Ocena" ["1"; "7"];
    sample_column "Dodatkowo" ["MENTIONED"; "NOT MENTIONED"] ]%string.

(** A column of sixteen different free-text answers. *)
Definition remarks_column : column :=
  sample_column "Uwagi"
    ["a"; "b"; "c"; "d"; "e"; "f"; "g"; "h"; "i"; "j"; "k"; "l"; "m"; "n"; "o"; "p"]%string.

(** A numeric column without missing values. *)
Definition nums (l : list Z) : list (option Qc) := map (fun z => Some (qz z)) l.

Definition freq (k : string) (n : Z) (pct : Q) : Stats.freq_row :=
  {| Stats.Kategoria := u k; Stats.freq_N := qz n; Stats.freq_pct := Q2Qc pct |}.

(** The number of cells of a parsed column that equal 1. *)
Definition count_mentioned (col : list parsed) : nat :=
  length (filter (fun b => b = true) (map Stats.is_one col)).

(** A stand-in for the scipy routines, used to run
    [test_group_differences] on sample data: statistics are rationals,
    [None] is NaN, and every routine returns NaN for both numbers. *)
Definition cell_number (x : cell) : option Qc :=
  match x with
  | Some s =>
    match Float.of_str s with
    | Some (FNum q) => Some q
    | _ => None
    end
  | None => None
  end.

Definition sample_test (data_col group_col : list cell) (test_type : pystr)
  : exc (Stats.test_result (option Qc)) :=
  Stats.test_group_differences (option Qc) None (fun x _ => x) cell_number
    (fun _ _ => Ok (None, None)) (fun _ _ => Ok (None, None)) (fun _ => Ok (None, None))
    data_col group_col test_type.

Definition cells (l : list string) : list cell := map (fun s => Some (u s)) l.

(** A mention-flag question over the first two columns of a sheet. *)
Definition mention_question : QuestionDef :=
  {| id := u "C1"; label := u "C1. Z czego korzystasz?"; columns := [0; 1]%nat;
     column_labels := [u "Telefon"; u "Internet"];
     question_type := QT_MULTI_CHOICE; chart_type := CT_MULTI_BAR;
     scale_min := None; scale_max := None; scale_labels := ∅; special_values := ∅;
     is_demographic := false; parent_question := []; weight_column := None;
     notes := [] |}.

Definition mention_sheet : dataframe :=
  [ {| col_name := u "C1. Z czego korzystasz? Telefon";
       col_data := [Some (u "MENTIONED"); None; Some (u "NOT MENTIONED"); Some (u " MENTIONED ")] |};
    {| col_name := u "Internet";
       col_data := [None; None; Some (u "MENTIONED"); None] |} ].

(** Half a unit of the first decimal: the most that [round1] moves a
    value. *)
Definition half_tenth : Qc := Q2Qc (1 # 20).

(** The share of a cell in its column, in percent, before rounding. *)
Definition exact_share (weighted : bool) (rows : list (pystr * pystr * option Qc))
    (index : list pystr) (g d : pystr) : Qc :=
  match Stats.ct_cell weighted rows d g with
  | Some x => (x / Stats.col_sum weighted rows index g * Stats.hundred)%Qc
  | None => Q2Qc 0
  end.

(** ** Proof automation *)

(** Turns a goal on the order of [Qc] into one on [Q]. *)
Ltac to_Q :=
  unfold Qcle, Qclt, Qcminus, Qcplus, Qcmult, Qcopp, Qcdiv, Qcinv, Q2Qc in *; simpl this in *;
  repeat match goal with
         | H : context [Qred _] |- _ => rewrite !Qred_correct in H
         end;
  rewrite ?Qred_correct.

(** Splits a [Forall] over an explicit list into its elements. *)
Ltac each_of_list :=
  apply Forall_forall; intros ? ?Hw;
  repeat (apply elem_of_cons in Hw as [->|Hw]); try (by inversion Hw).


(** ** Weighted rows *)

(** No weight is negative. *)
Definition nonneg_weights (ws : list (option Qc)) : Prop :=
  Forall (fun o : option Qc => (0 <= default 0 o)%Qc) ws.

(** Every row that has a value has an entry in the weights. *)
Definition covered (values ws : list (option Qc)) : Prop :=
  forall i v, values !! i = Some (Some v) -> (i < length ws)%nat.

(** The weight that [weights.loc[...].fillna(1.0)] gives row [i]. *)
Definition filled (ws : list (option Qc)) (i : nat) : Qc :=
  default 1%Qc (mjoin (ws !! i)).

(** The rows with a value, each with its weight. *)
Definition weighted_rows (values ws : list (option Qc)) : list (Qc * Qc) :=
  map (fun p : nat * Qc => (p.2, filled ws p.1)) (Stats.dropna values).

(** The total weight of the rows whose value satisfies [P]. *)
Definition weight_of (P : Qc -> Prop) `{!forall x, Decision (P x)}
    (rows : list (Qc * Qc)) : Qc :=
  Stats.sum (filter (fun r => P r.1) rows).*2.

(** ** Shape of the question groups *)

(** The question identifier that a header carries, if any. *)
Definition header_qid (header : pystr) : option pystr := (_split_qid_header header).1.1.

(** The members gathered so far, the columns before [j] having been
    passed: each is a column of type [ctype] standing before [j] and kept
    with its signature, and each but the first has no question identifier
    and is labelled by its header. *)
Definition gathered (cols : list (pystr * signature)) (ctype : pystr) (j : nat)
    (g : gather_state) : Prop :=
  group_cols g ≠ []
  ∧ StronglySorted Nat.lt (group_cols g)
  ∧ length (group_sigs g) = length (group_cols g)
  ∧ length (group_labels g) = length (group_cols g)
  ∧ forall k c, group_cols g !! k = Some c ->
      (c < j)%nat
      ∧ exists hdr sig,
          cols !! c = Some (hdr, sig) ∧ group_sigs g !! k = Some sig
          ∧ sig_type sig = ctype
          ∧ ((0 < k)%nat ->
             truthy (header_qid hdr) = false ∧ group_labels g !! k = Some hdr).

(** A question group over the columns [cols] of a sheet. *)
Definition well_formed (cols : list (pystr * signature)) (q : QuestionDef) : Prop :=
  id q ≠ []
  ∧ columns q ≠ []
  ∧ StronglySorted Nat.lt (columns q)
  ∧ length (column_labels q) = length (columns q)
  ∧ is_grouped_type (question_type q) = true
  ∧ (question_type q = QT_SINGLE_CHOICE -> length (columns q) = 1%nat)
  ∧ forall k c, columns q !! k = Some c ->
      exists hdr sig,
        cols !! c = Some (hdr, sig) ∧ sig_type sig = question_type q
        ∧ ((0 < k)%nat ->
           truthy (header_qid hdr) = false ∧ column_labels q !! k = Some hdr).

(** The cells of the column at position [idx] of a sheet. *)
Definition column_at (df : dataframe) (idx : nat) : list cell :=
  from_option col_data [] (df !! idx).

(** A likert question over one column in which code 99 is the
    non-response code. *)
Definition rating_sheet : dataframe :=
  [ sample_column "A1. Ocena" ["1: Źle"; "99: Nie wiem"; "5: Dobrze"]%string ].

Definition rating_question : QuestionDef :=
  {| id := u "A1"; label := u "A1. Ocena"; columns := [0%nat];
     column_labels := [u "A1. Ocena"];
     question_type := QT_LIKERT; chart_type := CT_HBAR_MEANS;
     scale_min := Some 1; scale_max := Some 5; scale_labels := ∅;
     special_values := {[99]};
     is_demographic := false; parent_question := []; weight_column := None;
     notes := [] |}.

(** ** Schema export *)

(** Order of the items of a dict of labels under [sorted]: the keys are
    distinct, so the items are ordered by key. *)
Definition by_key (a b : Z * pystr) : Prop := (a.1 <= b.1)%Z.

#[global] Instance by_key_dec a b : Decision (by_key a b).
Proof. unfold by_key. apply _. Defined.

(** [sorted(q.scale_labels.items())] *)
Definition sorted_items (m : gmap Z pystr) : list (Z * pystr) :=
  merge_sort by_key (map_to_list m).

(** The dict [qd] that [export_config] builds for a question, its keys in
    the order in which they are set. *)
Definition export_question (q : QuestionDef) : yaml :=
  YMap ([ (YStr (u "id"), YStr (id q));
          (YStr (u "label"), YStr (label q));
          (YStr (u "columns"), YSeq (map (fun c => YInt (Z.of_nat c)) (columns q)));
          (YStr (u "column_labels"), YSeq (map YStr (column_labels q)));
          (YStr (u "question_type"), YStr (question_type q));
          (YStr (u "chart_type"), YStr (chart_type q));
          (YStr (u "is_demographic"), YBool (is_demographic q)) ]
        ++ match scale_min q with
           | Some a => [ (YStr (u "scale_min"), YInt a);
                         (YStr (u "scale_max"), from_option YInt YNull (scale_max q)) ]
           | None => []
           end
        ++ (if bool_decide (scale_labels q = ∅) then []
            else [ (YStr (u "scale_labels"),
                    YMap (map (fun kv : Z * pystr => (YInt kv.1, YStr kv.2))
                              (sorted_items (scale_labels q)))) ])
        ++ (if bool_decide (special_values q = ∅) then []
            else [ (YStr (u "special_values"),
                    YSeq (map YInt (sorted_set_Z (elements (special_values q))))) ])).

(** [export_config]: the document [config] that is handed to
    [yaml.dump]. *)
Definition export_config (questions : list QuestionDef) : yaml :=
  YMap [ (YStr (u "questions"), YSeq (map export_question questions)) ].

(** What [load_config] reads back for an exported question. *)
Definition reloaded (q : QuestionDef) : LoadedQuestionDef :=
  {| l_id := YStr (id q);
     l_label := YStr (label q);
     l_columns := YSeq (map (fun c => YInt (Z.of_nat c)) (columns q));
     l_column_labels := YSeq (map YStr (column_labels q));
     l_question_type := YStr (question_type q);
     l_chart_type := YStr (chart_type q);
     l_scale_min := from_option YInt YNull (scale_min q);
     l_scale_max :=
       match scale_min q with
       | Some _ => from_option YInt YNull (scale_max q)
       | None => YNull
       end;
     l_scale_labels :=
       YMap (map (fun kv : Z * pystr => (YInt kv.1, YStr kv.2))
                 (sorted_items (scale_labels q)));
     l_special_values := map YInt (sorted_set_Z (elements (special_values q)));
     l_is_demographic := YBool (is_demographic q) |}.

(** ** Question identifiers *)

(** The shape of a question identifier: a capital letter, digits and at
    most one small letter. *)
Definition is_qid (q : pystr) : Prop :=
  exists c ds lo,
    q = c :: ds ++ lo
    ∧ Str.is_upper_az c = true
    ∧ ds ≠ [] ∧ Forall (fun d => Str.is_digit d = true) ds
    ∧ (lo = [] ∨ exists l, lo = [l] ∧ Str.is_lower_az l = true).

(** White space only. *)
Definition blank (ws : pystr) : Prop := Forall (fun c => Str.is_space c = true) ws.

(** ** chart_generator.py: wrapping of labels *)

(** [text.split()]: the maximal runs of characters that are not white
    space. [cur] holds the run being read, last character first. *)
Fixpoint split_from (cur : pystr) (s : pystr) : list pystr :=
  match s with
  | [] =>
    match cur with
    | [] => []
    | _ :: _ => [rev cur]
    end
  | c :: r =>
    if Str.is_space c then
      match cur with
      | [] => split_from [] r
      | _ :: _ => rev cur :: split_from [] r
      end
    else split_from (c :: cur) r
  end.

Definition str_split (s : pystr) : list pystr := split_from [] s.

(** ['\n'.join(lines)] *)
Fixpoint join_nl (lines : list pystr) : pystr :=
  match lines with
  | [] => []
  | [l] => l
  | l :: r => l ++ 10%N :: join_nl r
  end.

(** One round of the loop over the words: the lines closed so far and
    the line being filled. *)
Definition wrap_step (max_chars : nat) (st : list pystr * pystr) (word : pystr)
  : list pystr * pystr :=
  if (max_chars <? length st.2 + length word + 1)%nat && negb (bool_decide (st.2 = []))
  then (st.1 ++ [st.2], word)
  else (st.1, Str.strip (st.2 ++ 32%N :: word)).

(** The lines that [_wrap_label] joins. *)
Definition wrapped_lines (text : pystr) (max_chars : nat) : list pystr :=
  let st := fold_left (wrap_step max_chars) (str_split text) ([], []) in
  match st.2 with
  | [] => st.1
  | _ :: _ => st.1 ++ [st.2]
  end.

(** [_wrap_label], for a limit that is not negative. *)
Definition _wrap_label (text : pystr) (max_chars : nat) : pystr :=
  if (length text <=? max_chars)%nat then text
  else join_nl (wrapped_lines text max_chars).

(** A text without white space: a word. *)
Definition solid (w : pystr) : Prop := Forall (fun c => Str.is_space c = false) w.

(** A text in which the only white space is the plain space. *)
Definition spaced (l : pystr) : Prop :=
  Forall (fun c => Str.is_space c = false ∨ c = 32%N) l.

(** A line of a wrapped label: plain spaces only, no white space at
    either end, and within the limit unless it is a single word of the
    text. *)
Definition line_ok (max_chars : nat) (all : list pystr) (l : pystr) : Prop :=
  spaced l
  ∧ (exists c d, head l = Some c ∧ last l = Some d
                 ∧ Str.is_space c = false ∧ Str.is_space d = false)
  ∧ ((length l <= max_chars)%nat ∨ l ∈ all).

(** The question keeps the merge of the scale information of its member
    columns, all of which have its type. *)
Definition scale_merged (cols : list (pystr * signature)) (q : QuestionDef) : Prop :=
  exists sigs,
    Forall2 (fun c sig => exists hdr, cols !! c = Some (hdr, sig)
                                      ∧ sig_type sig = question_type q)
            (columns q) sigs
    ∧ opt_int (merged_scale_min sigs) = Ok (scale_min q)
    ∧ opt_int (merged_scale_max sigs) = Ok (scale_max q)
    ∧ scale_labels q = merged_labels sigs
    ∧ special_values q = merged_special sigs.

(** The question that is detected on [rating_sheet]. *)
Definition rating_detected : QuestionDef :=
  {| id := u "A1"; label := u "A1. Ocena"; columns := [0%nat];
     column_labels := [u "A1. Ocena"];
     question_type := QT_LIKERT; chart_type := CT_HBAR_MEANS;
     scale_min := Some 1; scale_max := Some 5;
     scale_labels := <[1 := u "Źle"]> (<[99 := u "Nie wiem"]> (<[5 := u "Dobrze"]> ∅));
     special_values := {[99]};
     is_demographic := false; parent_question := []; weight_column := None;
     notes := [] |}.

(** * Theorems *)

(** ** The likert and numeric loops of the detector *)

Section DetectorLoops.

Lemma likert_scan_fst_gen vs acc :
  (fold_left likert_step vs acc).1 = acc.1 ++ (omap kv vs).*1.
Proof.
  revert acc. induction vs as [|v vs IH]; intros acc; simpl.
  - by rewrite app_nil_r.
  - rewrite IH. unfold likert_step, kv.
    destruct (LIKERT_PREFIX_RE_match v) as [[g1 g2]|]; simpl; [|done].
    by rewrite <- app_assoc.
Qed.

Lemma likert_scan_snd_gen vs (a : list (Z * pystr)) n0 :
  (fold_left likert_step vs (n0, list_to_map a)).2
  = list_to_map (rev (omap kv vs) ++ a).
Proof.
  revert a n0. induction vs as [|v vs IH]; intros a n0; simpl; [done|].
  unfold likert_step at 2, kv.
  destruct (LIKERT_PREFIX_RE_match v) as [[g1 g2]|]; simpl.
  - rewrite <- app_assoc. simpl.
    exact (IH ((Str.int_of_digits g1, Str.strip g2) :: a) _).
  - apply IH.
Qed.

Lemma likert_scan_eq vs :
  likert_scan vs = ((omap kv vs).*1, list_to_map (rev (omap kv vs))).
Proof.
  unfold likert_scan. rewrite (surjective_pairing (fold_left _ _ _)). f_equal.
  - by rewrite likert_scan_fst_gen.
  - change (∅ : gmap Z pystr) with (list_to_map [] : gmap Z pystr).
    by rewrite likert_scan_snd_gen, app_nil_r.
Qed.

Lemma numeric_scan_gen vs acc :
  fold_left numeric_step vs acc
  = (acc.1 ++ omap Float.of_str vs, acc.2 ++ filter (fun v => is_text v = true) vs).
Proof.
  revert acc. induction vs as [|v vs IH]; intros [a b]; simpl.
  - by rewrite !app_nil_r.
  - rewrite IH, filter_cons. unfold numeric_step. simpl.
    assert (Ht : is_text v = match Float.of_str v with
                             | Some _ => false
                             | None => negb (str_in (Str.strip (Str.lower v)) SPECIAL_VALUES)
                             end) by done.
    destruct (Float.of_str v) as [x|]; simpl.
    + rewrite <- app_assoc. simpl. by rewrite decide_False by (by rewrite Ht).
    + destruct (str_in _ _); simpl in *.
      * by rewrite decide_False by (by rewrite Ht).
      * rewrite decide_True by done. by rewrite <- app_assoc.
Qed.

Lemma numeric_scan_eq vs :
  numeric_scan vs = (omap Float.of_str vs, filter (fun v => is_text v = true) vs).
Proof. unfold numeric_scan. by rewrite numeric_scan_gen. Qed.

Lemma list_to_map_functional (l : list (Z * pystr)) k x :
  functional_kvs l ->
  (list_to_map l : gmap Z pystr) !! k = Some x <-> (k, x) ∈ l.
Proof.
  intros Hf. split; [apply elem_of_list_to_map_2|].
  intros Hin.
  destruct ((list_to_map l : gmap Z pystr) !! k) as [y|] eqn:E.
  - apply elem_of_list_to_map_2 in E. f_equal. eapply Hf; eauto.
  - apply not_elem_of_list_to_map in E. exfalso. apply E.
    apply list_elem_of_fmap. by exists (k, x).
Qed.

Lemma list_to_map_functional_perm (l l' : list (Z * pystr)) :
  functional_kvs l -> (forall p, p ∈ l <-> p ∈ l') ->
  (list_to_map l : gmap Z pystr) = list_to_map l'.
Proof.
  intros Hf Hp.
  assert (Hf' : functional_kvs l').
  { intros k x y Hx Hy. apply Hp in Hx, Hy. eauto. }
  apply map_eq. intros k. apply option_eq. intros x.
  rewrite !list_to_map_functional by done. apply Hp.
Qed.

End DetectorLoops.

(** ** Order of floats without NaN *)

Section FloatOrder.

Lemma Qclt_irrefl' (x : Qc) : ¬ (x < x)%Qc.
Proof. intros H. by apply (Qclt_not_eq x x). Qed.

Lemma ltb_antisym a b :
  a ≠ FNaN -> b ≠ FNaN -> Float.ltb a b = false -> Float.ltb b a = false -> a = b.
Proof.
  destruct a as [x|[]|], b as [y|[]|]; simpl; intros Ha Hb H1 H2; try done.
  apply bool_decide_eq_false in H1, H2. f_equal.
  apply Qcle_antisym; apply Qcnot_lt_le; done.
Qed.

Lemma ltb_le_trans a b c :
  a ≠ FNaN -> b ≠ FNaN -> c ≠ FNaN ->
  Float.ltb b a = false -> Float.ltb c b = false -> Float.ltb c a = false.
Proof.
  destruct a as [x|[]|], b as [y|[]|], c as [z|[]|]; simpl;
    intros Ha Hb Hc H1 H2; try done.
  apply bool_decide_eq_false in H1, H2. apply bool_decide_eq_false.
  intros Hlt. apply Qcnot_lt_le in H1, H2.
  apply (Qclt_not_le _ _ Hlt). by apply Qcle_trans with y.
Qed.

Lemma ltb_irrefl a : Float.ltb a a = false.
Proof.
  destruct a as [x|[]|]; simpl; try done.
  apply bool_decide_eq_false. apply Qclt_irrefl'.
Qed.

Lemma ltb_asym a b : Float.ltb a b = true -> Float.ltb b a = false.
Proof.
  destruct a as [x|[]|], b as [y|[]|]; simpl; try done.
  intros H. apply bool_decide_eq_true in H. apply bool_decide_eq_false.
  intros H'. apply (Qclt_irrefl' x). by apply Qclt_trans with y.
Qed.

Lemma f_min_least x r :
  Forall (fun y => y ≠ FNaN) (x :: r) -> is_least (f_min x r) (x :: r).
Proof.
  revert x. induction r as [|y r IH]; intros x Hn.
  - split; [simpl; left|]. intros z Hz. apply list_elem_of_singleton in Hz as ->.
    apply ltb_irrefl.
  - inversion Hn as [|? ? Hx Hn']; subst. inversion Hn' as [|? ? Hy Hr]; subst.
    unfold f_min. simpl. fold (f_min (if Float.ltb y x then y else x) r).
    set (b := if Float.ltb y x then y else x).
    assert (Hb : b ≠ FNaN) by (unfold b; by destruct (Float.ltb y x)).
    destruct (IH b) as [Hin Hle]; [by constructor|].
    assert (Hm : f_min b r ≠ FNaN).
    { assert (Hall : Forall (fun y => y ≠ FNaN) (b :: r)) by (by constructor).
      rewrite Forall_forall in Hall. exact (Hall _ Hin). }
    assert (Hbx : Float.ltb x b = false ∧ Float.ltb y b = false).
    { unfold b. destruct (Float.ltb y x) eqn:E.
      - split; [by apply ltb_asym | apply ltb_irrefl].
      - split; [apply ltb_irrefl | done]. }
    split.
    + apply elem_of_cons in Hin as [->|Hin].
      * unfold b. destruct (Float.ltb y x); set_solver.
      * set_solver.
    + intros z Hz.
      assert (Hbm : Float.ltb b (f_min b r) = false) by (apply Hle; left).
      apply elem_of_cons in Hz as [->|Hz].
      { eapply (ltb_le_trans _ b); eauto. tauto. }
      apply elem_of_cons in Hz as [->|Hz].
      { eapply (ltb_le_trans _ b); eauto. tauto. }
      apply Hle. by right.
Qed.

Lemma f_max_greatest x r :
  Forall (fun y => y ≠ FNaN) (x :: r) -> is_greatest (f_max x r) (x :: r).
Proof.
  revert x. induction r as [|y r IH]; intros x Hn.
  - split; [simpl; left|]. intros z Hz. apply list_elem_of_singleton in Hz as ->.
    apply ltb_irrefl.
  - inversion Hn as [|? ? Hx Hn']; subst. inversion Hn' as [|? ? Hy Hr]; subst.
    unfold f_max. simpl. fold (f_max (if Float.ltb x y then y else x) r).
    set (b := if Float.ltb x y then y else x).
    assert (Hb : b ≠ FNaN) by (unfold b; by destruct (Float.ltb x y)).
    destruct (IH b) as [Hin Hle]; [by constructor|].
    assert (Hm : f_max b r ≠ FNaN).
    { assert (Hall : Forall (fun y => y ≠ FNaN) (b :: r)) by (by constructor).
      rewrite Forall_forall in Hall. exact (Hall _ Hin). }
    assert (Hbx : Float.ltb b x = false ∧ Float.ltb b y = false).
    { unfold b. destruct (Float.ltb x y) eqn:E.
      - split; [by apply ltb_asym | apply ltb_irrefl].
      - split; [apply ltb_irrefl | done]. }
    split.
    + apply elem_of_cons in Hin as [->|Hin].
      * unfold b. destruct (Float.ltb x y); set_solver.
      * set_solver.
    + intros z Hz.
      assert (Hbm : Float.ltb (f_max b r) b = false) by (apply Hle; left).
      apply elem_of_cons in Hz as [->|Hz].
      { eapply (ltb_le_trans _ b); eauto. tauto. }
      apply elem_of_cons in Hz as [->|Hz].
      { eapply (ltb_le_trans _ b); eauto. tauto. }
      apply Hle. by right.
Qed.

Lemma least_unique m m' l l' :
  l ≡ₚ l' -> Forall (fun y => y ≠ FNaN) l ->
  is_least m l -> is_least m' l' -> m = m'.
Proof.
  intros Hp Hn [Hin Hle] [Hin' Hle'].
  rewrite Forall_forall in Hn.
  assert (m' ∈ l) by (by rewrite Hp).
  assert (m ∈ l') by (by rewrite <- Hp).
  apply ltb_antisym; auto.
Qed.

Lemma greatest_unique m m' l l' :
  l ≡ₚ l' -> Forall (fun y => y ≠ FNaN) l ->
  is_greatest m l -> is_greatest m' l' -> m = m'.
Proof.
  intros Hp Hn [Hin Hle] [Hin' Hle'].
  rewrite Forall_forall in Hn.
  assert (m' ∈ l) by (by rewrite Hp).
  assert (m ∈ l') by (by rewrite <- Hp).
  apply ltb_antisym; auto.
Qed.

End FloatOrder.
Section DetectorPermutation.

Lemma clean_values_perm s s' : s ≡ₚ s' -> clean_values s ≡ₚ clean_values s'.
Proof. intros H. unfold clean_values. by rewrite H. Qed.

Lemma elem_of_rev' {A} (x : A) (l : list A) : x ∈ rev l <-> x ∈ l.
Proof. rewrite !list_elem_of_In. symmetry. apply in_rev. Qed.

Lemma consistent_functional s :
  label_consistent s -> functional_kvs (rev (omap kv (clean_values s))).
Proof.
  intros Hc k x y Hx Hy.
  rewrite elem_of_rev' in Hx, Hy.
  apply list_elem_of_omap in Hx as (v1 & Hv1 & E1).
  apply list_elem_of_omap in Hy as (v2 & Hv2 & E2).
  exact (Hc v1 v2 k x y Hv1 Hv2 E1 E2).
Qed.

Lemma nan_free_Forall s :
  nan_free s -> Forall (fun y => y ≠ FNaN) (omap Float.of_str (clean_values s)).
Proof.
  intros Hn. apply Forall_forall. intros x Hx.
  apply list_elem_of_omap in Hx as (v & Hv & E). intros ->. by apply (Hn v).
Qed.

Lemma scan_labels_perm vs vs' :
  vs ≡ₚ vs' -> functional_kvs (rev (omap kv vs)) ->
  (list_to_map (rev (omap kv vs)) : gmap Z pystr) = list_to_map (rev (omap kv vs')).
Proof.
  intros Hp Hf. apply list_to_map_functional_perm; [done|].
  intros p. rewrite !elem_of_rev'. by rewrite Hp.
Qed.


End DetectorPermutation.

(** ** Columns in which every value carries a likert code *)

Section LikertColumns.

Lemma all_likert_count (vs : list pystr) :
  (forall v, v ∈ vs -> is_Some (kv v)) ->
  filter (fun v => is_Some (LIKERT_PREFIX_RE_match v)) vs = vs.
Proof.
  intros H. induction vs as [|v vs IH]; [done|].
  rewrite filter_cons. rewrite decide_True.
  - f_equal. apply IH. intros w Hw. apply H. by right.
  - specialize (H v ltac:(left)). unfold kv in H.
    destruct (LIKERT_PREFIX_RE_match v) as [[g1 g2]|]; [done|].
    by destruct H.
Qed.

Lemma detect_likert_same_values s s' :
  (forall v, v ∈ clean_values s <-> v ∈ clean_values s') ->
  clean_values s ≠ [] ->
  (forall v, v ∈ clean_values s -> is_Some (kv v)) ->
  label_consistent s ->
  _detect_column_type s = _detect_column_type s'.
Proof.
  intros Hm Hne Hall Hc.
  pose proof (consistent_functional s Hc) as Hfun.
  assert (Hall' : forall v, v ∈ clean_values s' -> is_Some (kv v)).
  { intros v Hv. apply Hall. by apply Hm. }
  unfold _detect_column_type.
  destruct (clean_values s) as [|v0 l0] eqn:E1; [done|].
  destruct (clean_values s') as [|v0' l0'] eqn:E2.
  { exfalso. specialize (Hm v0).
    destruct Hm as [Hm _]. specialize (Hm ltac:(left)). inversion Hm. }
  assert (Hl : (0 < length (v0 :: l0))%nat) by (simpl; lia).
  assert (Hl' : (0 < length (v0' :: l0'))%nat) by (simpl; lia).
  remember (v0 :: l0) as vs eqn:Hvs. remember (v0' :: l0') as vs' eqn:Hvs'.
  clear E1 E2 Hvs Hvs' v0 l0 v0' l0' Hne.
  assert (Hset : (list_to_set vs : gset pystr) = list_to_set vs').
  { apply set_eq. intros x. rewrite !elem_of_list_to_set. apply Hm. }
  rewrite !likert_scan_eq, Hset, !all_likert_count by done.
  destruct (bool_decide _); [done|].
  replace (2 * length vs <? 5 * length vs)%nat with true
    by (symmetry; apply Nat.ltb_lt; lia).
  replace (2 * length vs' <? 5 * length vs')%nat with true
    by (symmetry; apply Nat.ltb_lt; lia).
  assert (Hkv : forall p, p ∈ omap kv vs <-> p ∈ omap kv vs').
  { intros p. rewrite !list_elem_of_omap. split; intros (v & Hv & E); exists v;
      (split; [by apply Hm|done]). }
  assert (Hnums : sorted_set_Z (omap kv vs).*1 = sorted_set_Z (omap kv vs').*1).
  { unfold sorted_set_Z. f_equal. f_equal. apply set_eq. intros x.
    rewrite !elem_of_list_to_set, !list_elem_of_fmap.
    split; intros (p & -> & Hp); exists p; (split; [done|by apply Hkv]). }
  assert (Hlab : (list_to_map (rev (omap kv vs)) : gmap Z pystr)
                 = list_to_map (rev (omap kv vs'))).
  { apply list_to_map_functional_perm; [done|].
    intros p. rewrite !elem_of_rev'. apply Hkv. }
  by rewrite Hnums, Hlab.
Qed.

End LikertColumns.

(** ** The detector on the yes/no/don't-know column, and under reordering *)

Section DetectorClaims.

Lemma elem_of_clean_values (s : list cell) (v : pystr) :
  v ∈ clean_values s <-> v ≠ [] ∧ exists w, Some w ∈ s ∧ v = Str.strip w.
Proof.
  unfold clean_values. rewrite list_elem_of_filter, list_elem_of_In, in_map_iff.
  split.
  - intros [Hne (w & <- & Hw)]. split; [done|]. exists w. split; [|done].
    apply list_elem_of_In in Hw. apply list_elem_of_omap in Hw as (c & Hc & E).
    unfold Datatypes.id in E. by subst c.
  - intros [Hne (w & Hw & ->)]. split; [done|]. exists w. split; [done|].
    apply list_elem_of_In. apply list_elem_of_omap. by exists (Some w).
Qed.

(** A column whose values are drawn from a list [t] of clean answers, each
    of which occurs, has the clean values of [t] itself. *)
Lemma clean_values_drawn_from (t : list pystr) (s : list cell) :
  Forall (fun w => Str.strip w = w ∧ w ≠ []) t ->
  (forall v, Some v ∈ s -> v ∈ t) ->
  (forall v, v ∈ t -> Some v ∈ s) ->
  forall v, v ∈ clean_values s <-> v ∈ clean_values (map Some t).
Proof.
  intros Ht H1 H2 v. rewrite Forall_forall in Ht.
  rewrite !elem_of_clean_values. split.
  - intros [Hne (w & Hw & ->)]. split; [done|]. exists w. split; [|done].
    apply list_elem_of_In, in_map, list_elem_of_In. by apply H1.
  - intros [Hne (w & Hw & ->)]. split; [done|]. exists w. split; [|done].
    apply list_elem_of_In, in_map_iff in Hw as (w' & E & Hw').
    inversion E; subst. apply H2. by apply list_elem_of_In.
Qed.

Lemma drawn_from_likert (t : list pystr) (s : list cell) :
  Forall (fun w => Str.strip w = w ∧ w ≠ []) t ->
  (forall v, Some v ∈ s -> v ∈ t) ->
  (forall v, v ∈ t -> Some v ∈ s) ->
  t ≠ [] ->
  Forall (fun w => is_Some (kv w)) t ->
  (forall v1 v2 n l1 l2, v1 ∈ t -> v2 ∈ t ->
     kv v1 = Some (n, l1) -> kv v2 = Some (n, l2) -> l1 = l2) ->
  _detect_column_type s = _detect_column_type (map Some t).
Proof.
  intros Ht H1 H2 Hne Hkv Hfun.
  pose proof (clean_values_drawn_from t s Ht H1 H2) as Hm.
  assert (Hin : forall v, v ∈ clean_values s -> v ∈ t).
  { intros v Hv. apply elem_of_clean_values in Hv as [_ (w & Hw & ->)].
    rewrite Forall_forall in Ht. destruct (Ht w (H1 _ Hw)) as [-> _]. by apply H1. }
  apply detect_likert_same_values; [done| | |].
  - destruct t as [|w t']; [done|]. intros E.
    assert (Hw : w ∈ clean_values s).
    { apply elem_of_clean_values. rewrite Forall_forall in Ht.
      destruct (Ht w ltac:(left)) as [Hs Hn]. split; [done|].
      exists w. split; [apply H2; left|done]. }
    rewrite E in Hw. inversion Hw.
  - intros v Hv. rewrite Forall_forall in Hkv. by apply Hkv, Hin.
  - intros v1 v2 n l1 l2 Hv1 Hv2. apply Hfun; by apply Hin.
Qed.

Lemma tak_nie_consistent (t : list pystr) :
  t = tak_nie ∨ t = [u "6: Nie wiem"] ->
  forall v1 v2 n l1 l2, v1 ∈ t -> v2 ∈ t ->
    kv v1 = Some (n, l1) -> kv v2 = Some (n, l2) -> l1 = l2.
Proof.
  intros [->| ->] v1 v2 n l1 l2 Hv1 Hv2;
    repeat (apply elem_of_cons in Hv1 as [->|Hv1]);
    repeat (apply elem_of_cons in Hv2 as [->|Hv2]);
    try (by inversion Hv1); try (by inversion Hv2);
    vm_compute; intros E1 E2; congruence.
Qed.

(** C8. A column whose non-missing values are exactly the strings
    "1: Tak", "2: Nie" and "6: Nie wiem", in any arrangement and number of
    rows, is classified as likert with sentinel code set {6}, scale_min 1
    and scale_max 2, the bounds being taken over the codes that are not
    sentinel; a column holding only the sentinel answer "6: Nie wiem" falls
    back to the bounds over all its codes, 6 and 6. *)
Theorem tak_nie_column_is_likert :
  (forall series : list cell,
     (forall v, Some v ∈ series -> v ∈ tak_nie) ->
     (forall t, t ∈ tak_nie -> Some t ∈ series) ->
     _detect_column_type series = SigLikert 1 2 tak_nie_labels {[6]})
  ∧ (forall series : list cell,
       (forall v, Some v ∈ series -> v ∈ [u "6: Nie wiem"]) ->
       Some (u "6: Nie wiem") ∈ series ->
       _detect_column_type series = SigLikert 6 6 {[6 := u "Nie wiem"]} {[6]}).
Proof.
  split.
  - intros series H1 H2.
    rewrite (drawn_from_likert tak_nie series); [by_eval| |done|done|done| |].
    + each_of_list; by vm_compute.
    + each_of_list; vm_compute; eauto.
    + apply tak_nie_consistent. by left.
  - intros series H1 H2.
    rewrite (drawn_from_likert [u "6: Nie wiem"] series); [by_eval| |done| |done| |].
    + each_of_list; by vm_compute.
    + intros v Hv. apply list_elem_of_singleton in Hv. by subst v.
    + each_of_list; vm_compute; eauto.
    + apply tak_nie_consistent. by right.
Qed.

Lemma tak_nie_column_witness :
  _detect_column_type
    [Some (u "6: Nie wiem"); None; Some (u "1: Tak"); Some (u "2: Nie"); Some (u "1: Tak")]
  = SigLikert 1 2 tak_nie_labels {[6]}.
Proof.
  apply (proj1 tak_nie_column_is_likert).
  - intros v Hv.
    repeat (apply elem_of_cons in Hv as [E|Hv];
            [try discriminate E; injection E as ->; compute_done|]).
    inversion Hv.
  - intros t Ht.
    repeat (apply elem_of_cons in Ht as [->|Ht]; [compute_done|]).
    inversion Ht.
Defined.


(** The sentinel set follows the label that was kept. *)
Example sentinel_set_depends_on_order :
  _detect_column_type [Some (u "6: Nie wiem"); Some (u "6: Inne")]
  = SigLikert 6 6 {[6 := u "Inne"]} ∅
  ∧ _detect_column_type [Some (u "6: Inne"); Some (u "6: Nie wiem")]
    = SigLikert 6 6 {[6 := u "Nie wiem"]} {[6]}.
Proof. split; by_eval. Qed.

(** [min] and [max] keep a NaN that comes first and drop one that comes
    later. *)
Example nan_bound_depends_on_order :
  _detect_column_type [Some (u "nan"); Some (u "1"); Some (u "2")]
  = SigNumeric FNaN FNaN
  ∧ _detect_column_type [Some (u "1"); Some (u "nan"); Some (u "2")]
    = SigNumeric (FNum (qz 1)) (FNum (qz 2)).
Proof. split; by_eval. Qed.


End DetectorClaims.

(** ** The grouping automaton *)

Section Automaton.

Implicit Types (pre rest : list (pystr * signature)) (c : pystr * signature).

Lemma members_from_app pre a b :
  members_from pre (a ++ b) = members_from pre a ++ members_from (pre ++ a) b.
Proof.
  revert pre. induction a as [|c a IH]; intros pre; simpl.
  - by rewrite app_nil_r.
  - rewrite IH, <- !app_assoc. done.
Qed.

Lemma expected_members_from_gen pre rest :
  filter (fun i => is_member (pre ++ rest) i = true) (seq (length pre) (length rest))
  = members_from pre rest.
Proof.
  revert pre. induction rest as [|c r IH]; intros pre; [done|].
  simpl. rewrite filter_cons.
  assert (Hm : is_member (pre ++ c :: r) (length pre)
               = negb (is_skipped pre c) && is_grouped_type (sig_type c.2)).
  { unfold is_member. rewrite lookup_app_r by lia.
    rewrite Nat.sub_diag. simpl. by rewrite take_app_length. }
  specialize (IH (pre ++ [c])). rewrite <- app_assoc in IH. simpl in IH.
  rewrite length_app in IH. simpl in IH.
  replace (length pre + 1)%nat with (S (length pre)) in IH by lia.
  rewrite IH, Hm.
  by destruct (negb _ && _).
Qed.

Lemma expected_members_from cols : expected_members cols = members_from [] cols.
Proof. apply (expected_members_from_gen [] cols). Qed.

Lemma seen_after_snoc pre c :
  seen_after (pre ++ [c])
  = if registers c then {[norm_header c.1]} ∪ seen_after pre else seen_after pre.
Proof.
  unfold seen_after. rewrite filter_app, map_app, list_to_set_app_L.
  rewrite filter_cons, filter_nil.
  destruct (decide (registers c = true)) as [E|E].
  - rewrite E. simpl. set_solver.
  - apply not_true_is_false in E. rewrite E. simpl. set_solver.
Qed.

Lemma eqb_true (a b : pystr) : Str.eqb a b = true <-> a = b.
Proof. unfold Str.eqb. apply bool_decide_eq_true. Qed.

Lemma eqb_false (a b : pystr) : Str.eqb a b = false <-> a ≠ b.
Proof. unfold Str.eqb. apply bool_decide_eq_false. Qed.

Lemma group_type_not_empty ctype :
  is_group_type ctype = true -> Str.eqb ctype (u "empty") = false.
Proof.
  unfold is_group_type. rewrite !orb_true_iff, !eqb_true, eqb_false.
  intros [[->| ->]| ->]; by vm_compute.
Qed.

Lemma gather_spec ctype :
  is_group_type ctype = true ->
  forall rest j g pre,
    length pre = j -> g_seen_headers g = seen_after pre ->
    gather_post ctype j rest g pre (gather ctype j rest g).
Proof.
  intros Hct. pose proof (group_type_not_empty _ Hct) as Hne.
  induction rest as [|[jcol jsig] rest IH]; intros j g pre Hj Hseen.
  { exists []. simpl. rewrite !app_nil_r. repeat split; auto; try lia. }
  assert (Hstep : forall g1,
    g_seen_headers g1 = seen_after (pre ++ [(jcol, jsig)]) ->
    group_cols g1 = group_cols g
       ++ (if negb (is_skipped pre (jcol, jsig)) && is_grouped_type (sig_type jsig)
           then [length pre] else []) ->
    (forall P : signature -> Prop,
       Forall P (group_sigs g) -> P jsig -> Forall P (group_sigs g1)) ->
    (forall x, x ∈ g_processed g1 -> x ∈ g_processed g ∨ x = j) ->
    gather_post ctype j ((jcol, jsig) :: rest) g pre (gather ctype (S j) rest g1)).
  { intros g1 Hs1 Hc1 Hp1 Hpr1.
    destruct (IH (S j) g1 (pre ++ [(jcol, jsig)])) as (consumed & E1 & E2 & E3 & E4 & E5 & E6);
      [rewrite length_app; simpl; lia|done|].
    exists ((jcol, jsig) :: consumed). simpl.
    rewrite <- app_assoc in E3. simpl in E3.
    repeat split.
    - by f_equal.
    - lia.
    - done.
    - rewrite E4, Hc1, <- app_assoc. done.
    - intros P HP HQ. inversion HQ; subst. apply E5; [by apply Hp1|done].
    - intros x Hx. destruct (E6 x Hx) as [Hx'|Hx']; [|right; lia].
      destruct (Hpr1 x Hx') as [Hy|Hy]; [by left|right; lia]. }
  simpl gather.
  destruct (truthy (_split_qid_header jcol).1.1) eqn:Eq.
  { exists []. simpl. rewrite !app_nil_r. repeat split; auto; try lia. }
  assert (Hx : has_excluded_qid jcol = false) by (unfold has_excluded_qid; by rewrite Eq).
  destruct (_is_meta jcol || _should_exclude jcol) eqn:Em.
  { assert (Hr : registers (jcol, jsig) = false).
    { unfold registers. simpl. apply orb_true_iff in Em as [->| ->];
        by rewrite ?andb_false_r. }
    apply Hstep; simpl; auto.
    - by rewrite seen_after_snoc, Hr.
    - unfold is_skipped. rewrite Hr. simpl. by rewrite app_nil_r.
    - intros x Hx'. set_solver. }
  apply orb_false_iff in Em as [Em1 Em2].
  case_bool_decide as Es.
  { apply Hstep; simpl; auto.
    - rewrite seen_after_snoc. destruct (registers _); [|done]. simpl.
      rewrite Hseen in *. set_solver.
    - unfold is_skipped. rewrite Hseen in Es. simpl.
      rewrite (bool_decide_eq_true_2 _ Es), orb_true_r. simpl. by rewrite app_nil_r.
    - intros x Hx'. set_solver. }
  destruct (Str.eqb (sig_type jsig) (u "empty")) eqn:Ee.
  { rewrite andb_false_r.
    assert (Hr : registers (jcol, jsig) = false) by (unfold registers; simpl; by rewrite Ee).
    apply Hstep; simpl; auto.
    - by rewrite seen_after_snoc, Hr.
    - unfold is_skipped. rewrite Hr. simpl. by rewrite app_nil_r.
    - intros x Hx'. set_solver. }
  rewrite andb_true_r.
  destruct (Str.eqb (sig_type jsig) ctype) eqn:Et; simpl.
  2:{ exists []. simpl. rewrite !app_nil_r. repeat split; auto; try lia. }
  assert (Hr : registers (jcol, jsig) = true).
  { unfold registers. simpl. by rewrite Ee, Em1, Em2. }
  apply Hstep; simpl; auto.
  - by rewrite seen_after_snoc, Hr, Hseen.
  - unfold is_skipped. cbn [fst snd]. rewrite Hr, Hx. rewrite Hseen in Es.
    rewrite (bool_decide_eq_false_2 _ Es). simpl.
    apply eqb_true in Et. rewrite Et. unfold is_grouped_type. rewrite Hct. simpl.
    by rewrite Hj.
  - intros P HP Hjs. apply Forall_app. split; [done|by constructor].
Qed.

Lemma members_from_bound pre l x :
  x ∈ members_from pre l -> (length pre <= x < length pre + length l)%nat.
Proof.
  revert pre. induction l as [|c l IH]; intros pre; simpl; [by inversion 1|].
  rewrite elem_of_app. intros [Hx|Hx].
  - destruct (negb _ && _); [|by inversion Hx].
    apply list_elem_of_singleton in Hx. lia.
  - apply IH in Hx. rewrite length_app in Hx. simpl in Hx. lia.
Qed.

Lemma py_min2_finite a b : finite_num a -> finite_num b -> finite_num (py_min2 a b).
Proof. unfold py_min2. by destruct (num_ltb b a). Qed.

Lemma py_max2_finite a b : finite_num a -> finite_num b -> finite_num (py_max2 a b).
Proof. unfold py_max2. by destruct (num_ltb a b). Qed.

Lemma merged_bound_finite (pick : pynum -> pynum -> pynum)
    (bound : signature -> option pynum) sigs acc :
  (forall a b, finite_num a -> finite_num b -> finite_num (pick a b)) ->
  (forall ct x, finite_sig ct -> bound ct = Some x -> finite_num x) ->
  Forall finite_sig sigs ->
  (forall x, acc = Some x -> finite_num x) ->
  forall x,
    fold_left (fun acc ct => merge_bound pick acc (bound ct)) sigs acc = Some x ->
    finite_num x.
Proof.
  intros Hpick Hb Hs. revert acc. induction Hs as [|ct sigs Hct Hs IH]; intros acc Hacc x.
  - simpl. apply Hacc.
  - simpl. apply IH. intros y. unfold merge_bound.
    destruct (bound ct) as [z|] eqn:Ez; [|apply Hacc].
    destruct acc as [a|]; intros [= <-]; eauto.
Qed.

Lemma opt_int_finite (x : option pynum) :
  (forall y, x = Some y -> finite_num y) -> exists z, opt_int x = Ok z.
Proof.
  intros H. destruct x as [[z|[q| |]]|]; simpl; eauto;
    by destruct (H _ eq_refl).
Qed.

Lemma group_question_columns i col_str qid parent ctype demo g q :
  group_question i col_str qid parent ctype demo g = Ok q -> columns q = group_cols g.
Proof.
  unfold group_question.
  destruct (opt_int (merged_scale_min _)); [|done].
  destruct (opt_int (merged_scale_max _)); [|done].
  simpl. by intros [= <-].
Qed.

Lemma group_question_finite i col_str qid parent ctype demo g :
  Forall finite_sig (group_sigs g) ->
  exists q, group_question i col_str qid parent ctype demo g = Ok q.
Proof.
  intros Hs. unfold group_question.
  destruct (opt_int_finite (merged_scale_min (group_sigs g))) as [a ->].
  { apply (merged_bound_finite py_min2 sig_scale_min); auto using py_min2_finite; [|done].
    intros [] x Hf; simpl; intros [= <-]; try done.
    simpl in Hf. by destruct scale_min0. }
  destruct (opt_int_finite (merged_scale_max (group_sigs g))) as [b ->].
  { apply (merged_bound_finite py_max2 sig_scale_max); auto using py_max2_finite; [|done].
    intros [] x Hf; simpl; intros [= <-]; try done.
    simpl in Hf. destruct scale_min0, scale_max0; done. }
  simpl. eauto.
Qed.

Lemma scan_spec fuel :
  forall i rest st pre,
    (length rest < fuel)%nat -> length pre = i ->
    seen_headers st = seen_after pre ->
    (forall x, x ∈ processed st -> (x < i)%nat) ->
    scan_post pre rest st (scan fuel i rest st).
Proof.
  induction fuel as [|fuel IH]; intros i rest st pre Hfuel Hi Hseen Hproc; [lia|].
  destruct rest as [|[col_str ct] rest'].
  { exists (Ok (questions st)). simpl. repeat split; eauto.
    intros qs [= <-]. by rewrite app_nil_r. }
  simpl in Hfuel.
  assert (Hstep : forall st',
    seen_headers st' = seen_after (pre ++ [(col_str, ct)]) ->
    (forall x, x ∈ processed st' -> x ∈ processed st ∨ x = i) ->
    concat (map columns (questions st'))
    = concat (map columns (questions st))
      ++ (if negb (is_skipped pre (col_str, ct)) && is_grouped_type (sig_type ct)
          then [length pre] else []) ->
    scan_post pre ((col_str, ct) :: rest') st (scan fuel (S i) rest' st')).
  { intros st' Hs' Hp' Hq'.
    destruct (IH (S i) rest' st' (pre ++ [(col_str, ct)])) as (r & E1 & E2 & E3);
      [lia|rewrite length_app; simpl; lia|done| |].
    { intros x Hx. destruct (Hp' x Hx) as [Hy|Hy]; [apply Hproc in Hy|]; lia. }
    exists r. split; [done|]. split.
    - intros qs Hqs. rewrite (E2 qs Hqs), Hq', <- app_assoc. done.
    - intros Hf. apply E3. simpl in Hf. by inversion Hf. }
  simpl scan.
  rewrite bool_decide_eq_false_2 by (intros Hx; apply Hproc in Hx; lia).
  destruct (Str.eqb (sig_type ct) (u "empty") || _is_meta col_str
            || _should_exclude col_str
            || bool_decide (norm_header col_str ∈ seen_headers st)) eqn:Eskip.
  { assert (Hsk : is_skipped pre (col_str, ct) = true).
    { unfold is_skipped, registers. cbn [fst snd]. rewrite <- Hseen.
      apply orb_true_iff in Eskip as [Eskip| ->]; [|by rewrite orb_true_r].
      apply orb_true_iff in Eskip as [Eskip| ->]; [|by rewrite andb_false_r].
      apply orb_true_iff in Eskip as [->| ->]; [done|by rewrite andb_false_r]. }
    apply Hstep; simpl.
    - rewrite seen_after_snoc. destruct (registers _) eqn:Er; [|done].
      unfold registers in Er. cbn [fst snd] in Er.
      apply andb_true_iff in Er as [Er E3]. apply andb_true_iff in Er as [E1 E2].
      apply negb_true_iff in E1, E2, E3. rewrite E1, E2, E3 in Eskip. simpl in Eskip.
      apply bool_decide_eq_true in Eskip. rewrite <- Hseen. set_solver.
    - intros x Hx. set_solver.
    - rewrite Hsk. simpl. by rewrite app_nil_r. }
  repeat (apply orb_false_iff in Eskip as [Eskip ?]).
  assert (Hreg : registers (col_str, ct) = true).
  { unfold registers. cbn [fst snd]. by rewrite Eskip, H0, H1. }
  assert (Hns : bool_decide (norm_header col_str ∈ seen_after pre) = false)
    by (by rewrite <- Hseen).
  assert (Hseen' : {[norm_header col_str]} ∪ seen_headers st
                   = seen_after (pre ++ [(col_str, ct)])).
  { by rewrite seen_after_snoc, Hreg, Hseen. }
  assert (Hxq : has_excluded_qid col_str
          = truthy (_split_qid_header col_str).1.1
            && str_in (default [] (_split_qid_header col_str).1.1) EXCLUDE_QIDS) by done.
  destruct (_split_qid_header col_str) as [[qid parent_text] first_sub] eqn:Esplit.
  cbn [fst snd] in Hxq.
  assert (Hskip : is_skipped pre (col_str, ct) = has_excluded_qid col_str).
  { unfold is_skipped. cbn [fst snd]. by rewrite Hreg, Hns. }
  destruct (truthy qid && str_in (default [] qid) EXCLUDE_QIDS) eqn:Ex.
  { apply Hstep; simpl; auto.
    - intros x Hx. set_solver.
    - rewrite Hskip, Hxq. simpl. by rewrite app_nil_r. }
  rewrite Hxq in Hskip.
  destruct (is_group_type (sig_type ct)) eqn:Eg.
  2:{ destruct (Str.eqb (sig_type ct) QT_SINGLE_CHOICE) eqn:Es.
      - apply Hstep; simpl; auto.
        + intros x Hx. set_solver.
        + rewrite Hskip. unfold is_grouped_type. rewrite Eg, Es. simpl.
          rewrite map_app, concat_app. simpl. by rewrite Hi.
      - apply Hstep; simpl; auto.
        + intros x Hx. set_solver.
        + rewrite Hskip. unfold is_grouped_type. rewrite Eg, Es. simpl.
          by rewrite app_nil_r. }
  match goal with
  | |- context [gather ?a ?b ?c ?g0] =>
    pose proof (gather_spec _ Eg c b g0 (pre ++ [(col_str, ct)])) as Hg;
    destruct (gather a b c g0) as [[g j] rest''] eqn:Egather
  end.
  destruct Hg as (consumed & G1 & G2 & G3 & G4 & G5 & G6);
    [rewrite length_app; simpl; lia|done|].
  cbn [fst snd] in G1, G2, G3, G4, G5, G6. simpl in G4, G6.
  destruct (group_question i col_str qid parent_text (sig_type ct) _ g) as [q|e] eqn:Eq.
  2:{ exists (Raise e). repeat split; [done|].
      intros Hf. simpl in Hf. apply Forall_cons in Hf as [Hc Hr].
      edestruct (group_question_finite i col_str qid parent_text (sig_type ct)) as [q Hq];
        [|rewrite Hq in Eq; done].
      apply G5; [by constructor|]. rewrite G1, fmap_app in Hr.
      by apply Forall_app in Hr as [Hr _]. }
  pose proof (group_question_columns _ _ _ _ _ _ _ _ Eq) as Hcols.
  destruct (IH j rest''
              {| questions := questions st ++ [q];
                 processed := list_to_set (group_cols g) ∪ g_processed g;
                 seen_headers := g_seen_headers g |}
              ((pre ++ [(col_str, ct)]) ++ consumed)) as (r & E1 & E2 & E3).
  - subst rest'. rewrite length_app in Hfuel. lia.
  - rewrite !length_app. simpl. lia.
  - done.
  - simpl. intros x Hx. apply elem_of_union in Hx as [Hx|Hx].
    + apply elem_of_list_to_set in Hx. rewrite G4 in Hx.
      apply elem_of_cons in Hx as [->|Hx]; [lia|].
      apply members_from_bound in Hx. rewrite length_app in Hx. simpl in Hx. lia.
    + destruct (G6 x Hx) as [Hy|Hy]; [apply Hproc in Hy|]; lia.
  - exists r. split; [done|]. split.
    + intros qs Hqs. rewrite (E2 qs Hqs). simpl.
      rewrite map_app, concat_app. simpl. rewrite app_nil_r, Hcols, G4.
      rewrite Hskip. unfold is_grouped_type. rewrite Eg. simpl.
      rewrite G1, members_from_app, <- !app_assoc. simpl. by rewrite Hi.
    + intros Hf. apply E3. simpl in Hf. apply Forall_cons in Hf as [Hc Hr].
      rewrite G1, fmap_app in Hr. by apply Forall_app in Hr as [_ Hr].
Qed.

Lemma expected_members_NoDup cols : NoDup (expected_members cols).
Proof. unfold expected_members. apply NoDup_filter, NoDup_ListNoDup, seq_NoDup. Qed.


(** The conversion of a merged bound with [int] fails on an infinite
    bound. *)
Example auto_detect_questions_infinite_bound :
  auto_detect_questions [sample_column "B1. Ocena" ["inf"; "1"]%string]
  = Some (Raise OverflowError).
Proof. by_eval. Qed.



End Automaton.

(** ** Schema loading *)

Section Schema.

Variable py_str : yaml -> pystr.

(** C6. The code does not do what the claim and its own error message
    ("missing or empty 'questions' section") say: a questions section that
    is present but empty is loaded as an empty sequence of groups. A missing
    section and an empty document fail with the schema error, and a
    section that is null fails with another error. *)
Theorem load_config_empty_questions :
  load_config py_str (YMap [(YStr (u "questions"), YSeq [])]) = Ok ([], None)
  ∧ load_config py_str (YMap [(YStr (u "groups"), YSeq [])]) = Raise ValueError
  ∧ load_config py_str (YMap []) = Raise ValueError
  ∧ load_config py_str YNull = Raise ValueError
  ∧ load_config py_str (YMap [(YStr (u "questions"), YNull)]) = Raise TypeError.
Proof. repeat split; reflexivity. Qed.

End Schema.

(** ** Weighted statistics at a zero weight total *)

Section ZeroWeights.

Local Open Scope Qc_scope.

(** C3. The code does not return the undefined-result marker here: when
    the weights at the non-missing positions sum to zero, [np.average]
    raises [ZeroDivisionError], and so do [weighted_mean] and, with two
    values or more, [weighted_std]. *)
Theorem zero_weight_total_raises (values ws : list (option Qc)) (w : list Qc) :
  Stats.dropna values ≠ [] ->
  Stats.loc_fillna ws (Stats.dropna values).*1 = Ok w ->
  Stats.sum w = 0 ->
  Stats.weighted_mean values (Some ws) = Raise ZeroDivisionError
  ∧ ((1 < length (Stats.dropna values))%nat ->
     Stats.weighted_std values (Some ws) = Raise ZeroDivisionError).
Proof.
  intros Hne Hw Hz. split.
  - unfold Stats.weighted_mean. destruct (Stats.dropna values) as [|p l] eqn:E; [done|].
    rewrite Hw. simpl. unfold Stats.np_average. by rewrite Hz.
  - intros Hn. unfold Stats.weighted_std.
    replace (length (Stats.dropna values) <=? 1)%nat with false
      by (symmetry; apply Nat.leb_gt; lia).
    rewrite Hw. simpl. unfold Stats.np_average. by rewrite Hz.
Qed.

Lemma zero_weight_total_raises_witness :
  Stats.weighted_mean (nums [4; 2]%Z) (Some (nums [0; 0]%Z)) = Raise ZeroDivisionError
  ∧ Stats.weighted_std (nums [4; 2]%Z) (Some (nums [0; 0]%Z)) = Raise ZeroDivisionError.
Proof.
  destruct (zero_weight_total_raises (nums [4; 2]%Z) (nums [0; 0]%Z) [qz 0; qz 0]%Z)
    as [H1 H2]; [done|reflexivity|by_eval|].
  split; [exact H1|apply H2; simpl; lia].
Defined.

End ZeroWeights.

(** ** Order of the rows of a frequency table *)

Section FrequencyOrder.

(** C4. The code does not keep the first-seen order when weights are
    given: the column b, a, b with unit weights is tabulated with a before
    b, because [groupby] sorts its keys, while the same column without
    weights is tabulated in the order b, a of first occurrence. *)
Theorem frequency_table_weighted_order :
  Stats.frequency_table [Some (u "b"); Some (u "a"); Some (u "b")]
    (Some (nums [1; 1; 1]%Z)) false
  = Ok [freq "a" 1 (333 # 10); freq "b" 2 (667 # 10)]
  ∧ Stats.frequency_table [Some (u "b"); Some (u "a"); Some (u "b")] None false
    = Ok [freq "b" 2 (667 # 10); freq "a" 1 (333 # 10)].
Proof. split; by_eval. Qed.

End FrequencyOrder.

(** ** Choice of the significance test *)

Section GroupTestClaims.

Variable F : Type.
Variable nan : F.
Variable py_round : F -> nat -> F.
Variable to_numeric : cell -> option Qc.
Variable mannwhitneyu : list Qc -> list Qc -> exc (F * F).
Variable ttest_ind : list Qc -> list Qc -> exc (F * F).
Variable kruskal : list (list Qc) -> exc (F * F).

Local Notation run :=
  (Stats.test_group_differences F nan py_round to_numeric mannwhitneyu ttest_ind kruskal).
Local Notation undefined := (Stats.undefined_result F nan).
Local Notation rounded := (Stats.rounded_result F py_round).


End GroupTestClaims.


(** ** Mention flags *)

Section MentionFlags.

Local Open Scope Qc_scope.

Lemma dict_set_elem {V} (k : pystr) (v : V) (d : list (pystr * V)) (p : pystr * V) :
  p ∈ dict_set k v d -> p.2 = v ∨ p ∈ d.
Proof.
  induction d as [|[k' v'] d IH]; simpl.
  - intros Hp. apply list_elem_of_singleton in Hp as ->. by left.
  - destruct (Str.eqb k' k).
    + intros Hp. apply elem_of_cons in Hp as [->|Hp]; [by left|right; by right].
    + intros Hp. apply elem_of_cons in Hp as [->|Hp]; [right; by left|].
      destruct (IH Hp) as [?|?]; [by left|right; by right].
Qed.

Lemma df_column_elem (df : dataframe) name series :
  df_column df name = Some series -> series ∈ map col_data df.
Proof.
  unfold df_column. destruct (List.find _ df) as [c|] eqn:E; [|done].
  intros [= <-]. apply find_some in E as [E _].
  apply list_elem_of_In, in_map. done.
Qed.

Lemma numeric_columns_elem (df : dataframe) (q : QuestionDef) cols result data
    (P : list parsed -> Prop) :
  (forall series, series ∈ map col_data df -> P (parse_column q series)) ->
  (forall p, p ∈ result -> P p.2) ->
  numeric_columns df q cols result = Ok data ->
  forall p, p ∈ data -> P p.2.
Proof.
  intros HP. revert result. induction cols as [|[ci lbl] cols IH]; intros result Hr; simpl.
  - by intros [= <-].
  - destruct (df !! ci) as [c|]; [|done].
    destruct (df_column df (col_name c)) as [series|] eqn:E; [|done].
    apply IH. intros p Hp. apply dict_set_elem in Hp as [->|Hp]; [|by apply Hr].
    apply HP. by eapply df_column_elem.
Qed.

Lemma parse_column_multi (q : QuestionDef) (series : list cell) :
  question_type q = QT_MULTI_CHOICE ->
  parse_column q series = map (fun x => VInt (mentioned_flag x)) series.
Proof. intros H. unfold parse_column. by rewrite H. Qed.

(** C10. For a multiple_choice group a cell is read as 1 exactly when its
    stripped string form is "MENTIONED" and as 0 otherwise; a missing cell
    is read as 0, not as missing. Every column of the extracted data is a
    column of the sheet read cell by cell in this way, so it has one entry
    per respondent; and without weights every row of
    [multiple_choice_table] divides the number of mentions by the number of
    rows of the group data. *)
Theorem mention_flags_count_missing_as_not_mentioned :
  (forall x : cell,
     mentioned_flag x = if decide (Str.strip (cell_str x) = u "MENTIONED") then 1%Z else 0%Z)
  ∧ mentioned_flag None = 0%Z
  ∧ (forall (df : dataframe) (q : QuestionDef) data,
       question_type q = QT_MULTI_CHOICE ->
       get_numeric_data df q None = Ok data ->
       forall p, p ∈ data ->
         exists series, series ∈ map col_data df
           ∧ p.2 = map (fun x => VInt (mentioned_flag x)) series)
  ∧ (forall (data : parsed_frame) rows,
       Stats.multiple_choice_table data None = Ok rows ->
       forall r, r ∈ rows ->
         exists p, p ∈ data
           ∧ Stats.Opcja r = p.1
           ∧ Stats.choice_N r = count_mentioned p.2
           ∧ Stats.choice_pct r
             = Stats.round1
                 (if (0 <? Stats.frame_len data)%nat
                  then Stats.of_nat (count_mentioned p.2)
                       / Stats.of_nat (Stats.frame_len data) * Stats.hundred
                  else 0)).
Proof.
  split; [|split; [|split]].
  - intros x. unfold mentioned_flag, Str.eqb. by case_bool_decide; case_decide.
  - by vm_compute.
  - intros df q data Hq. unfold get_numeric_data.
    destruct (numeric_columns df q _ []) as [result|e] eqn:E; [|done].
    simpl. intros [= <-] p Hp.
    apply (numeric_columns_elem df q _ [] result
             (fun col => exists series, series ∈ map col_data df
                ∧ col = map (fun x => VInt (mentioned_flag x)) series)) with (p := p) in E;
      [done| |by inversion 1|done].
    intros series Hs. exists series. split; [done|]. by apply parse_column_multi.
  - intros data rows. unfold Stats.multiple_choice_table.
    destruct (Stats.choice_rows data None) as [|r0 rs] eqn:E; [done|].
    intros [= <-] r Hr. rewrite merge_sort_Permutation in Hr.
    rewrite <- E in Hr. unfold Stats.choice_rows in Hr.
    apply list_elem_of_In, in_map_iff in Hr as (p & <- & Hp).
    apply list_elem_of_In, list_elem_of_filter in Hp as [_ Hp].
    exists p. by repeat split.
Qed.

Lemma mention_flags_witness :
  exists data,
    get_numeric_data mention_sheet mention_question None = Ok data
    ∧ data = [ (u "Telefon", [VInt 1; VInt 0; VInt 0; VInt 1]);
               (u "Internet", [VInt 0; VInt 0; VInt 1; VInt 0]) ]
    ∧ Forall (fun p => exists series, series ∈ map col_data mention_sheet
                ∧ p.2 = map (fun x => VInt (mentioned_flag x)) series) data
    ∧ Stats.multiple_choice_table data None
      = Ok [ {| Stats.Opcja := u "Telefon"; Stats.choice_N := 2;
                Stats.choice_pct := Q2Qc 50 |};
             {| Stats.Opcja := u "Internet"; Stats.choice_N := 1;
                Stats.choice_pct := Q2Qc 25 |} ].
Proof.
  eexists. split; [reflexivity|]. split; [reflexivity|]. split; [|by_eval].
  apply Forall_forall. intros p Hp.
  destruct mention_flags_count_missing_as_not_mentioned as (_ & _ & H & _).
  eapply (H mention_sheet mention_question); [reflexivity|reflexivity|exact Hp].
Defined.

End MentionFlags.

(** ** Rounding and sums *)

Section Rounding.

Local Open Scope Q_scope.

Lemma round_half_even_error (x : Q) :
  x - (1 # 2) <= inject_Z (Stats.round_half_even x) <= x + (1 # 2).
Proof.
  unfold Stats.round_half_even.
  pose proof (Qfloor_le x) as H1. pose proof (Qlt_floor x) as H2.
  rewrite inject_Z_plus in H2. change (inject_Z 1) with 1 in H2.
  destruct (Qcompare_spec (x - inject_Z (Qfloor x)) (1 # 2)) as [E|E|E].
  - destruct (Z.even (Qfloor x)); [|rewrite inject_Z_plus; change (inject_Z 1) with 1];
      split; lra.
  - split; lra.
  - rewrite inject_Z_plus. change (inject_Z 1) with 1. split; lra.
Qed.

Lemma round1_error (y : Qc) :
  (y - half_tenth <= Stats.round1 y)%Qc ∧ (Stats.round1 y <= y + half_tenth)%Qc.
Proof.
  pose proof (round_half_even_error (this y * 10)) as [H1 H2].
  unfold Stats.round1, half_tenth, Qcle, Qcminus, Qcplus, Qcopp, Q2Qc. simpl this.
  rewrite !Qred_correct. split.
  - apply Qle_shift_div_l; [reflexivity|]. lra.
  - apply Qle_shift_div_r; [reflexivity|]. lra.
Qed.

End Rounding.

Section Sums.

Local Open Scope Qc_scope.

Lemma of_nat_S n : Stats.of_nat (S n) = Stats.of_nat n + 1.
Proof.
  apply Qc_is_canon. unfold Stats.of_nat. to_Q.
  rewrite Nat2Z.inj_succ. unfold Z.succ. rewrite inject_Z_plus. reflexivity.
Qed.

Lemma sum_app (a b : list Qc) : Stats.sum (a ++ b) = Stats.sum a + Stats.sum b.
Proof.
  unfold Stats.sum. induction a as [|x a IH]; simpl.
  - by rewrite Qcplus_0_l.
  - rewrite IH. ring.
Qed.

Lemma sum_map_within {A} (l : list A) (f g : A -> Qc) (t : Qc) :
  (forall d, d ∈ l -> g d - t <= f d ∧ f d <= g d + t) ->
  Stats.sum (map g l) - Stats.of_nat (length l) * t <= Stats.sum (map f l)
  ∧ Stats.sum (map f l) <= Stats.sum (map g l) + Stats.of_nat (length l) * t.
Proof.
  induction l as [|d l IH]; intros H.
  - simpl. unfold Stats.sum, Stats.of_nat. simpl. clear H.
    split; to_Q; change (inject_Z (Z.of_nat 0)) with 0%Q; lra.
  - destruct IH as [I1 I2]; [intros e He; apply H; by right|].
    destruct (H d ltac:(left)) as [D1 D2].
    simpl length. rewrite of_nat_S. simpl map. unfold Stats.sum in *. simpl foldr.
    revert I1 I2 D1 D2.
    generalize (foldr Qcplus 0 (map g l)) (foldr Qcplus 0 (map f l))
               (Stats.of_nat (length l)) (f d) (g d).
    intros sg sf n fd gd I1 I2 D1 D2. split; to_Q; nra.
Qed.

End Sums.

(** ** Column sums of the cross-tabulation *)

Section CrossTab.

Local Open Scope Qc_scope.

Variable weighted : bool.
Variable rows : list (pystr * pystr * option Qc).
Variable index : list pystr.
Variable g : pystr.

Local Notation s := (Stats.col_sum weighted rows index g).

Local Notation exact_pct := (exact_share weighted rows index g).

Lemma exact_pct_sum_gen (l : list pystr) :
  Stats.sum
    (map (fun d => match Stats.ct_cell weighted rows d g with
                   | Some x => x / s * Stats.hundred
                   | None => 0
                   end) l)
  = Stats.sum (omap (fun d => Stats.ct_cell weighted rows d g) l) / s * Stats.hundred.
Proof.
  unfold Stats.sum. induction l as [|d l IH]; cbn [map omap list_omap foldr].
  - unfold Qcdiv. ring.
  - rewrite IH. destruct (Stats.ct_cell weighted rows d g); cbn [foldr]; unfold Qcdiv; ring.
Qed.

Lemma exact_pct_sum :
  s ≠ 0 -> Stats.sum (map exact_pct index) = Stats.hundred.
Proof.
  intros Hs. unfold exact_share. rewrite exact_pct_sum_gen.
  change (Stats.sum (omap (fun d => Stats.ct_cell weighted rows d g) index)) with s.
  unfold Qcdiv. rewrite Qcmult_inv_r by done. ring.
Qed.

Lemma ct_pct_within (d : pystr) :
  s ≠ 0 ->
  exact_pct d - half_tenth <= Stats.ct_pct weighted rows index d g
  ∧ Stats.ct_pct weighted rows index d g <= exact_pct d + half_tenth.
Proof.
  intros Hs. unfold Stats.ct_pct, exact_share.
  rewrite bool_decide_eq_false_2 by done.
  destruct (Stats.ct_cell weighted rows d g) as [x|]; [apply round1_error|].
  split; by vm_compute.
Qed.

Lemma ct_pct_zero (d : pystr) : s = 0 -> Stats.ct_pct weighted rows index d g = 0.
Proof. intros Hs. unfold Stats.ct_pct. by rewrite bool_decide_eq_true_2. Qed.

Lemma column_sum_cases :
  (s = 0 -> Stats.sum (map (fun d => Stats.ct_pct weighted rows index d g) index) = 0)
  ∧ (s ≠ 0 ->
     Stats.hundred - Stats.of_nat (length index) * half_tenth
       <= Stats.sum (map (fun d => Stats.ct_pct weighted rows index d g) index)
     ∧ Stats.sum (map (fun d => Stats.ct_pct weighted rows index d g) index)
       <= Stats.hundred + Stats.of_nat (length index) * half_tenth).
Proof.
  split.
  - intros Hs.
    assert (Hz : forall l : list pystr,
               Stats.sum (map (fun d => Stats.ct_pct weighted rows index d g) l) = 0).
    { unfold Stats.sum. induction l as [|d l IH]; cbn [map foldr]; [done|].
      rewrite IH, ct_pct_zero by done. ring. }
    apply Hz.
  - intros Hs. rewrite <- (exact_pct_sum Hs).
    apply sum_map_within. intros d _. by apply ct_pct_within.
Qed.

End CrossTab.

Section CrossTabClaims.

Local Open Scope Qc_scope.

Lemma column_total_eq (data_col group_col : list cell) (weights : option (list (option Qc)))
    (k : nat) (g : pystr) :
  let ct := Stats.cross_tab_frequencies data_col group_col weights in
  Stats.ct_columns ct !! k = Some g ->
  Stats.column_total ct k
  = Stats.sum (map (fun d => Stats.ct_pct (bool_decide (is_Some weights))
                               (Stats.paired data_col group_col weights)
                               (Stats.ct_index ct) d g)
                   (Stats.ct_index ct)).
Proof.
  intros ct Hk. unfold Stats.column_total. f_equal.
  unfold ct, Stats.cross_tab_frequencies in *. simpl in *.
  rewrite map_map. apply map_ext. intros d.
  match goal with
  | |- context [map ?f ?l !! k] => change (map f l) with (f <$> l)
  end.
  by rewrite list_lookup_fmap, Hk.
Qed.




End CrossTabClaims.

(** ** Uniform weights *)

Section UniformWeights.

Local Open Scope Qc_scope.

Lemma dropna_bound {A} (values : list (option A)) (p : nat * A) :
  p ∈ Stats.dropna values -> values !! p.1 = Some (Some p.2).
Proof.
  unfold Stats.dropna. intros Hp.
  apply list_elem_of_omap in Hp as ([i o] & Hio & E).
  apply elem_of_lookup_imap in Hio as (i' & o' & [= -> ->] & Hl).
  simpl in E. destruct o' as [x|]; simpl in E; [|done].
  injection E as <-. done.
Qed.

Lemma loc_fillna_uniform (m : nat) (c : Qc) (idx : list nat) :
  Forall (fun i => (i < m)%nat) idx ->
  Stats.loc_fillna (replicate m (Some c)) idx = Ok (replicate (length idx) c).
Proof.
  induction 1 as [|i idx Hi _ IH]; simpl; [done|].
  rewrite lookup_replicate_2 by done. by rewrite IH.
Qed.

Lemma loc_fillna_dropna (values : list (option Qc)) (c : Qc) :
  Stats.loc_fillna (replicate (length values) (Some c)) (Stats.dropna values).*1
  = Ok (replicate (length (Stats.dropna values)) c).
Proof.
  rewrite loc_fillna_uniform; [by rewrite length_fmap|].
  apply Forall_forall. intros i Hi.
  apply list_elem_of_fmap in Hi as (p & -> & Hp).
  apply dropna_bound in Hp. by apply lookup_lt_Some in Hp.
Qed.

Lemma sum_replicate (n : nat) (c : Qc) : Stats.sum (replicate n c) = Stats.of_nat n * c.
Proof.
  unfold Stats.sum. induction n as [|n IH]; cbn [replicate foldr].
  - apply Qc_is_canon. by vm_compute.
  - rewrite IH, of_nat_S. ring.
Qed.

Lemma sum_scaled (a : list Qc) (c : Qc) :
  Stats.sum (zip_with Qcmult a (replicate (length a) c)) = Stats.sum a * c.
Proof.
  unfold Stats.sum. induction a as [|x a IH]; cbn [length replicate zip_with foldr].
  - ring.
  - rewrite IH. ring.
Qed.

Lemma of_nat_pos (n : nat) : (0 < n)%nat -> 0 < Stats.of_nat n.
Proof.
  intros H. unfold Stats.of_nat. to_Q.
  change 0%Q with (inject_Z 0). rewrite <- Zlt_Qlt. lia.
Qed.

Lemma of_nat_neq_0 (n : nat) : (0 < n)%nat -> Stats.of_nat n ≠ 0.
Proof. intros H E. apply of_nat_pos in H. rewrite E in H. by apply Qclt_irrefl' in H. Qed.

Lemma pos_neq_0 (c : Qc) : 0 < c -> c ≠ 0.
Proof. intros H ->. by apply Qclt_irrefl' in H. Qed.

Lemma np_average_uniform (a : list Qc) (c : Qc) :
  0 < c -> a ≠ [] ->
  Stats.np_average a (replicate (length a) c) = Ok (Stats.mean a).
Proof.
  intros Hc Ha. unfold Stats.np_average, Stats.mean.
  rewrite sum_replicate, sum_scaled.
  assert (Hn : Stats.of_nat (length a) ≠ 0).
  { apply of_nat_neq_0. destruct a; [done|simpl; lia]. }
  pose proof (pos_neq_0 c Hc) as Hc0.
  rewrite bool_decide_eq_false_2.
  - f_equal. field. by split.
  - intros E. apply Qcmult_integral in E as [E|E]; done.
Qed.

Lemma Qsq_nonneg (y : Q) : (0 <= y * y)%Q.
Proof. unfold Qle. simpl. rewrite Z.mul_1_r. apply Z.square_nonneg. Qed.

Lemma sum_sq_nonneg (a : list Qc) (m : Qc) :
  0 <= Stats.sum (map (fun x => Stats.sq (x - m)) a).
Proof.
  unfold Stats.sum. induction a as [|x a IH]; cbn [map foldr].
  - apply Qcle_refl.
  - revert IH. generalize (foldr Qcplus 0 (map (fun x => Stats.sq (x - m)) a)).
    intros r IH. unfold Stats.sq. to_Q.
    pose proof (Qsq_nonneg (x + - m)) as Hs. lra.
Qed.

Lemma div_nonneg (a b : Qc) : 0 <= a -> 0 < b -> 0 <= a / b.
Proof.
  intros Ha Hb. to_Q. apply Qle_shift_div_l; [done|]. lra.
Qed.

Lemma weighted_std_uniform (values : list (option Qc)) (c : Qc) :
  0 < c -> (2 <= length (Stats.dropna values))%nat ->
  let n := length (Stats.dropna values) in
  let ss := Stats.sum (map (fun x => Stats.sq (x - Stats.mean (Stats.dropna values).*2))
                           (Stats.dropna values).*2) in
  Stats.weighted_std values (Some (replicate (length values) (Some c)))
  = Ok (Stats.StdSqrt (ss / Stats.of_nat n))
  ∧ Stats.weighted_std values None = Ok (Stats.StdSqrt (ss / Stats.of_nat (n - 1))).
Proof.
  intros Hc Hn n ss. unfold Stats.weighted_std.
  replace (length (Stats.dropna values) <=? 1)%nat with false
    by (symmetry; apply Nat.leb_gt; lia).
  split.
  - rewrite loc_fillna_dropna. cbn [ebind].
    assert (Hl : length (Stats.dropna values).*2 = length (Stats.dropna values))
      by (by rewrite length_fmap).
    assert (Hne : (Stats.dropna values).*2 ≠ []).
    { intros E. rewrite E in Hl. simpl in Hl. lia. }
    rewrite <- Hl at 1. rewrite np_average_uniform by done. cbn [ebind].
    rewrite <- Hl at 1.
    rewrite <- (length_map (fun x => Stats.sq (x - Stats.mean (Stats.dropna values).*2))
                 (Stats.dropna values).*2).
    rewrite np_average_uniform; [|done|].
    2:{ intros E. apply (f_equal length) in E. rewrite length_map in E. simpl in E. lia. }
    cbn [ebind]. unfold Stats.np_sqrt.
    match goal with
    | |- context [Stats.mean (map ?f ?l)] =>
      change (Stats.mean (map f l))
        with (Stats.sum (map f l) / Stats.of_nat (length (map f l)))
    end.
    rewrite length_map, Hl.
    rewrite bool_decide_eq_false_2; [done|].
    apply Qcle_not_lt, div_nonneg; [apply sum_sq_nonneg|apply of_nat_pos; lia].
  - unfold Stats.std. by rewrite length_fmap.
Qed.

Lemma of_nat_0 : Stats.of_nat 0 = 0.
Proof. apply Qc_is_canon. by vm_compute. Qed.

Lemma of_nat_le (a b : nat) : Stats.of_nat a <= Stats.of_nat b <-> (a <= b)%nat.
Proof.
  unfold Stats.of_nat. to_Q. rewrite <- Zle_Qle. lia.
Qed.

Lemma of_nat_double (k : nat) : Stats.of_nat (k + k) = Stats.of_nat k + Stats.of_nat k.
Proof.
  apply Qc_is_canon. unfold Stats.of_nat. to_Q.
  rewrite Nat2Z.inj_add, inject_Z_plus. reflexivity.
Qed.

Lemma half_le (c : Qc) (N k : nat) :
  0 < c -> (Stats.of_nat N * c / 2 <= Stats.of_nat k * c <-> (N <= k + k)%nat).
Proof.
  intros Hc. rewrite <- of_nat_le, of_nat_double.
  generalize (Stats.of_nat N) (Stats.of_nat k). intros a b.
  to_Q. split; intros H.
  - assert (H' : (a * c <= b * c * (1 + 1))%Q).
    { assert (E : (a * c == a * c * / (1 + 1) * (1 + 1))%Q) by (field; discriminate).
      rewrite E. apply Qmult_le_compat_r; [exact H|discriminate]. }
    nra.
  - apply Qle_shift_div_r; [reflexivity|]. nra.
Qed.

Lemma cumsum_from_last (c : Qc) (m j : nat) :
  (0 < m)%nat ->
  last (Stats.cumsum_from (Stats.of_nat j * c) (replicate m c))
  = Some (Stats.of_nat (j + m) * c).
Proof.
  revert j. induction m as [|m IH]; intros j Hm; [lia|].
  cbn [replicate Stats.cumsum_from].
  assert (E : Stats.of_nat j * c + c = Stats.of_nat (S j) * c) by (rewrite of_nat_S; ring).
  rewrite E. destruct m as [|m].
  - simpl. by replace (j + 1)%nat with (S j) by lia.
  - rewrite last_cons. rewrite IH by lia.
    by replace (S j + S m)%nat with (j + S (S m))%nat by lia.
Qed.

Lemma first_past_half (c : Qc) (N : nat) (s : list Qc) (j : nat) :
  0 < c -> (j + length s = N)%nat -> (j <= (N - 1) / 2)%nat -> s ≠ [] ->
  exists v w rest,
    filter (fun p : Qc * Qc => Stats.of_nat N * c / 2 <= p.2)
           (zip s (Stats.cumsum_from (Stats.of_nat j * c) (replicate (length s) c)))
    = (v, w) :: rest
    ∧ s !! ((N - 1) / 2 - j)%nat = Some v.
Proof.
  intros Hc. revert j. induction s as [|x s IH]; intros j Hj Hle Hne; [done|].
  cbn [length replicate Stats.cumsum_from zip zip_with].
  assert (E : Stats.of_nat j * c + c = Stats.of_nat (S j) * c) by (rewrite of_nat_S; ring).
  rewrite E, filter_cons. cbn [snd].
  destruct (decide (Stats.of_nat N * c / 2 <= Stats.of_nat (S j) * c)) as [Hd|Hd].
  - apply half_le in Hd; [|done]. eexists _, _, _. split; [reflexivity|].
    replace ((N - 1) / 2 - j)%nat with 0%nat; [done|].
    simpl in Hj.
    assert ((N - 1) / 2 < S j)%nat
      by (apply Nat.Div0.div_lt_upper_bound; lia).
    lia.
  - rewrite half_le in Hd by done. simpl in Hj.
    assert (Hq : (S j <= (N - 1) / 2)%nat)
      by (apply Nat.div_le_lower_bound; lia).
    destruct (IH (S j)) as (v & w & rest & F & L); [lia|done| |].
    { destruct s; [simpl in Hj; lia|done]. }
    exists v, w, rest. split; [done|].
    replace ((N - 1) / 2 - j)%nat with (S ((N - 1) / 2 - S j)) by lia.
    done.
Qed.

Lemma Sorted_fst (l : list (Qc * Qc)) : Sorted Stats.by_value l -> Sorted Qcle l.*1.
Proof.
  induction 1 as [|p l Hs IH Hh]; simpl; constructor; [done|].
  destruct Hh; simpl; constructor. done.
Qed.

Lemma by_value_total : Total Stats.by_value.
Proof. intros p q. unfold Stats.by_value. apply (total Qcle). Qed.

#[local] Existing Instance by_value_total.

Lemma sorted_uniform (a : list Qc) (c : Qc) :
  let sorted := merge_sort Stats.by_value (zip a (replicate (length a) c)) in
  sorted.*1 = merge_sort Qcle a ∧ sorted.*2 = replicate (length a) c.
Proof.
  intros sorted.
  assert (Hp : sorted ≡ₚ zip a (replicate (length a) c)) by apply merge_sort_Permutation.
  assert (H1 : (zip a (replicate (length a) c)).*1 = a).
  { apply fst_zip. by rewrite length_replicate. }
  assert (H2 : (zip a (replicate (length a) c)).*2 = replicate (length a) c).
  { apply snd_zip. by rewrite length_replicate. }
  split.
  - apply (Sorted_unique Qcle).
    + apply Sorted_fst, Sorted_merge_sort, _.
    + apply Sorted_merge_sort, _.
    + rewrite merge_sort_Permutation, Hp, H1. done.
  - assert (Hall : Forall (fun y => y = c) sorted.*2).
    { rewrite Hp, H2. apply Forall_replicate. done. }
    assert (Hlen : length sorted.*2 = length a).
    { rewrite length_fmap, Hp, length_zip_with, length_replicate. lia. }
    rewrite <- Hlen. clear -Hall.
    induction Hall as [|y l -> _ IH]; simpl; [done|]. by rewrite <- IH.
Qed.

Lemma weighted_median_uniform (values : list (option Qc)) (c : Qc) :
  0 < c -> Stats.dropna values ≠ [] ->
  Stats.weighted_median values (Some (replicate (length values) (Some c)))
  = Ok (merge_sort Qcle (Stats.dropna values).*2
          !! ((length (Stats.dropna values) - 1) / 2)%nat).
Proof.
  intros Hc Hne. unfold Stats.weighted_median.
  destruct (Stats.dropna values) as [|p0 l0] eqn:E; [done|]. rewrite <- E in *.
  rewrite loc_fillna_dropna. cbn [ebind].
  assert (Hl : length (Stats.dropna values).*2 = length (Stats.dropna values))
    by (by rewrite length_fmap).
  rewrite <- Hl.
  destruct (sorted_uniform (Stats.dropna values).*2 c) as [S1 S2].
  rewrite S1, S2. unfold Stats.cumsum.
  assert (Hn : (0 < length (Stats.dropna values).*2)%nat).
  { rewrite Hl, E. simpl. lia. }
  assert (Hz : (0 : Qc) = Stats.of_nat 0 * c) by (rewrite of_nat_0; ring).
  rewrite Hz, cumsum_from_last by done. cbn [default from_option].
  unfold Datatypes.id. rewrite Nat.add_0_l.
  assert (Hs : length (merge_sort Qcle (Stats.dropna values).*2)
               = length (Stats.dropna values).*2)
    by (by rewrite merge_sort_Permutation).
  destruct (first_past_half c (length (Stats.dropna values).*2)
              (merge_sort Qcle (Stats.dropna values).*2) 0)
    as (v & w & rest & F & L); [done|lia|lia| |].
  { intros Em. rewrite Em in Hs. simpl in Hs. lia. }
  rewrite Hs in F. rewrite F. rewrite Nat.sub_0_r in L. by rewrite L.
Qed.

Lemma median_odd (a : list Qc) :
  Nat.odd (length a) = true ->
  Stats.median a = merge_sort Qcle a !! ((length a - 1) / 2)%nat.
Proof.
  intros Ho. unfold Stats.median.
  assert (Hs : length (merge_sort Qcle a) = length a) by (by rewrite merge_sort_Permutation).
  rewrite Hs. rewrite <- Nat.negb_odd, Ho. cbn [negb].
  apply Nat.odd_spec in Ho as [k Hk]. rewrite Hk. f_equal.
  replace (2 * k + 1 - 1)%nat with (k * 2)%nat by lia.
  replace (2 * k + 1)%nat with (1 + k * 2)%nat by lia.
  rewrite Nat.div_add, Nat.div_mul by lia. done.
Qed.




End UniformWeights.

(** ** Which signature a column gets *)

Section DetectorRules.

Lemma detect_not_empty (s : list cell) :
  clean_values s ≠ [] -> _detect_column_type s ≠ SigEmpty.
Proof.
  intros Hne. unfold _detect_column_type.
  destruct (clean_values s) as [|v l]; [done|].
  destruct (bool_decide _); [done|].
  destruct (_ <? _)%nat.
  - by destruct (likert_scan _).
  - destruct (numeric_scan _) as [[|x r] [|t tl]]; repeat (destruct (_ <? _)%nat); done.
Qed.

Lemma clean_values_nil (s : list cell) :
  clean_values s = [] <-> forall w, Some w ∈ s -> Str.strip w = [].
Proof.
  split.
  - intros E w Hw. destruct (Str.strip w) as [|c r] eqn:Ew; [done|].
    assert (H : (c :: r) ∈ clean_values s).
    { apply elem_of_clean_values. split; [done|]. by exists w. }
    rewrite E in H. inversion H.
  - intros H. destruct (clean_values s) as [|v l] eqn:E; [done|].
    assert (Hv : v ∈ clean_values s) by (rewrite E; left).
    apply elem_of_clean_values in Hv as [Hne (w & Hw & ->)].
    by rewrite (H w Hw) in Hne.
Qed.

(** X1. Rules 1 and 2 of the detector. A column is classified as empty exactly
    when every cell is missing or blank, and as multiple_choice exactly when
    it has a non-blank cell and every non-blank cell is, after stripping,
    MENTIONED or NOT MENTIONED. *)
Theorem detect_empty_and_mention_columns (s : list cell) :
  (_detect_column_type s = SigEmpty <-> forall w, Some w ∈ s -> Str.strip w = [])
  ∧ (_detect_column_type s = SigMulti
     <-> (exists w, Some w ∈ s ∧ Str.strip w ≠ [])
         ∧ forall w, Some w ∈ s ->
             Str.strip w = [] ∨ Str.strip w = u "MENTIONED"
             ∨ Str.strip w = u "NOT MENTIONED").
Proof.
  split.
  - rewrite <- clean_values_nil. split.
    + intros H. destruct (clean_values s) as [|v l] eqn:E; [done|].
      exfalso. apply (detect_not_empty s); [by rewrite E|done].
    + intros E. unfold _detect_column_type. by rewrite E.
  - assert (Hsub : (list_to_set (clean_values s) : gset pystr) ⊆ MENTION_FLAGS
                   <-> forall w, Some w ∈ s ->
                         Str.strip w = [] ∨ Str.strip w = u "MENTIONED"
                         ∨ Str.strip w = u "NOT MENTIONED").
    { split.
      - intros H w Hw. destruct (decide (Str.strip w = [])) as [|Hne]; [by left|right].
        assert (Hin : Str.strip w ∈ (list_to_set (clean_values s) : gset pystr)).
        { apply elem_of_list_to_set, elem_of_clean_values. split; [done|]. by exists w. }
        apply H in Hin. unfold MENTION_FLAGS in Hin. set_solver.
      - intros H v Hv. apply elem_of_list_to_set, elem_of_clean_values in Hv
          as [Hne (w & Hw & ->)].
        destruct (H w Hw) as [E|[E|E]]; [done| |]; rewrite E; unfold MENTION_FLAGS;
          set_solver. }
    assert (Hne : clean_values s ≠ [] <-> exists w, Some w ∈ s ∧ Str.strip w ≠ []).
    { split.
      - intros H. destruct (clean_values s) as [|v l] eqn:E; [done|].
        assert (Hv : v ∈ clean_values s) by (rewrite E; left).
        apply elem_of_clean_values in Hv as [Hx (w & Hw & ->)]. by exists w.
      - intros (w & Hw & Hx) E.
        assert (Hv : Str.strip w ∈ clean_values s).
        { apply elem_of_clean_values. split; [done|]. by exists w. }
        rewrite E in Hv. inversion Hv. }
    rewrite <- Hsub, <- Hne. unfold _detect_column_type.
    destruct (clean_values s) as [|v l] eqn:E.
    { split; [done|]. by intros [? _]. }
    case_bool_decide as Hd.
    { split; [|done]. intros _. by split. }
    split; [|by intros [_ ?]].
    destruct (_ <? _)%nat.
    + by destruct (likert_scan _).
    + destruct (numeric_scan _) as [[|x r] [|t tl]]; repeat (destruct (_ <? _)%nat); done.
Qed.

End DetectorRules.

(** ** The likert signature *)

Section LikertSignature.

Lemma z_min_spec x l : z_min x l ∈ x :: l ∧ forall y, y ∈ x :: l -> z_min x l <= y.
Proof.
  revert x. induction l as [|z l IH]; intros x; unfold z_min; simpl.
  - split; [left|]. intros y Hy. apply list_elem_of_singleton in Hy. lia.
  - fold (z_min (Z.min x z) l). destruct (IH (Z.min x z)) as [Hin Hle]. split.
    + apply elem_of_cons in Hin as [E|Hin]; [|right; by right].
      rewrite E. destruct (Z.min_spec x z) as [[_ ->]|[_ ->]]; [left|right; left].
    + intros y Hy.
      assert (Hm : z_min (Z.min x z) l <= Z.min x z) by (apply Hle; left).
      apply elem_of_cons in Hy as [->|Hy]; [lia|].
      apply elem_of_cons in Hy as [->|Hy]; [lia|].
      apply Hle. by right.
Qed.

Lemma z_max_spec x l : z_max x l ∈ x :: l ∧ forall y, y ∈ x :: l -> y <= z_max x l.
Proof.
  revert x. induction l as [|z l IH]; intros x; unfold z_max; simpl.
  - split; [left|]. intros y Hy. apply list_elem_of_singleton in Hy. lia.
  - fold (z_max (Z.max x z) l). destruct (IH (Z.max x z)) as [Hin Hle]. split.
    + apply elem_of_cons in Hin as [E|Hin]; [|right; by right].
      rewrite E. destruct (Z.max_spec x z) as [[_ ->]|[_ ->]]; [right; left|left].
    + intros y Hy.
      assert (Hm : Z.max x z <= z_max (Z.max x z) l) by (apply Hle; left).
      apply elem_of_cons in Hy as [->|Hy]; [lia|].
      apply elem_of_cons in Hy as [->|Hy]; [lia|].
      apply Hle. by right.
Qed.

Lemma elem_of_sorted_set_Z (l : list Z) n : n ∈ sorted_set_Z l <-> n ∈ l.
Proof.
  unfold sorted_set_Z. rewrite merge_sort_Permutation, elem_of_elements.
  apply elem_of_list_to_set.
Qed.

Lemma elem_of_likert_special labels (all : list Z) (acc : gset Z) n :
  n ∈ fold_left (fun sp n => if is_special_label labels n then {[n]} ∪ sp else sp) all acc
  <-> n ∈ acc ∨ (n ∈ all ∧ is_special_label labels n = true).
Proof.
  revert acc. induction all as [|m all IH]; intros acc; simpl.
  - split; [by left|]. intros [?|[H _]]; [done|inversion H].
  - rewrite IH. destruct (is_special_label labels m) eqn:E.
    + rewrite elem_of_union, elem_of_singleton, elem_of_cons. split.
      * intros [[->|?]|[? ?]]; [right; split; [by left|done]|by left|right; split; [by right|done]].
      * intros [?|[[->|?] ?]]; [left; by right|left; by left|right; by split].
    + rewrite elem_of_cons. split.
      * intros [?|[? ?]]; [by left|right; split; [by right|done]].
      * intros [?|[[->|?] ?]]; [by left|congruence|right; by split].
Qed.

Lemma likert_bound_spec (valid all : list Z) :
  all ≠ [] -> (forall n, n ∈ valid -> n ∈ all) ->
  let a := likert_bound z_min valid all in
  let b := likert_bound z_max valid all in
  a ∈ all ∧ b ∈ all ∧ a <= b
  ∧ (forall n, n ∈ valid -> a <= n <= b ∧ a ∈ valid ∧ b ∈ valid)
  ∧ (valid = [] -> forall n, n ∈ all -> a <= n <= b).
Proof.
  intros Hall Hsub a b. subst a b. unfold likert_bound.
  destruct valid as [|x r].
  - destruct all as [|y r]; [done|].
    destruct (z_min_spec y r) as [H1 H2], (z_max_spec y r) as [H3 H4].
    split; [done|]. split; [done|]. split.
    { etransitivity; [apply H2; left|apply H4; left]. }
    split; [intros n Hn; inversion Hn|].
    intros _ n Hn. split; [by apply H2|by apply H4].
  - destruct (z_min_spec x r) as [H1 H2], (z_max_spec x r) as [H3 H4].
    split; [by apply Hsub|]. split; [by apply Hsub|]. split.
    { etransitivity; [apply H2; left|apply H4; left]. }
    split; [|discriminate].
    intros n Hn. split; [split; [by apply H2|by apply H4]|done].
Qed.

(** The likert branch of the detector, read backwards from its result. *)
Lemma detect_likert_inv (s : list cell) a b labels special :
  _detect_column_type s = SigLikert a b labels special ->
  let values := clean_values s in
  let all_nums := sorted_set_Z (omap kv values).*1 in
  (2 * length values < 5 * length (filter (fun v => is_Some (LIKERT_PREFIX_RE_match v)) values))%nat
  ∧ labels = list_to_map (rev (omap kv values))
  ∧ special = likert_special labels all_nums
  ∧ a = likert_bound z_min (filter (fun n => n ∉ special) all_nums) all_nums
  ∧ b = likert_bound z_max (filter (fun n => n ∉ special) all_nums) all_nums.
Proof.
  cbv zeta. unfold _detect_column_type. intros H.
  destruct (clean_values s) as [|v0 l0]; [done|].
  destruct (bool_decide _); [done|].
  destruct (_ <? _)%nat eqn:E.
  - rewrite likert_scan_eq in H. injection H as <- <- <- <-.
    apply Nat.ltb_lt in E. done.
  - destruct (numeric_scan _) as [[|x r] [|t tl]]; repeat (destruct (_ <? _)%nat); done.
Qed.



End LikertSignature.

(** ** Order of strings, and the remaining signatures *)

Section StringOrder.

Lemma str_ltb_irrefl a : Str.ltb a a = false.
Proof.
  induction a as [|x a IH]; [done|]. simpl.
  rewrite N.ltb_irrefl, N.eqb_refl. simpl. done.
Qed.

Lemma str_ltb_trichotomy a b : Str.ltb a b = true ∨ a = b ∨ Str.ltb b a = true.
Proof.
  revert b. induction a as [|x a IH]; intros [|y b]; simpl; auto.
  destruct (N.lt_trichotomy x y) as [H|[->|H]].
  - left. apply N.ltb_lt in H. by rewrite H.
  - rewrite N.ltb_irrefl, N.eqb_refl. simpl.
    destruct (IH b) as [?|[->|?]]; auto.
  - right. right. apply N.ltb_lt in H. by rewrite H.
Qed.

Lemma str_ltb_trans a b c :
  Str.ltb a b = true -> Str.ltb b c = true -> Str.ltb a c = true.
Proof.
  revert b c. induction a as [|x a IH]; intros [|y b] [|z c]; simpl; try done.
  rewrite !orb_true_iff, !andb_true_iff, !N.ltb_lt, !N.eqb_eq.
  intros [H1|[-> H1]] [H2|[-> H2]].
  - left. lia.
  - by left.
  - by left.
  - right. split; [done|]. by apply (IH b).
Qed.

Lemma str_ltb_asym a b : Str.ltb a b = true -> Str.ltb b a = false.
Proof.
  intros H. destruct (Str.ltb b a) eqn:E; [|done].
  pose proof (str_ltb_trans _ _ _ H E) as Ht. by rewrite str_ltb_irrefl in Ht.
Qed.

Lemma str_le_total : Total str_le.
Proof.
  intros a b. unfold str_le. destruct (Str.ltb b a) eqn:E; [right|by left].
  by apply str_ltb_asym.
Qed.

Lemma str_le_trans : Transitive str_le.
Proof.
  intros a b c. unfold str_le. intros H1 H2.
  destruct (Str.ltb c a) eqn:E; [|done].
  destruct (str_ltb_trichotomy a b) as [H|[->|H]]; [|congruence|congruence].
  pose proof (str_ltb_trans _ _ _ E H). congruence.
Qed.

Lemma str_le_antisym : AntiSymm (=) str_le.
Proof.
  intros a b. unfold str_le. intros H1 H2.
  destruct (str_ltb_trichotomy a b) as [H|[->|H]]; [congruence|done|congruence].
Qed.

#[local] Existing Instance str_le_total.
#[local] Existing Instance str_le_trans.
#[local] Existing Instance str_le_antisym.

Lemma sorted_strs_spec (U : gset pystr) :
  StronglySorted str_le (sorted_strs U) ∧ NoDup (sorted_strs U)
  ∧ length (sorted_strs U) = size U
  ∧ forall v, v ∈ sorted_strs U <-> v ∈ U.
Proof.
  unfold sorted_strs. split; [apply StronglySorted_merge_sort; apply _|].
  split; [rewrite merge_sort_Permutation; apply NoDup_elements|].
  split; [by rewrite merge_sort_Permutation|].
  intros v. by rewrite merge_sort_Permutation, elem_of_elements.
Qed.

End StringOrder.

Section OtherSignatures.

#[local] Existing Instance str_le_total.
#[local] Existing Instance str_le_trans.

Lemma f_min_in x r : f_min x r ∈ x :: r.
Proof.
  revert x. induction r as [|y r IH]; intros x; unfold f_min; simpl; [left|].
  fold (f_min (if Float.ltb y x then y else x) r).
  specialize (IH (if Float.ltb y x then y else x)).
  apply elem_of_cons in IH as [E|IH]; [|right; by right].
  rewrite E. destruct (Float.ltb y x); [right; left|left].
Qed.

Lemma f_max_in x r : f_max x r ∈ x :: r.
Proof.
  revert x. induction r as [|y r IH]; intros x; unfold f_max; simpl; [left|].
  fold (f_max (if Float.ltb x y then y else x) r).
  specialize (IH (if Float.ltb x y then y else x)).
  apply elem_of_cons in IH as [E|IH]; [|right; by right].
  rewrite E. destruct (Float.ltb x y); [right; left|left].
Qed.

(** X3. For a column classified as single_choice, the categories are the
    distinct non-blank values of the column, each once, in ascending
    code-point order, and there are at most 15 of them; a column
    classified as open_text has more than 15 distinct values. In both
    cases n_unique is the number of distinct values. *)
Theorem choice_signature_sound (s : list cell) :
  let distinct : gset pystr := list_to_set (clean_values s) in
  (forall cats n,
     _detect_column_type s = SigSingle cats n ->
     n = size distinct ∧ (n <= 15)%nat ∧ length cats = n ∧ NoDup cats
     ∧ StronglySorted str_le cats
     ∧ forall v, v ∈ cats <-> v ∈ clean_values s)
  ∧ (forall n,
       _detect_column_type s = SigOpen n -> n = size distinct ∧ (15 < n)%nat).
Proof.
  intros distinct. subst distinct. unfold _detect_column_type.
  destruct (clean_values s) as [|v0 l0] eqn:E; [done|]. rewrite <- E.
  set (U := list_to_set (clean_values s) : gset pystr).
  destruct (sorted_strs_spec U) as (S1 & S2 & S3 & S4).
  assert (Hin : forall v, v ∈ sorted_strs U <-> v ∈ clean_values s).
  { intros v. rewrite S4. apply elem_of_list_to_set. }
  assert (Hcase : forall r : signature,
    r = (if (15 <? size U)%nat then SigOpen (size U) else SigSingle (sorted_strs U) (size U)) ->
    (forall cats n, r = SigSingle cats n ->
       n = size U ∧ (n <= 15)%nat ∧ length cats = n ∧ NoDup cats
       ∧ StronglySorted str_le cats ∧ forall v, v ∈ cats <-> v ∈ clean_values s)
    ∧ (forall n, r = SigOpen n -> n = size U ∧ (15 < n)%nat)).
  { intros r ->. destruct (15 <? size U)%nat eqn:E15.
    - apply Nat.ltb_lt in E15. split; [done|]. intros n [= <-]. split; [done|lia].
    - apply Nat.ltb_ge in E15. split; [|done]. intros cats n [= <- <-].
      split; [done|]. split; [lia|]. done. }
  destruct (bool_decide _); [split; intros; discriminate|].
  destruct (2 * _ <? _)%nat.
  { destruct (likert_scan _). split; intros; discriminate. }
  destruct (numeric_scan _) as [[|x r] [|t tl]]; try (by apply Hcase).
  destruct (length _ <? _)%nat; [split; intros; discriminate|by apply Hcase].
Qed.



End OtherSignatures.

(** ** Weighted statistics with arbitrary weights *)

Section WeightedStatistics.

Local Open Scope Qc_scope.

#[local] Existing Instance by_value_total.

Lemma loc_fillna_covered (ws : list (option Qc)) (idx : list nat) :
  Forall (fun i => (i < length ws)%nat) idx ->
  Stats.loc_fillna ws idx = Ok (map (filled ws) idx).
Proof.
  induction 1 as [|i idx Hi _ IH]; simpl; [done|].
  apply lookup_lt_is_Some in Hi as [w Hw]. rewrite Hw, IH. simpl.
  unfold filled. by rewrite Hw.
Qed.

Lemma loc_fillna_raise (ws : list (option Qc)) (idx : list nat) e :
  Stats.loc_fillna ws idx = Raise e ->
  e = KeyError ∧ exists i, i ∈ idx ∧ (length ws <= i)%nat.
Proof.
  induction idx as [|i idx IH]; simpl; [done|].
  destruct (ws !! i) as [w|] eqn:Hw.
  - destruct (Stats.loc_fillna ws idx) as [l|e']; simpl; [done|].
    intros [= <-]. destruct (IH eq_refl) as (-> & j & Hj & Hl).
    split; [done|]. exists j. split; [by right|done].
  - intros [= <-]. split; [done|]. exists i. split; [left|].
    by apply lookup_ge_None.
Qed.

Lemma loc_fillna_ok (ws : list (option Qc)) (idx : list nat) (w : list Qc) :
  Stats.loc_fillna ws idx = Ok w ->
  Forall (fun i => (i < length ws)%nat) idx ∧ w = map (filled ws) idx.
Proof.
  revert w. induction idx as [|i idx IH]; intros w; simpl.
  - by intros [= <-].
  - destruct (ws !! i) as [x|] eqn:Ex; [|done].
    destruct (Stats.loc_fillna ws idx) as [w'|]; simpl; [|done].
    intros [= <-]. destruct (IH w' eq_refl) as [H1 ->]. split.
    + constructor; [by eapply lookup_lt_Some|done].
    + unfold filled at 2. by rewrite Ex.
Qed.

Lemma covered_index (values ws : list (option Qc)) :
  covered values ws ->
  Forall (fun i => (i < length ws)%nat) (Stats.dropna values).*1.
Proof.
  intros Hc. apply Forall_forall. intros i Hi.
  apply list_elem_of_fmap in Hi as (p & -> & Hp).
  apply dropna_bound in Hp. by apply Hc in Hp.
Qed.

Lemma elem_of_dropna {A} (values : list (option A)) (i : nat) (v : A) :
  (i, v) ∈ Stats.dropna values <-> values !! i = Some (Some v).
Proof.
  split; [apply (dropna_bound values (i, v))|].
  intros H. unfold Stats.dropna. apply list_elem_of_omap.
  exists (i, Some v). split; [|done].
  apply elem_of_lookup_imap. by exists i, (Some v).
Qed.

Lemma zip_rows (valid : list (nat * Qc)) (ws : list (option Qc)) :
  zip valid.*2 (map (filled ws) valid.*1)
  = map (fun p : nat * Qc => (p.2, filled ws p.1)) valid.
Proof. induction valid as [|p l IH]; simpl; [done|]. f_equal. exact IH. Qed.

Lemma zip_with_rows (rows : list (Qc * Qc)) :
  zip_with Qcmult rows.*1 rows.*2 = map (fun r => r.1 * r.2) rows.
Proof. induction rows as [|r l IH]; simpl; [done|]. f_equal. exact IH. Qed.

Lemma sum_nonneg (l : list Qc) : Forall (fun w => 0 <= w) l -> 0 <= Stats.sum l.
Proof.
  unfold Stats.sum. induction 1 as [|w l Hw _ IH]; cbn [foldr]; [apply Qcle_refl|].
  revert IH. generalize (foldr Qcplus 0 l). intros t IH. to_Q. lra.
Qed.

Lemma weighted_sum_bounds (rows : list (Qc * Qc)) (lo hi : Qc) :
  Forall (fun r => lo <= r.1 ∧ r.1 <= hi ∧ 0 <= r.2) rows ->
  lo * Stats.sum rows.*2 <= Stats.sum (map (fun r => r.1 * r.2) rows)
  ∧ Stats.sum (map (fun r => r.1 * r.2) rows) <= hi * Stats.sum rows.*2.
Proof.
  unfold Stats.sum.
  induction 1 as [|[a w] l (H1 & H2 & H3) _ IH]; cbn [fmap list_fmap map foldr fst snd].
  - split; to_Q; lra.
  - revert IH. generalize (foldr Qcplus 0 l.*2) (foldr Qcplus 0 (map (fun r => r.1 * r.2) l)).
    intros t s [I1 I2]. simpl in H1, H2, H3. split; to_Q; nra.
Qed.

Lemma filled_nonneg (ws : list (option Qc)) (i : nat) :
  nonneg_weights ws -> 0 <= filled ws i.
Proof.
  intros Hn. unfold filled. destruct (ws !! i) as [[w|]|] eqn:E; simpl; try done.
  eapply Forall_lookup_1 in Hn; [|exact E]. done.
Qed.

Lemma quotient_bounds (s t lo hi : Qc) :
  0 < t -> lo * t <= s -> s <= hi * t -> lo <= s / t ∧ s / t <= hi.
Proof.
  intros Ht H1 H2. to_Q. split.
  - apply Qle_shift_div_l; [done|lra].
  - apply Qle_shift_div_r; [done|lra].
Qed.

Lemma mean_bounds (a : list Qc) (lo hi : Qc) :
  a ≠ [] -> Forall (fun x => lo <= x ∧ x <= hi) a ->
  lo <= Stats.mean a ∧ Stats.mean a <= hi.
Proof.
  intros Hne Ha. unfold Stats.mean.
  assert (Hpos : 0 < Stats.of_nat (length a))
    by (apply of_nat_pos; destruct a; [done|simpl; lia]).
  apply quotient_bounds; [done| |]; clear Hne Hpos.
  - induction Ha as [|x l [H1 H2] _ IH]; cbn [length].
    + rewrite of_nat_0. unfold Stats.sum. simpl. to_Q. lra.
    + rewrite of_nat_S. unfold Stats.sum in *. cbn [foldr]. revert IH.
      generalize (foldr Qcplus 0 l) (Stats.of_nat (length l)). intros s n IH.
      to_Q. nra.
  - induction Ha as [|x l [H1 H2] _ IH]; cbn [length].
    + rewrite of_nat_0. unfold Stats.sum. simpl. to_Q. lra.
    + rewrite of_nat_S. unfold Stats.sum in *. cbn [foldr]. revert IH.
      generalize (foldr Qcplus 0 l) (Stats.of_nat (length l)). intros s n IH.
      to_Q. nra.
Qed.



Lemma sum_perm (l l' : list Qc) : l ≡ₚ l' -> Stats.sum l = Stats.sum l'.
Proof.
  unfold Stats.sum. induction 1 as [|x l l' _ IH|x y l|l l' l'' _ IH1 _ IH2]; cbn [foldr].
  - done.
  - by rewrite IH.
  - ring.
  - by rewrite IH1.
Qed.

Lemma sum_cons (x : Qc) (l : list Qc) : Stats.sum (x :: l) = x + Stats.sum l.
Proof. done. Qed.

Lemma sum_filter_le (P : Qc -> Prop) `{!forall x, Decision (P x)} (rows : list (Qc * Qc)) :
  Forall (fun r => 0 <= r.2) rows ->
  Stats.sum (filter (fun r => P r.1) rows).*2 <= Stats.sum rows.*2.
Proof.
  induction 1 as [|r l Hr _ IH]; [apply Qcle_refl|].
  rewrite filter_cons. destruct (decide (P r.1)); rewrite ?fmap_cons, !sum_cons.
  - revert IH. generalize (Stats.sum (filter (fun r => P r.1) l).*2) (Stats.sum l.*2).
    intros a b IH. to_Q. lra.
  - revert IH. generalize (Stats.sum (filter (fun r => P r.1) l).*2) (Stats.sum l.*2).
    intros a b IH. to_Q. lra.
Qed.

Lemma filter_none {A} (P : A -> Prop) `{!forall x, Decision (P x)} (l : list A) :
  Forall (fun x => ¬ P x) l -> filter P l = [].
Proof.
  induction 1 as [|x l Hx _ IH]; [done|]. by rewrite filter_cons_False.
Qed.

Lemma filter_all {A} (P : A -> Prop) `{!forall x, Decision (P x)} (l : list A) :
  Forall P l -> filter P l = l.
Proof.
  induction 1 as [|x l Hx _ IH]; [done|]. rewrite filter_cons_True by done. by rewrite IH.
Qed.

Lemma by_value_trans : Transitive Stats.by_value.
Proof. intros p q r. unfold Stats.by_value. apply Qcle_trans. Qed.

#[local] Existing Instance by_value_trans.

(** The first row at which the running total reaches the cutoff. *)
Lemma first_crossing (cutoff : Qc) (sorted : list (Qc * Qc)) (acc v c : Qc) rest :
  filter (fun p : Qc * Qc => cutoff <= p.2)
         (zip sorted.*1 (Stats.cumsum_from acc sorted.*2)) = (v, c) :: rest ->
  exists pre wk post,
    sorted = pre ++ (v, wk) :: post
    ∧ cutoff <= acc + Stats.sum pre.*2 + wk
    ∧ (pre = [] ∨ acc + Stats.sum pre.*2 < cutoff).
Proof.
  revert acc. induction sorted as [|[x w] s IH]; intros acc; [done|].
  cbn [fmap list_fmap fst snd Stats.cumsum_from zip_with]. rewrite filter_cons. cbn [snd].
  destruct (decide (cutoff <= acc + w)) as [Hd|Hd].
  - intros [= -> <- _]. exists [], w, s. split; [done|]. split; [|by left].
    unfold Stats.sum. simpl. to_Q. lra.
  - intros F. apply IH in F as (pre & wk & post & -> & H1 & H2).
    exists ((x, w) :: pre), wk, post. split; [done|].
    rewrite fmap_cons, sum_cons. cbn [snd]. apply Qcnot_le_lt in Hd.
    destruct H2 as [->|H2].
    + unfold Stats.sum in *. cbn [fmap list_fmap foldr] in *. split; [|right]; to_Q; lra.
    + revert H1 H2. generalize (Stats.sum pre.*2). intros t H1 H2.
      split; [|right]; to_Q; lra.
Qed.

Lemma crossing_exists (cutoff : Qc) (sorted : list (Qc * Qc)) (acc : Qc) :
  sorted ≠ [] -> cutoff <= acc + Stats.sum sorted.*2 ->
  filter (fun p : Qc * Qc => cutoff <= p.2)
         (zip sorted.*1 (Stats.cumsum_from acc sorted.*2)) ≠ [].
Proof.
  revert acc. induction sorted as [|[x w] s IH]; intros acc Hne; [done|].
  cbn [fmap list_fmap fst snd Stats.cumsum_from zip_with]. rewrite filter_cons. cbn [snd].
  destruct (decide (cutoff <= acc + w)) as [Hd|Hd]; [done|].
  rewrite sum_cons. intros Hc. destruct s as [|r s].
  - exfalso. apply Hd. revert Hc. unfold Stats.sum. simpl. to_Q. lra.
  - apply IH; [done|]. revert Hc. generalize (Stats.sum (r :: s).*2). intros t Hc.
    to_Q. lra.
Qed.

Lemma cumsum_from_last_sum (acc : Qc) (l : list Qc) :
  l ≠ [] -> last (Stats.cumsum_from acc l) = Some (acc + Stats.sum l).
Proof.
  revert acc. induction l as [|x l IH]; intros acc Hne; [done|].
  cbn [Stats.cumsum_from]. rewrite sum_cons. destruct l as [|y l].
  - simpl. f_equal. unfold Stats.sum. simpl. ring.
  - cbn [Stats.cumsum_from] in *. rewrite last_cons.
    cbn [Stats.cumsum_from] in IH. rewrite IH by done. f_equal. ring.
Qed.

Lemma half_le_nonneg (t : Qc) : 0 <= t -> 0 <= t / 2 ∧ t / 2 <= t.
Proof.
  intros Ht. split; to_Q.
  - apply Qle_shift_div_l; [reflexivity|lra].
  - apply Qle_shift_div_r; [reflexivity|lra].
Qed.

(** X6. With weights none of which is negative, weighted_median returns a
    value of the column and never fails with an index error; the rows
    strictly below the returned value carry at most half of the total
    weight, and the rows at or below it at least half. *)
Theorem weighted_median_half_weight (values ws : list (option Qc)) :
  nonneg_weights ws -> covered values ws -> (exists x, Some x ∈ values) ->
  exists v,
    Stats.weighted_median values (Some ws) = Ok (Some v)
    ∧ Some v ∈ values
    ∧ weight_of (fun x => x < v) (weighted_rows values ws)
      <= Stats.sum (weighted_rows values ws).*2 / 2
    ∧ Stats.sum (weighted_rows values ws).*2 / 2
      <= weight_of (fun x => x <= v) (weighted_rows values ws).
Proof.
  intros Hn Hc [x0 Hx0]. unfold Stats.weighted_median, weighted_rows.
  apply list_elem_of_lookup_1 in Hx0 as [i0 Hi0]. apply elem_of_dropna in Hi0.
  destruct (Stats.dropna values) as [|p0 l0] eqn:E; [inversion Hi0|]. rewrite <- E. clear Hi0.
  rewrite loc_fillna_covered by (by apply covered_index). cbn [ebind].
  rewrite zip_rows.
  set (rows := map (fun p : nat * Qc => (p.2, filled ws p.1)) (Stats.dropna values)).
  set (sorted := merge_sort Stats.by_value rows).
  assert (Hp : sorted ≡ₚ rows) by apply merge_sort_Permutation.
  assert (Hs : StronglySorted Stats.by_value sorted) 
    by (apply StronglySorted_merge_sort; apply _).
  assert (Hw : Forall (fun r : Qc * Qc => 0 <= r.2) sorted).
  { rewrite Hp. unfold rows. apply Forall_fmap, Forall_forall. intros p _. simpl.
    by apply filled_nonneg. }
  assert (Hne : sorted ≠ []).
  { intros E0. rewrite E0 in Hp. apply Permutation_nil_l in Hp.
    unfold rows in Hp. rewrite E in Hp. done. }
  assert (Ht : Stats.sum rows.*2 = Stats.sum sorted.*2)
    by (apply sum_perm, fmap_Permutation; by symmetry).
  assert (Hle : forall P `{!forall x, Decision (P x)},
             weight_of P rows = weight_of P sorted).
  { intros P ?. unfold weight_of.
    apply sum_perm, fmap_Permutation, filter_Permutation. by symmetry. }
  rewrite Ht. unfold Stats.cumsum.
  rewrite cumsum_from_last_sum by (intros E0; by apply fmap_nil_inv in E0).
  cbn [default from_option]. unfold Datatypes.id.
  assert (E0 : 0 + Stats.sum sorted.*2 = Stats.sum sorted.*2) by ring.
  rewrite E0.
  assert (H0 : 0 <= Stats.sum sorted.*2).
  { apply sum_nonneg. by apply Forall_fmap. }
  destruct (half_le_nonneg _ H0) as [Hh0 Hh1].
  set (cutoff := Stats.sum sorted.*2 / 2) in *.
  pose proof (crossing_exists cutoff sorted 0 Hne) as Hex.
  rewrite E0 in Hex. specialize (Hex Hh1).
  destruct (filter _ _) as [|[v c] rest] eqn:F; [done|].
  apply first_crossing in F as (pre & wk & post & Es & H1 & H2).
  exists v. split; [done|]. split.
  { assert (Hin : (v, wk) ∈ rows).
    { rewrite <- Hp, Es. apply elem_of_app. right. left. }
    unfold rows in Hin. apply list_elem_of_fmap in Hin as ([i y] & [= -> _] & Hy).
    apply elem_of_dropna in Hy. by eapply list_elem_of_lookup_2. }
  rewrite !Hle. clear Hle.
  rewrite Es in Hs, Hw. apply StronglySorted_app in Hs as (Hpre & _ & Hpost).
  apply StronglySorted_cons in Hpost as [Hpost _].
  apply Forall_app in Hw as [Wpre Wpost]. apply Forall_cons in Wpost as [Wk Wpost].
  unfold weight_of. rewrite Es, !filter_app, !filter_cons. cbn [fst].
  rewrite decide_False by apply Qclt_irrefl'.
  rewrite decide_True by apply Qcle_refl.
  assert (Fpost : filter (fun r : Qc * Qc => r.1 < v) post = []).
  { apply filter_none. eapply Forall_impl; [exact Hpost|].
    intros r Hr. unfold Stats.by_value in Hr. simpl in Hr. by apply Qcle_not_lt. }
  assert (Fpre : filter (fun r : Qc * Qc => r.1 <= v) pre = pre).
  { apply filter_all. apply Forall_forall. intros r Hr.
    apply (Hpre r (v, wk)); [done|left]. }
  rewrite Fpost, Fpre, app_nil_r. rewrite fmap_app, fmap_cons, sum_app, sum_cons. cbn [snd].
  clearbody cutoff. clear Hex Hh1.
  split.
  - destruct H2 as [->|H2].
    + done.
    + pose proof (sum_filter_le (fun x => x < v) pre Wpre) as Hf.
      cbv beta in Hf |- *.
      revert Hf H2. generalize (Stats.sum (filter (fun r : Qc * Qc => r.1 < v) pre).*2)
                               (Stats.sum pre.*2). intros a b Hf H2. to_Q. lra.
  - assert (Hq : 0 <= Stats.sum (filter (fun r : Qc * Qc => r.1 <= v) post).*2).
    { apply sum_nonneg, Forall_fmap. apply Forall_forall. intros r Hr.
      apply list_elem_of_filter in Hr as [_ Hr].
      eapply Forall_forall in Wpost; [|exact Hr]. done. }
    revert Hq H1. generalize (Stats.sum (filter (fun r : Qc * Qc => r.1 <= v) post).*2)
                             (Stats.sum pre.*2). intros a b Hq H1. to_Q. lra.
Qed.

Lemma weighted_median_half_weight_witness :
  exists v, Stats.weighted_median (nums [5; 1; 3]%Z) (Some [Some (qz 1); None; Some (qz 0)]%list)
            = Ok (Some v) ∧ Some v ∈ nums [5; 1; 3]%Z.
Proof.
  destruct (weighted_median_half_weight
              (nums [5; 1; 3]%Z) [Some (qz 1); None; Some (qz 0)]%list)
    as (v & H1 & H2 & _).
  - by_eval.
  - intros i v H. apply lookup_lt_Some in H. exact H.
  - exists (qz 5). left.
  - exists v. split; [exact H1|exact H2].
Defined.

Lemma weighted_sq_nonneg (rows : list (Qc * Qc)) (m : Qc) :
  Forall (fun r => 0 <= r.2) rows ->
  0 <= Stats.sum (zip_with Qcmult (map (fun x => Stats.sq (x - m)) rows.*1) rows.*2).
Proof.
  induction 1 as [|[x w] l Hw _ IH]; cbn [fmap list_fmap map zip_with fst snd].
  - apply Qcle_refl.
  - rewrite sum_cons. revert IH.
    generalize (Stats.sum (zip_with Qcmult (map (fun x => Stats.sq (x - m)) l.*1) l.*2)).
    intros t IH. simpl in Hw. unfold Stats.sq. to_Q.
    pose proof (Qsq_nonneg (x + - m)) as Hs. nra.
Qed.

Lemma rows_fst (values ws : list (option Qc)) :
  (Stats.dropna values).*2 = (weighted_rows values ws).*1.
Proof. unfold weighted_rows. by rewrite <- list_fmap_compose. Qed.

Lemma rows_snd (values ws : list (option Qc)) :
  map (filled ws) (Stats.dropna values).*1 = (weighted_rows values ws).*2.
Proof.
  unfold weighted_rows.
  change (map (filled ws) (Stats.dropna values).*1)
    with (filled ws <$> (fst <$> Stats.dropna values)).
  by rewrite <- !list_fmap_compose.
Qed.

Lemma rows_nonneg (values ws : list (option Qc)) :
  nonneg_weights ws -> Forall (fun r : Qc * Qc => 0 <= r.2) (weighted_rows values ws).
Proof.
  intros Hn. unfold weighted_rows. apply Forall_fmap, Forall_forall. intros p _.
  by apply filled_nonneg.
Qed.

(** X7. With weights none of which is negative, a standard deviation that
    weighted_std returns is NaN only for a column with fewer than two
    values; otherwise it is the square root of a non-negative number. *)
Theorem weighted_std_defined (values ws : list (option Qc)) (r : Stats.stdval) :
  nonneg_weights ws ->
  Stats.weighted_std values (Some ws) = Ok r ->
  (r = Stats.StdNaN <-> (length (Stats.dropna values) <= 1)%nat)
  ∧ (forall q, r = Stats.StdSqrt q -> 0 <= q).
Proof.
  intros Hn. unfold Stats.weighted_std.
  destruct (length (Stats.dropna values) <=? 1)%nat eqn:El.
  { apply Nat.leb_le in El. intros [= <-]. done. }
  apply Nat.leb_gt in El.
  destruct (Stats.loc_fillna ws (Stats.dropna values).*1) as [w|e] eqn:Ew; simpl; [|done].
  apply loc_fillna_ok in Ew as [_ ->]. rewrite rows_snd, rows_fst with (ws := ws).
  pose proof (rows_nonneg values ws Hn) as Hr.
  set (rows := weighted_rows values ws) in *.
  unfold Stats.np_average at 1.
  destruct (bool_decide (Stats.sum rows.*2 = 0)) eqn:Ez; simpl; [done|].
  apply bool_decide_eq_false in Ez.
  unfold Stats.np_average. rewrite bool_decide_eq_false_2 by done. simpl.
  set (avg := Stats.sum (zip_with Qcmult rows.*1 rows.*2) / Stats.sum rows.*2).
  assert (Hpos : 0 < Stats.sum rows.*2).
  { assert (H0 : 0 <= Stats.sum rows.*2) by (apply sum_nonneg; by apply Forall_fmap).
    apply Qcle_lt_or_eq in H0 as [H0|H0]; [done|]. by symmetry in H0. }
  assert (Hv : 0 <= Stats.sum (zip_with Qcmult (map (fun x => Stats.sq (x - avg)) rows.*1)
                                 rows.*2) / Stats.sum rows.*2).
  { apply div_nonneg; [|done]. by apply weighted_sq_nonneg. }
  unfold Stats.np_sqrt. rewrite bool_decide_eq_false_2 by (by apply Qcle_not_lt).
  intros [= <-]. split.
  - split; [done|lia].
  - by intros q [= <-].
Qed.

Lemma weighted_std_defined_witness :
  Stats.StdSqrt (Q2Qc (8 # 9)) ≠ Stats.StdNaN ∧ 0 <= Q2Qc (8 # 9).
Proof.
  destruct (weighted_std_defined (nums [1; 3]%Z) [Some (qz 2); None]%list
              (Stats.StdSqrt (Q2Qc (8 # 9)))) as [H1 H2].
  - by_eval.
  - by_eval.
  - split; [done|]. by apply H2.
Defined.

Lemma covered_iff (values ws : list (option Qc)) :
  covered values ws <-> Forall (fun i => (i < length ws)%nat) (Stats.dropna values).*1.
Proof.
  split; [apply covered_index|].
  intros Hf i v Hv. apply elem_of_dropna in Hv.
  eapply Forall_forall in Hf; [exact Hf|].
  apply list_elem_of_fmap. by exists (i, v).
Qed.

Lemma loc_fillna_cases (values ws : list (option Qc)) :
  (covered values ws
   ∧ Stats.loc_fillna ws (Stats.dropna values).*1
     = Ok (map (filled ws) (Stats.dropna values).*1))
  ∨ (¬ covered values ws
     ∧ Stats.loc_fillna ws (Stats.dropna values).*1 = Raise KeyError).
Proof.
  destruct (Stats.loc_fillna ws (Stats.dropna values).*1) as [w|e] eqn:Ew.
  - apply loc_fillna_ok in Ew as [Hc ->]. left. split; [by apply covered_iff|done].
  - right. destruct (loc_fillna_raise _ _ _ Ew) as (-> & i & Hi & Hl).
    split; [|done]. intros Hc. apply covered_iff in Hc.
    eapply Forall_forall in Hc; [|exact Hi]. lia.
Qed.

(** X8. The weighted statistics fail with a key error exactly when a row
    that has a value has no entry in the weights; weighted_std only
    when, in addition, the column has at least two values, since it
    returns NaN before it looks at the weights. Without weights none of
    them raises. *)
Theorem weighted_statistics_missing_weight (values ws : list (option Qc)) :
  (Stats.weighted_mean values (Some ws) = Raise KeyError <-> ¬ covered values ws)
  ∧ (Stats.weighted_median values (Some ws) = Raise KeyError <-> ¬ covered values ws)
  ∧ (Stats.weighted_std values (Some ws) = Raise KeyError
     <-> ¬ covered values ws ∧ (2 <= length (Stats.dropna values))%nat)
  ∧ (forall e, Stats.weighted_mean values None ≠ Raise e
               ∧ Stats.weighted_median values None ≠ Raise e
               ∧ Stats.weighted_std values None ≠ Raise e).
Proof.
  assert (Hnil : Stats.dropna values = [] -> covered values ws).
  { intros E i v Hv. apply elem_of_dropna in Hv. rewrite E in Hv. inversion Hv. }
  unfold Stats.weighted_mean, Stats.weighted_median, Stats.weighted_std.
  destruct (loc_fillna_cases values ws) as [[Hc ->]|[Hc ->]]; cbn [ebind].
  - clear Hnil. split; [|split; [|split]].
    + split; [|tauto]. destruct (Stats.dropna values); [done|].
      unfold Stats.np_average. destruct (bool_decide _); done.
    + split; [|tauto]. destruct (Stats.dropna values); [done|].
      destruct (filter _ _) as [|[v c] rest]; done.
    + split; [|tauto]. destruct (_ <=? 1)%nat; [done|].
      unfold Stats.np_average at 1. destruct (bool_decide _); simpl; [done|].
      unfold Stats.np_average. destruct (bool_decide _); done.
    + intros e. destruct (Stats.dropna values); destruct (_ <=? 1)%nat; done.
  - destruct (Stats.dropna values) as [|p0 l0] eqn:E; [by specialize (Hnil eq_refl)|].
    rewrite <- E. split; [done|]. split; [done|]. split.
    + destruct (length (Stats.dropna values) <=? 1)%nat eqn:El.
      * apply Nat.leb_le in El. split; [done|]. intros [_ H]. lia.
      * apply Nat.leb_gt in El. split; [|done]. intros _. split; [done|lia].
    + intros e. destruct (_ <=? 1)%nat; done.
Qed.

End WeightedStatistics.

(** ** Frequency tables *)

Section FrequencyTables.

Local Open Scope Qc_scope.

#[local] Existing Instance str_le_total.
#[local] Existing Instance str_le_trans.

Lemma first_seen_spec (seen l : list pystr) :
  NoDup (Stats.first_seen seen l)
  ∧ forall x, x ∈ Stats.first_seen seen l <-> x ∈ l ∧ x ∉ seen.
Proof.
  revert seen. induction l as [|y l IH]; intros seen; simpl.
  - split; [constructor|]. intros x. split; [inversion 1|]. intros [H _]. inversion H.
  - destruct (bool_decide (y ∈ seen)) eqn:Ey.
    + apply bool_decide_eq_true in Ey. destruct (IH seen) as [N M]. split; [done|].
      intros x. rewrite M, elem_of_cons. split; [naive_solver|].
      intros [[->|H] Hn]; done.
    + apply bool_decide_eq_false in Ey. destruct (IH (y :: seen)) as [N M]. split.
      * constructor; [|done]. rewrite M. intros [_ H]. apply H. left.
      * intros x. rewrite !elem_of_cons, M, elem_of_cons. split.
        -- intros [->|[H1 H2]]; [by split; [left|]|]. split; [by right|]. tauto.
        -- intros [[->|H1] H2]; [by left|]. destruct (decide (x = y)) as [->|Hxy]; [by left|].
           right. split; [done|]. intros [?|?]; done.
Qed.

Lemma sum_zero {A} (keys : list A) : Stats.sum (map (fun _ => 0) keys) = 0.
Proof. induction keys as [|k l IH]; [done|]. cbn [map]. rewrite sum_cons, IH. ring. Qed.

Lemma sum_map_plus {A} (f g : A -> Qc) (keys : list A) :
  Stats.sum (map (fun k => f k + g k) keys)
  = Stats.sum (map f keys) + Stats.sum (map g keys).
Proof.
  induction keys as [|k l IH]; cbn [map]; [unfold Stats.sum; simpl; ring|].
  rewrite !sum_cons, IH. ring.
Qed.

Lemma sum_indicator (keys : list pystr) (x : pystr) (c : Qc) :
  NoDup keys -> x ∈ keys ->
  Stats.sum (map (fun k => if decide (x = k) then c else 0) keys) = c.
Proof.
  induction 1 as [|k l Hk _ IH]; [inversion 1|]. intros Hx. cbn [map]. rewrite sum_cons.
  destruct (decide (x = k)) as [->|Hne].
  - assert (E : map (fun k0 => if decide (k = k0) then c else 0) l = map (fun _ => 0) l).
    { apply map_ext_in. intros a Ha. apply decide_False. intros <-.
      apply Hk. by apply list_elem_of_In. }
    rewrite E, sum_zero. ring.
  - apply elem_of_cons in Hx as [->|Hx]; [done|]. rewrite IH by done. ring.
Qed.

(** Splitting a total by key: the totals of the groups add up to the
    total of the rows. *)
Lemma sum_by_key {A} (key : A -> pystr) (wt : A -> Qc) (keys : list pystr) (l : list A) :
  NoDup keys -> (forall x, x ∈ l -> key x ∈ keys) ->
  Stats.sum (map (fun k => Stats.sum (map wt (filter (fun x => key x = k) l))) keys)
  = Stats.sum (map wt l).
Proof.
  intros Hn. induction l as [|x l IH]; intros Hk.
  - cbn [filter list_filter map]. apply sum_zero.
  - cbn [map]. rewrite sum_cons, <- IH by (intros y Hy; apply Hk; by right).
    rewrite <- (sum_indicator keys (key x) (wt x) Hn) at 1 by (apply Hk; left).
    rewrite <- sum_map_plus. f_equal. apply map_ext. intros k.
    rewrite filter_cons. destruct (decide (key x = k)); cbn [map].
    + by rewrite sum_cons.
    + ring.
Qed.

Lemma sum_ones {A} (l : list A) : Stats.sum (map (fun _ => 1) l) = Stats.of_nat (length l).
Proof.
  induction l as [|x l IH]; cbn [map length].
  - by rewrite of_nat_0.
  - rewrite sum_cons, IH, of_nat_S. ring.
Qed.

Lemma by_count_desc_total : Total Stats.by_count_desc.
Proof. intros a b. unfold Stats.by_count_desc. apply (total Qcle). Qed.

Lemma by_count_desc_trans : Transitive Stats.by_count_desc.
Proof. intros a b c H1 H2. unfold Stats.by_count_desc in *. by eapply Qcle_trans. Qed.

#[local] Existing Instance by_count_desc_total.
#[local] Existing Instance by_count_desc_trans.

Lemma elem_of_freq_valid (series : list cell) (k : pystr) :
  k ∈ (Stats.freq_valid series).*2 <-> Some k ∈ series ∧ Str.strip k ≠ [].
Proof.
  unfold Stats.freq_valid. rewrite list_elem_of_fmap. split.
  - intros ([i v] & -> & Hp). apply list_elem_of_filter in Hp as [Hs Hp].
    apply elem_of_dropna in Hp. split; [by eapply list_elem_of_lookup_2|done].
  - intros [Hin Hs]. apply list_elem_of_lookup_1 in Hin as [i Hi].
    exists (i, k). split; [done|]. apply list_elem_of_filter. split; [done|].
    by apply elem_of_dropna.
Qed.



End FrequencyTables.

(** ** Choice tables *)

Section ChoiceTables.

Local Open Scope Qc_scope.

Lemma by_pct_desc_total : Total Stats.by_pct_desc.
Proof. intros a b. unfold Stats.by_pct_desc. apply (total Qcle). Qed.

Lemma by_pct_desc_trans : Transitive Stats.by_pct_desc.
Proof. intros a b c H1 H2. unfold Stats.by_pct_desc in *. by eapply Qcle_trans. Qed.

#[local] Existing Instance by_pct_desc_total.
#[local] Existing Instance by_pct_desc_trans.


End ChoiceTables.

(** ** Layout of the cross-tabulation *)

Section CrossTabLayout.

Local Open Scope Qc_scope.

#[local] Existing Instance str_le_total.
#[local] Existing Instance str_le_trans.

Lemma elem_of_paired (data_col group_col : list cell)
    (weights : option (list (option Qc))) (d g : pystr) :
  (exists w, (d, g, w) ∈ Stats.paired data_col group_col weights)
  <-> exists i, data_col !! i = Some (Some d) ∧ group_col !! i = Some (Some g).
Proof.
  unfold Stats.paired. split.
  - intros [w Hw]. apply list_elem_of_omap in Hw as ([i [x y]] & Hi & E).
    apply elem_of_lookup_imap in Hi as (i' & p & [= -> <-] & Hl).
    apply lookup_zip_with_Some in Hl as (x' & y' & [= <- <-] & Hx & Hy).
    simpl in E. destruct x as [x|]; simpl in E; [|done].
    destruct y as [y|]; simpl in E; [|done]. injection E as -> -> _. by exists i'.
  - intros (i & Hd & Hg). eexists. apply list_elem_of_omap.
    exists (i, (Some d, Some g)). split.
    + apply elem_of_lookup_imap. exists i, (Some d, Some g). split; [done|].
      apply lookup_zip_with_Some. by exists (Some d), (Some g).
    + simpl. reflexivity.
Qed.

(** X11. The table that cross_tab_frequencies returns has one row for each
    answer and one column for each group that occur together in a row of
    the data with both cells present, the labels on each axis distinct
    and in ascending order, and every row of the matrix has one entry
    for each column label. *)
Theorem cross_tab_frequencies_layout (data_col group_col : list cell)
    (weights : option (list (option Qc))) :
  let ct := Stats.cross_tab_frequencies data_col group_col weights in
  length (Stats.ct_values ct) = length (Stats.ct_index ct)
  ∧ Forall (fun row => length row = length (Stats.ct_columns ct)) (Stats.ct_values ct)
  ∧ StronglySorted str_le (Stats.ct_index ct) ∧ NoDup (Stats.ct_index ct)
  ∧ StronglySorted str_le (Stats.ct_columns ct) ∧ NoDup (Stats.ct_columns ct)
  ∧ (forall d, d ∈ Stats.ct_index ct
       <-> exists i g, data_col !! i = Some (Some d) ∧ group_col !! i = Some (Some g))
  ∧ (forall g, g ∈ Stats.ct_columns ct
       <-> exists i d, data_col !! i = Some (Some d) ∧ group_col !! i = Some (Some g)).
Proof.
  intros ct. subst ct. unfold Stats.cross_tab_frequencies.
  cbn [Stats.ct_values Stats.ct_index Stats.ct_columns].
  set (rows := Stats.paired data_col group_col weights).
  destruct (sorted_strs_spec (list_to_set rows.*1.*1)) as (A1 & A2 & _ & A4).
  destruct (sorted_strs_spec (list_to_set rows.*1.*2)) as (B1 & B2 & _ & B4).
  split; [by rewrite length_map|]. split.
  { apply Forall_forall. intros row Hrow.
    apply list_elem_of_In, in_map_iff in Hrow as (d & <- & _). by rewrite length_map. }
  do 4 (split; [done|]). split.
  - intros d. rewrite A4, elem_of_list_to_set. split.
    + intros Hd. apply list_elem_of_fmap in Hd as ([d' g] & -> & Hd).
      apply list_elem_of_fmap in Hd as ([[d'' g'] w] & [= -> ->] & Hd).
      destruct (proj1 (elem_of_paired data_col group_col weights d'' g')) as (i & H1 & H2);
        [by exists w|]. by exists i, g'.
    + intros (i & g & H1 & H2).
      destruct (proj2 (elem_of_paired data_col group_col weights d g)) as (w & Hw);
        [by exists i|].
      apply list_elem_of_fmap. exists (d, g). split; [done|].
      apply list_elem_of_fmap. by exists (d, g, w).
  - intros g. rewrite B4, elem_of_list_to_set. split.
    + intros Hd. apply list_elem_of_fmap in Hd as ([d g'] & -> & Hd).
      apply list_elem_of_fmap in Hd as ([[d' g''] w] & [= -> ->] & Hd).
      destruct (proj1 (elem_of_paired data_col group_col weights d' g'')) as (i & H1 & H2);
        [by exists w|]. by exists i, d'.
    + intros (i & d & H1 & H2).
      destruct (proj2 (elem_of_paired data_col group_col weights d g)) as (w & Hw);
        [by exists i|].
      apply list_elem_of_fmap. exists (d, g). split; [done|].
      apply list_elem_of_fmap. by exists (d, g, w).
Qed.

End CrossTabLayout.

(** ** Shape of the detected groups *)

Section GroupShape.

Variable cols : list (pystr * signature).

Lemma gathered_skip ctype j g :
  gathered cols ctype j g -> gathered cols ctype (S j) (g_skip j g).
Proof.
  intros (H1 & H2 & H3 & H4 & H5). unfold gathered. cbn [g_skip group_cols group_sigs group_labels].
  repeat split; try done.
  - destruct (H5 k c H) as [Hc _]. lia.
  - destruct (H5 k c H) as [_ Hc]. done.
Qed.

Lemma gathered_absorb ctype j jcol jsig g :
  cols !! j = Some (jcol, jsig) -> sig_type jsig = ctype ->
  truthy (header_qid jcol) = false ->
  gathered cols ctype j g -> gathered cols ctype (S j) (g_absorb j jcol jsig g).
Proof.
  intros Hj Ht Hq (H1 & H2 & H3 & H4 & H5). unfold gathered.
  cbn [g_absorb group_cols group_sigs group_labels].
  split; [by destruct (group_cols g)|]. split.
  { apply StronglySorted_app. split; [|split; [done|repeat constructor]].
    intros x1 x2 Hx1 Hx2. apply list_elem_of_singleton in Hx2 as ->.
    apply list_elem_of_lookup_1 in Hx1 as [k Hk]. by destruct (H5 k x1 Hk). }
  split; [rewrite !length_app; simpl; lia|].
  split; [rewrite !length_app; simpl; lia|].
  intros k c Hk. apply lookup_app_Some in Hk as [Hk|[Hge Hk]].
  - destruct (H5 k c Hk) as (Hc & hdr & sig & E1 & E2 & E3 & E4).
    split; [lia|]. exists hdr, sig. split; [done|].
    split; [by apply lookup_app_l_Some|]. split; [done|].
    intros Hpos. destruct (E4 Hpos) as [E5 E6]. split; [done|by apply lookup_app_l_Some].
  - apply list_lookup_singleton_Some in Hk as [Hk <-].
    split; [lia|]. exists jcol, jsig. split; [done|].
    assert (Ek : k = length (group_cols g)) by lia. subst k.
    split; [rewrite <- H3; apply list_lookup_middle; done|]. split; [done|].
    intros _. split; [done|]. rewrite <- H4. by apply list_lookup_middle.
Qed.

(** The inner loop keeps what has been gathered in shape and stops at a
    suffix of the columns it was given. *)
Lemma gather_gathered ctype rest :
  forall j g pre,
    cols = pre ++ rest -> length pre = j -> gathered cols ctype j g ->
    exists consumed,
      rest = consumed ++ (gather ctype j rest g).2
      ∧ (gather ctype j rest g).1.2 = (j + length consumed)%nat
      ∧ gathered cols ctype (gather ctype j rest g).1.2 (gather ctype j rest g).1.1.
Proof.
  induction rest as [|[jcol jsig] rest IH]; intros j g pre Hc Hj Hg.
  { exists []. simpl. split; [done|]. split; [lia|done]. }
  assert (Hnext : forall g', gathered cols ctype (S j) g' ->
    exists consumed,
      (jcol, jsig) :: rest = consumed ++ (gather ctype (S j) rest g').2
      ∧ (gather ctype (S j) rest g').1.2 = (j + length consumed)%nat
      ∧ gathered cols ctype (gather ctype (S j) rest g').1.2 (gather ctype (S j) rest g').1.1).
  { intros g' Hg'.
    destruct (IH (S j) g' (pre ++ [(jcol, jsig)])) as (consumed & E1 & E2 & E3).
    - by rewrite <- app_assoc.
    - rewrite length_app. simpl. lia.
    - done.
    - exists ((jcol, jsig) :: consumed). split; [simpl; by rewrite <- E1|].
      split; [simpl; lia|done]. }
  assert (Hstop : exists consumed,
      (jcol, jsig) :: rest = consumed ++ (jcol, jsig) :: rest
      ∧ j = (j + length consumed)%nat ∧ gathered cols ctype j g).
  { exists []. split; [done|]. split; [simpl; lia|done]. }
  assert (Hlook : cols !! j = Some (jcol, jsig)).
  { rewrite Hc, <- Hj. by apply list_lookup_middle. }
  cbn [gather]. fold (header_qid jcol).
  destruct (truthy (header_qid jcol)) eqn:Eq; [exact Hstop|].
  destruct (_is_meta jcol || _should_exclude jcol); [by apply Hnext, gathered_skip|].
  destruct (bool_decide _); [by apply Hnext, gathered_skip|].
  destruct (Str.eqb (sig_type jsig) ctype) eqn:Et;
    destruct (Str.eqb (sig_type jsig) (u "empty")) eqn:Ee; cbn [negb andb].
  - by apply Hnext, gathered_skip.
  - apply Hnext, gathered_absorb; try done. by apply eqb_true.
  - by apply Hnext, gathered_skip.
  - exact Hstop.
Qed.

Lemma str_or_nonempty (a : option pystr) (b : pystr) : b ≠ [] -> str_or a b ≠ [].
Proof. intros Hb. destruct a as [[|c r]|]; done. Qed.

Lemma group_question_well_formed i col_str qid parent ctype demo g j q :
  is_group_type ctype = true -> gathered cols ctype j g ->
  group_question i col_str qid parent ctype demo g = Ok q ->
  well_formed cols q.
Proof.
  intros Hct (H1 & H2 & H3 & H4 & H5). unfold group_question.
  destruct (opt_int (merged_scale_min _)); [|done].
  destruct (opt_int (merged_scale_max _)); [|done].
  simpl. intros [= <-]. unfold well_formed. simpl.
  split; [apply str_or_nonempty; by vm_compute|].
  split; [done|]. split; [done|]. split; [done|].
  split; [unfold is_grouped_type; by rewrite Hct|].
  split.
  { intros ->. by vm_compute in Hct. }
  intros k c Hk. destruct (H5 k c Hk) as (_ & hdr & sig & E1 & _ & E3 & E4).
  by exists hdr, sig.
Qed.

Lemma choice_question_well_formed i col_str qid parent ct demo :
  cols !! i = Some (col_str, ct) -> sig_type ct = QT_SINGLE_CHOICE ->
  well_formed cols (choice_question i col_str qid parent (sig_n_unique ct) demo).
Proof.
  intros Hi Ht. unfold well_formed, choice_question. simpl.
  split; [apply str_or_nonempty; by vm_compute|].
  split; [done|]. split; [repeat constructor|]. split; [done|].
  split; [by vm_compute|]. split; [done|].
  intros k c Hk. apply list_lookup_singleton_Some in Hk as [-> <-].
  exists col_str, ct. split; [done|]. split; [done|]. lia.
Qed.

(** Every question that the outer loop adds is built by group_question
    from gathered members or by choice_question from a single_choice
    column, so what holds of those holds of all the questions returned. *)
Lemma scan_questions (P : QuestionDef -> Prop) :
  (forall i col_str qid parent ctype demo g j q,
     is_group_type ctype = true -> gathered cols ctype j g ->
     group_question i col_str qid parent ctype demo g = Ok q -> P q) ->
  (forall i col_str qid parent ct demo,
     cols !! i = Some (col_str, ct) -> sig_type ct = QT_SINGLE_CHOICE ->
     P (choice_question i col_str qid parent (sig_n_unique ct) demo)) ->
  forall fuel i rest st pre qs,
    cols = pre ++ rest -> length pre = i ->
    Forall P (questions st) ->
    scan fuel i rest st = Some (Ok qs) ->
    Forall P qs.
Proof.
  intros Hgroup Hchoice.
  induction fuel as [|fuel IH]; intros i rest st pre qs Hc Hi Hq; [done|].
  destruct rest as [|[col_str ct] rest']; [by intros [= <-]|].
  assert (Hnext : forall st',
    Forall P (questions st') ->
    scan fuel (S i) rest' st' = Some (Ok qs) -> Forall P qs).
  { intros st' Hq'. apply (IH _ _ _ (pre ++ [(col_str, ct)])); [|rewrite length_app; simpl; lia|done].
    by rewrite <- app_assoc. }
  assert (Hlook : cols !! i = Some (col_str, ct)).
  { rewrite Hc, <- Hi. by apply list_lookup_middle. }
  cbn [scan].
  destruct (bool_decide (i ∈ processed st)); [by apply Hnext|].
  destruct (_ || _ || _ || _); [by apply Hnext|].
  destruct (_split_qid_header col_str) as [[qid parent_text] first_sub].
  destruct (truthy qid && _); [by apply Hnext|].
  destruct (is_group_type (sig_type ct)) eqn:Egt.
  - match goal with
    | |- context [gather ?c ?j ?r ?g0] =>
        destruct (gather_gathered c r j g0 (pre ++ [(col_str, ct)]))
          as (consumed & E1 & E2 & E3)
    end.
    + by rewrite <- app_assoc.
    + rewrite length_app. simpl. lia.
    + unfold gathered. simpl. split; [done|]. split; [repeat constructor|].
      split; [done|]. split; [done|].
      intros k c Hk. apply list_lookup_singleton_Some in Hk as [-> <-].
      split; [lia|]. exists col_str, ct. split; [done|]. split; [done|].
      split; [done|lia].
    + destruct (gather _ _ _ _) as [[g j] rest'']. simpl in E1, E2, E3.
      destruct (group_question _ _ _ _ _ _ g) as [q|e] eqn:Eg; [|done].
      apply (IH _ _ _ (pre ++ [(col_str, ct)] ++ consumed)).
      * rewrite <- !app_assoc. simpl. by rewrite <- E1.
      * rewrite !length_app. simpl. lia.
      * simpl. apply Forall_app. split; [done|]. constructor; [|constructor].
        by eapply Hgroup.
  - destruct (Str.eqb (sig_type ct) QT_SINGLE_CHOICE) eqn:Es; [|by apply Hnext].
    apply Hnext. simpl. apply Forall_app. split; [done|]. constructor; [|constructor].
    apply Hchoice; [done|by apply eqb_true].
Qed.

End GroupShape.

Section GroupShapeTheorem.

(** X12. Every question that auto_detect_questions returns has a non-empty
    id and at least one column; its columns are in increasing order and
    have one label each; its type is one of likert, numeric_scale,
    multiple_choice and single_choice, and every one of its columns was
    detected as that type; a single_choice question has exactly one
    column; and every column after the first carries no question
    identifier in its header and is labelled by its full header. *)
Theorem auto_detect_questions_well_formed (df : dataframe) (qs : list QuestionDef) :
  auto_detect_questions df = Some (Ok qs) ->
  Forall (well_formed (col_types df)) qs.
Proof.
  unfold auto_detect_questions.
  apply (scan_questions (col_types df) (well_formed (col_types df))
           (group_question_well_formed (col_types df))
           (choice_question_well_formed (col_types df)) _ 0 _ _ []); done.
Qed.

Lemma auto_detect_questions_well_formed_witness :
  exists qs, auto_detect_questions sample_survey = Some (Ok qs)
             ∧ Forall (well_formed (col_types sample_survey)) qs.
Proof.
  eexists. split; [vm_compute; reflexivity|].
  apply (auto_detect_questions_well_formed sample_survey). vm_compute. reflexivity.
Defined.

End GroupShapeTheorem.

(** ** Extraction of the data of a question *)

Section Extraction.

Lemma dict_set_elem_key {V} (k : pystr) (v : V) (d : list (pystr * V)) (p : pystr * V) :
  p ∈ dict_set k v d -> p = (k, v) ∨ p ∈ d.
Proof.
  induction d as [|[k' v'] d IH]; simpl.
  - intros Hp. apply list_elem_of_singleton in Hp as ->. by left.
  - destruct (Str.eqb k' k) eqn:E.
    + apply eqb_true in E as ->.
      intros Hp. apply elem_of_cons in Hp as [->|Hp]; [by left|right; by right].
    + intros Hp. apply elem_of_cons in Hp as [->|Hp]; [right; by left|].
      destruct (IH Hp) as [?|?]; [by left|right; by right].
Qed.

Lemma dict_set_fresh {V} (k : pystr) (v : V) (d : list (pystr * V)) :
  k ∉ d.*1 -> dict_set k v d = d ++ [(k, v)].
Proof.
  induction d as [|[k' v'] d IH]; simpl; [done|]. intros Hk.
  apply not_elem_of_cons in Hk as [Hne Hk].
  rewrite (proj2 (eqb_false k' k)) by done. by rewrite IH.
Qed.

Lemma df_column_found (df : dataframe) (i : nat) (c : column) :
  df !! i = Some c -> exists series, df_column df (col_name c) = Some series.
Proof.
  intros Hi. unfold df_column.
  destruct (List.find _ df) as [c'|] eqn:E; [by eexists|].
  exfalso. eapply find_none in E; [|apply list_elem_of_In; by eapply list_elem_of_lookup_2].
  simpl in E. by rewrite (proj2 (eqb_true _ _) eq_refl) in E.
Qed.

Lemma df_column_own (df : dataframe) (i : nat) (c : column) :
  NoDup (map col_name df) -> df !! i = Some c ->
  df_column df (col_name c) = Some (col_data c).
Proof.
  unfold df_column. revert i. induction df as [|c0 df IH]; intros i Hn Hi; [done|].
  simpl in Hn. apply NoDup_cons in Hn as [Hc0 Hn]. simpl.
  destruct (Str.eqb (col_name c0) (col_name c)) eqn:E.
  - apply eqb_true in E. destruct i as [|i]; [by injection Hi as ->|].
    simpl in Hi. exfalso. apply Hc0. rewrite E.
    apply list_elem_of_In, in_map, list_elem_of_In. by eapply list_elem_of_lookup_2.
  - destruct i as [|i].
    + injection Hi as ->. by rewrite (proj2 (eqb_true _ _) eq_refl) in E.
    + by apply (IH i).
Qed.

Lemma numeric_columns_raise (df : dataframe) (q : QuestionDef) cols result :
  match numeric_columns df q cols result with
  | Ok _ => Forall (fun idx => (idx < length df)%nat) cols.*1
  | Raise e => e = IndexError ∧ exists idx, idx ∈ cols.*1 ∧ (length df <= idx)%nat
  end.
Proof.
  revert result. induction cols as [|[ci lbl] cols IH]; intros result; simpl; [done|].
  destruct (df !! ci) as [c|] eqn:Ec.
  - destruct (df_column_found df ci c Ec) as [series ->].
    specialize (IH (dict_set lbl (parse_column q series) result)).
    destruct (numeric_columns _ _ _ _) as [r|e].
    + constructor; [by eapply lookup_lt_Some|done].
    + destruct IH as (-> & idx & H1 & H2). split; [done|]. exists idx. split; [by right|done].
  - split; [done|]. exists ci. split; [left|]. by apply lookup_ge_None.
Qed.

(** X13. On a sheet with distinct headers, get_numeric_data fails exactly
    when a column index of the question, among those that have a label,
    lies outside the sheet, and then with an index error; looking a
    column up by its own header never fails. *)
Theorem get_numeric_data_errors (df : dataframe) (q : QuestionDef)
    (weight_col : option pystr) :
  NoDup (map col_name df) ->
  let used := (combine (columns q) (column_labels q)).*1 in
  (get_numeric_data df q weight_col = Raise IndexError
   <-> exists idx, idx ∈ used ∧ (length df <= idx)%nat)
  ∧ (forall e, get_numeric_data df q weight_col = Raise e -> e = IndexError)
  ∧ ((exists data, get_numeric_data df q weight_col = Ok data)
     <-> Forall (fun idx => (idx < length df)%nat) used).
Proof.
  intros _ used. subst used. unfold get_numeric_data.
  pose proof (numeric_columns_raise df q (combine (columns q) (column_labels q)) []) as H.
  destruct (numeric_columns _ _ _ _) as [r|e]; simpl.
  - assert (Hok : exists data,
        match weight_col with
        | Some (c :: w) =>
          match df_column df (c :: w) with
          | Some series => Ok (dict_set (u "_weight") (map weight_value series) r)
          | None => Ok r
          end
        | _ => Ok r
        end = Ok data).
    { destruct weight_col as [[|c w]|]; [by eexists| |by eexists].
      destruct (df_column df (c :: w)); by eexists. }
    destruct Hok as [data ->]. split; [|split; [done|]].
    + split; [done|]. intros (idx & H1 & H2).
      eapply Forall_forall in H; [|exact H1]. simpl in H. lia.
    + split; [done|]. intros _. by exists data.
  - destruct H as (-> & idx & H1 & H2). split; [|split].
    + split; [|done]. intros _. by exists idx.
    + by intros e [= <-].
    + split; [by intros [data ?]|]. intros Hf.
      eapply Forall_forall in Hf; [|exact H1]. simpl in Hf. lia.
Qed.

Lemma get_numeric_data_errors_witness :
  exists data, get_numeric_data mention_sheet mention_question None = Ok data.
Proof.
  destruct (get_numeric_data_errors mention_sheet mention_question None) as (_ & _ & H).
  - by_eval.
  - apply H. by_eval.
Defined.

Lemma numeric_columns_fresh (df : dataframe) (q : QuestionDef) cols result :
  NoDup (map col_name df) -> NoDup (result.*1 ++ cols.*2) ->
  Forall (fun idx => (idx < length df)%nat) cols.*1 ->
  numeric_columns df q cols result
  = Ok (result ++ map (fun p : nat * pystr => (p.2, parse_column q (column_at df p.1))) cols).
Proof.
  intros Hn. revert result. induction cols as [|[ci lbl] cols IH]; intros result Hd Hf; simpl.
  - by rewrite app_nil_r.
  - apply Forall_cons in Hf as [Hci Hf]. simpl in Hci.
    apply lookup_lt_is_Some in Hci as [c Hc]. rewrite Hc.
    rewrite (df_column_own df ci c Hn Hc).
    simpl in Hd. apply NoDup_app in Hd as (D1 & D2 & D3).
    apply NoDup_cons in D3 as [D3 D4].
    rewrite dict_set_fresh by (intros Hin; apply (D2 _ Hin); left).
    rewrite IH; [|rewrite fmap_app; simpl|done].
    + rewrite <- app_assoc. simpl. unfold column_at. by rewrite Hc.
    + apply NoDup_app. split; [|split; [|done]].
      * apply NoDup_app. split; [done|]. split; [|repeat constructor; inversion 1].
        intros x Hx Hx'. apply list_elem_of_singleton in Hx' as ->.
        apply (D2 _ Hx). left.
      * intros x Hx Hx'. apply elem_of_app in Hx as [Hx|Hx].
        -- apply (D2 _ Hx). by right.
        -- apply list_elem_of_singleton in Hx as ->. done.
Qed.

Lemma parse_column_length (q : QuestionDef) (series : list cell) :
  length (parse_column q series) = length series.
Proof.
  unfold parse_column.
  repeat (match goal with |- context [if ?b then _ else _] => destruct b end);
    by rewrite ?length_map.
Qed.

(** X14. For a sheet with distinct headers and a question with distinct
    labels whose column indices lie inside the sheet, get_numeric_data
    returns, in the order of the question, one parsed column for each
    index that has a label (an index without a label is left out), and
    each parsed column has one entry for each row of the sheet's
    column. *)
Theorem get_numeric_data_columns (df : dataframe) (q : QuestionDef) :
  NoDup (map col_name df) -> NoDup (column_labels q) ->
  Forall (fun idx => (idx < length df)%nat) (columns q) ->
  get_numeric_data df q None
  = Ok (zip_with (fun idx lbl => (lbl, parse_column q (column_at df idx)))
                 (columns q) (column_labels q))
  ∧ forall idx, length (parse_column q (column_at df idx)) = length (column_at df idx).
Proof.
  intros Hn Hl Hf. split; [|intros idx; apply parse_column_length].
  unfold get_numeric_data. rewrite numeric_columns_fresh; [|done| |].
  - simpl. f_equal. generalize (column_labels q). clear.
    induction (columns q) as [|i l IH]; intros [|lbl ls]; simpl; try done. by rewrite IH.
  - simpl. revert Hl. generalize (columns q). clear.
    induction (column_labels q) as [|lbl ls IH]; intros [|i l] Hl; simpl; try constructor.
    + intros Hin. apply NoDup_cons in Hl as [Hl _]. apply Hl.
      clear -Hin. revert l Hin. induction ls as [|x ls IH]; intros [|i l] Hin; simpl in *;
        try (by inversion Hin).
      apply elem_of_cons in Hin as [->|Hin]; [left|right; by eapply IH].
    + apply NoDup_cons in Hl as [_ Hl]. by apply IH.
  - revert Hf. generalize (column_labels q). clear.
    induction (columns q) as [|i l IH]; intros [|lbl ls] Hf; simpl; try constructor.
    + by apply Forall_cons in Hf as [? _].
    + apply Forall_cons in Hf as [_ Hf]. by apply IH.
Qed.

Lemma get_numeric_data_columns_witness :
  exists data, get_numeric_data mention_sheet mention_question None = Ok data
               ∧ data.*1 = [u "Telefon"; u "Internet"].
Proof.
  destruct (get_numeric_data_columns mention_sheet mention_question) as [H _].
  - by_eval.
  - by_eval.
  - by_eval.
  - eexists. split; [exact H|]. by vm_compute.
Defined.

Lemma in_special_code (special : gset Z) (z : Z) :
  z ∈ special -> in_special special (FNum (qz z)) = true.
Proof.
  intros Hz. unfold in_special, qz. apply bool_decide_eq_true.
  assert (E : Qred (inject_Z z) = inject_Z z).
  { apply Qred_identity. simpl. apply Z.gcd_1_r. }
  simpl. rewrite E. simpl. done.
Qed.

Lemma parse_column_likert (q : QuestionDef) (series : list cell) (x : parsed) :
  question_type q = QT_LIKERT -> x ∈ parse_column q series ->
  exists o, x = VFloat o ∧ forall z, z ∈ special_values q -> o ≠ Some (FNum (qz z)).
Proof.
  intros Hq. unfold parse_column. rewrite Hq.
  rewrite (proj2 (eqb_true _ _) eq_refl).
  intros Hx. apply list_elem_of_In, in_map_iff in Hx as (o & <- & Ho). exists o.
  split; [done|]. intros z Hz ->.
  destruct (bool_decide (special_values q = ∅)) eqn:Ee.
  - apply bool_decide_eq_true in Ee. rewrite Ee in Hz. set_solver.
  - apply in_map_iff in Ho as (o' & Ho' & _). unfold drop_special in Ho'.
    destruct o' as [f|]; [|done].
    destruct (in_special (special_values q) f) eqn:Ef; [done|].
    injection Ho' as ->. by rewrite in_special_code in Ef.
Qed.

(** X15. The data extracted for a likert question never holds one of the
    question's special codes: every cell of every column other than the
    weight column is a float or missing, and no such float equals a code
    in special_values. *)
Theorem likert_data_excludes_special_codes (df : dataframe) (q : QuestionDef)
    (weight_col : option pystr) (data : parsed_frame) :
  question_type q = QT_LIKERT ->
  get_numeric_data df q weight_col = Ok data ->
  forall lbl col x,
    (lbl, col) ∈ data -> lbl ≠ u "_weight" -> x ∈ col ->
    exists o, x = VFloat o ∧ forall z, z ∈ special_values q -> o ≠ Some (FNum (qz z)).
Proof.
  intros Hq. unfold get_numeric_data.
  destruct (numeric_columns df q _ []) as [result|e] eqn:E; [|done]. simpl.
  intros Hd lbl col x Hin Hl Hx.
  assert (Hr : (lbl, col) ∈ result).
  { destruct weight_col as [[|c w]|]; try (by injection Hd as <-).
    destruct (df_column df (c :: w)); [|by injection Hd as <-].
    injection Hd as <-. apply dict_set_elem_key in Hin as [[= ? _]|?]; done. }
  revert x Hx.
  refine (numeric_columns_elem df q _ [] result
            (fun col => forall x, x ∈ col -> exists o, x = VFloat o
               ∧ forall z, z ∈ special_values q -> o ≠ Some (FNum (qz z)))
            _ _ E (lbl, col) Hr).
  - intros series _ x Hx. by eapply parse_column_likert.
  - intros p Hp. inversion Hp.
Qed.

Lemma likert_data_excludes_special_codes_witness :
  get_numeric_data rating_sheet rating_question None
  = Ok [(u "A1. Ocena", [VFloat (Some (FNum (qz 1))); VFloat None; VFloat (Some (FNum (qz 5)))])]
  ∧ exists o, VFloat None = VFloat o ∧ o ≠ Some (FNum (qz 99)).
Proof.
  split; [by vm_compute|].
  destruct (likert_data_excludes_special_codes rating_sheet rating_question None
              [(u "A1. Ocena",
                [VFloat (Some (FNum (qz 1))); VFloat None; VFloat (Some (FNum (qz 5)))])]
              eq_refl ltac:(by vm_compute) (u "A1. Ocena")
              [VFloat (Some (FNum (qz 1))); VFloat None; VFloat (Some (FNum (qz 5)))]
              (VFloat None)) as (o & E & H).
  - left.
  - by vm_compute.
  - right. left.
  - exists o. split; [exact E|]. apply H. simpl. set_solver.
Defined.

End Extraction.

(** ** Export and reload of the schema *)

Section SchemaRoundTrip.

Variable py_str : yaml -> pystr.

Lemma sorted_items_empty : sorted_items ∅ = [].
Proof. unfold sorted_items. by rewrite map_to_list_empty. Qed.

Lemma sorted_set_Z_empty : sorted_set_Z (elements (∅ : gset Z)) = [].
Proof. by vm_compute. Qed.

Lemma hashable_ints (l : list Z) : forallb hashable (map YInt l) = true.
Proof. induction l as [|z l IH]; simpl; [done|exact IH]. Qed.

Lemma py_set_ints (l : list Z) : py_set (YSeq (map YInt l)) = Ok (map YInt l).
Proof. unfold py_set. simpl. by rewrite hashable_ints. Qed.

Lemma load_question_fields (qd : yaml) (l : LoadedQuestionDef) :
  py_getitem (u "id") qd = Ok (l_id l) ->
  py_getitem (u "label") qd = Ok (l_label l) ->
  py_getitem (u "columns") qd = Ok (l_columns l) ->
  py_get (u "column_labels") (YSeq []) qd = Ok (l_column_labels l) ->
  py_getitem (u "question_type") qd = Ok (l_question_type l) ->
  py_getitem (u "chart_type") qd = Ok (l_chart_type l) ->
  py_get (u "scale_min") YNull qd = Ok (l_scale_min l) ->
  py_get (u "scale_max") YNull qd = Ok (l_scale_max l) ->
  py_get (u "scale_labels") (YMap []) qd = Ok (l_scale_labels l) ->
  (exists v, py_get (u "special_values") (YSeq []) qd = Ok v
             ∧ py_set v = Ok (l_special_values l)) ->
  py_get (u "is_demographic") (YBool false) qd = Ok (l_is_demographic l) ->
  load_question qd = Ok l.
Proof.
  intros H1 H2 H3 H4 H5 H6 H7 H8 H9 (v & H10 & H11) H12. unfold load_question.
  rewrite H1, H2, H3. cbn [ebind]. rewrite H4. cbn [ebind]. rewrite H5, H6. cbn [ebind].
  rewrite H7. cbn [ebind]. rewrite H8. cbn [ebind]. rewrite H9. cbn [ebind].
  rewrite H10. cbn [ebind]. rewrite H11. cbn [ebind]. rewrite H12. cbn [ebind].
  by destruct l.
Qed.

Lemma load_export_question (q : QuestionDef) :
  load_question (export_question q) = Ok (reloaded q).
Proof.
  unfold export_question, reloaded.
  destruct q as [qid qlabel qcols qlabels qtype qchart smin smax slabels special demo p w n].
  cbn [id label columns column_labels question_type chart_type scale_min scale_max
       scale_labels special_values is_demographic].
  assert (Hi : slabels = ∅ -> sorted_items slabels = [])
    by (intros ->; apply sorted_items_empty).
  assert (Hs : special = ∅ -> sorted_set_Z (elements special) = [])
    by (intros ->; apply sorted_set_Z_empty).
  revert Hi Hs. generalize (sorted_items slabels) (sorted_set_Z (elements special)).
  intros items ints Hi Hs.
  destruct (bool_decide (slabels = ∅)) eqn:El;
    [apply bool_decide_eq_true in El; rewrite (Hi El)|]; clear Hi;
    (destruct (bool_decide (special = ∅)) eqn:Es;
     [apply bool_decide_eq_true in Es; rewrite (Hs Es)|]); clear Hs;
    destruct smin as [a|];
    (apply load_question_fields; cbn [l_id l_label l_columns l_column_labels
       l_question_type l_chart_type l_scale_min l_scale_max l_scale_labels
       l_special_values l_is_demographic];
     try reflexivity;
     eexists; (split; [reflexivity|]); first [apply py_set_ints|reflexivity]).
Qed.

Lemma load_export_questions (qs : list QuestionDef) :
  load_questions (map export_question qs) = Ok (map reloaded qs).
Proof.
  induction qs as [|q qs IH]; [done|].
  cbn [map load_questions]. rewrite load_export_question, IH. done.
Qed.

Lemma elem_of_sorted_items (m : gmap Z pystr) (k : Z) (v : pystr) :
  (k, v) ∈ sorted_items m <-> m !! k = Some v.
Proof.
  unfold sorted_items. rewrite merge_sort_Permutation. apply elem_of_map_to_list.
Qed.

(** X16. Reading back the document that export_config writes never fails and
    returns the questions in their order, with no list of breakdown
    questions. For each question the identifier, label, columns, column
    labels, types, demographic flag, minimum, scale labels and special
    codes come back as they were; the maximum comes back only when the
    question has a minimum. *)
Theorem export_config_round_trip (qs : list QuestionDef) :
  load_config py_str (export_config qs) = Ok (map reloaded qs, None)
  ∧ forall q, q ∈ qs ->
      (forall k v, (YInt k, YStr v) ∈ match l_scale_labels (reloaded q) with
                                      | YMap m => m
                                      | _ => []
                                      end
                   <-> scale_labels q !! k = Some v)
      ∧ (forall z, YInt z ∈ l_special_values (reloaded q) <-> z ∈ special_values q)
      ∧ (l_scale_max (reloaded q) = from_option YInt YNull (scale_max q)
         <-> is_Some (scale_min q) ∨ scale_max q = None).
Proof.
  split.
  - unfold load_config, export_config.
    set (doc := YMap _).
    assert (E1 : py_bool doc = true) by reflexivity.
    assert (E2 : py_in (u "questions") doc = Ok true) by reflexivity.
    assert (E3 : py_getitem (u "questions") doc = Ok (YSeq (map export_question qs)))
      by reflexivity.
    assert (E4 : py_get (u "categorical_questions") YNull doc = Ok YNull) by reflexivity.
    rewrite E1, E2. cbn [ebind negb]. rewrite E3. cbn [ebind py_iter].
    rewrite load_export_questions. cbn [ebind]. by rewrite E4.
  - intros q _. cbn [reloaded l_scale_labels l_special_values l_scale_max]. split; [|split].
    + intros k v. rewrite <- elem_of_sorted_items. split.
      * intros H. apply list_elem_of_In, in_map_iff in H as ([k' v'] & [= -> ->] & H).
        by apply list_elem_of_In.
      * intros H. apply list_elem_of_In, in_map_iff. exists (k, v).
        split; [done|by apply list_elem_of_In].
    + intros z. split.
      * intros H. apply list_elem_of_In, in_map_iff in H as (z' & [= ->] & H).
        apply list_elem_of_In in H. rewrite elem_of_sorted_set_Z in H.
        by apply elem_of_elements in H.
      * intros H. apply list_elem_of_In, in_map. apply list_elem_of_In.
        apply elem_of_sorted_set_Z. by apply elem_of_elements.
    + destruct (scale_min q) as [a|]; destruct (scale_max q) as [b|]; simpl.
      * split; [intros _; left; by eexists|done].
      * split; [intros _; left; by eexists|done].
      * split; [done|]. intros [[? [=]]|[=]].
      * split; [intros _; by right|done].
Qed.

(** ** Errors of load_config *)

Lemma py_getitem_error k y e : py_getitem k y = Raise e -> e = KeyError ∨ e = TypeError.
Proof.
  destruct y; simpl; try (intros [= <-]; by right).
  destruct (map_get k m); [done|]. intros [= <-]. by left.
Qed.

Lemma py_get_error k d y e : py_get k d y = Raise e -> e = TypeError.
Proof. destruct y; simpl; try done; by intros [= <-]. Qed.

Lemma py_iter_error y e : py_iter y = Raise e -> e = TypeError.
Proof. destruct y; simpl; try done; by intros [= <-]. Qed.

Lemma py_set_error y e : py_set y = Raise e -> e = TypeError.
Proof.
  unfold py_set. destruct (py_iter y) as [l|e'] eqn:E; simpl.
  - destruct (forallb hashable l); [done|]. by intros [= <-].
  - intros [= <-]. by apply py_iter_error in E.
Qed.

Lemma bind_error {A B} (m : exc A) (k : A -> exc B) (P : pyerr -> Prop) e :
  (forall e', m = Raise e' -> P e') -> (forall a, k a = Raise e -> P e) ->
  ebind m k = Raise e -> P e.
Proof. intros Hm Hk. destruct m as [a|e']; simpl; [apply Hk|]. intros [= <-]. by apply Hm. Qed.

Lemma load_question_error qd e :
  load_question qd = Raise e -> e = KeyError ∨ e = TypeError.
Proof.
  unfold load_question.
  repeat (apply (bind_error _ _ (fun x => x = KeyError ∨ x = TypeError));
          [intros e' E;
           first [apply py_getitem_error in E|apply py_get_error in E|apply py_set_error in E];
           tauto
          |intros ?]).
  done.
Qed.

Lemma load_questions_error qds e :
  load_questions qds = Raise e -> e = KeyError ∨ e = TypeError.
Proof.
  induction qds as [|qd r IH]; simpl; [done|].
  destruct (load_question qd) eqn:E; cbn [ebind];
    [|intros [= <-]; by apply load_question_error in E].
  destruct (load_questions r); cbn [ebind]; [done|].
  intros [= <-]. by apply IH.
Qed.

(** X17. load_config raises its schema error exactly when the document is
    empty (null, false, zero, an empty string, list or mapping) or is a
    mapping, list or string that does not hold 'questions'. Once a
    questions key is found, whatever is wrong below it surfaces as a key
    error or a type error, never as the schema error. *)
Theorem load_config_schema_error (config : yaml) :
  (load_config py_str config = Raise ValueError
   <-> py_bool config = false ∨ py_in (u "questions") config = Ok false)
  ∧ forall e, load_config py_str config = Raise e ->
              e = ValueError ∨ e = KeyError ∨ e = TypeError.
Proof.
  unfold load_config.
  destruct (py_bool config) eqn:Eb.
  2:{ simpl. split; [split; [by left|done]|]. intros e [= <-]. by left. }
  destruct (py_in (u "questions") config) as [[|]|e0] eqn:Ei; cbn [ebind negb].
  - assert (H : forall e,
        (let! section := py_getitem (u "questions") config in
         let! qds := py_iter section in
         let! questions := load_questions qds in
         let! categorical_ids := py_get (u "categorical_questions") YNull config in
         match categorical_ids with
         | YNull => Ok (questions, None)
         | ids => let! l := py_iter ids in
                  Ok (questions, Some (map (fun x => Str.strip (py_str x)) l))
         end) = Raise e -> e = KeyError ∨ e = TypeError).
    { intros e.
      apply (bind_error _ _ (fun x => x = KeyError ∨ x = TypeError)); [intros e' E; apply py_getitem_error in E; tauto|intros section].
      apply (bind_error _ _ (fun x => x = KeyError ∨ x = TypeError)); [intros e' E; apply py_iter_error in E; tauto|intros qds].
      apply (bind_error _ _ (fun x => x = KeyError ∨ x = TypeError)); [intros e' E; by apply load_questions_error in E|intros questions].
      apply (bind_error _ _ (fun x => x = KeyError ∨ x = TypeError)); [intros e' E; apply py_get_error in E; tauto|intros ids].
      destruct ids; try done; cbn [py_iter ebind]; try done; intros [= <-]; by right. }
    split.
    + split; [|by intros [|]]. intros E. apply H in E as [|]; done.
    + intros e E. apply H in E. tauto.
  - split; [split; [by right|done]|]. intros e [= <-]. by left.
  - assert (He : e0 = TypeError).
    { destruct config; simpl in Ei; try done; by injection Ei as <-. }
    subst e0. split.
    + split; [done|]. by intros [|].
    + intros e [= <-]. right. by right.
Qed.

End SchemaRoundTrip.

(** ** Headers with a question identifier *)

Section Headers.

Lemma span_spec (f : N -> bool) (s : pystr) :
  s = (Str.span f s).1 ++ (Str.span f s).2
  ∧ Forall (fun c => f c = true) (Str.span f s).1
  ∧ match (Str.span f s).2 with
    | c :: _ => f c = false
    | [] => True
    end.
Proof.
  induction s as [|c s IH]; simpl; [done|].
  destruct (f c) eqn:E.
  - destruct (Str.span f s) as [a b]. simpl in *. destruct IH as (-> & H1 & H2).
    split; [done|]. split; [by constructor|done].
  - simpl. by rewrite E.
Qed.

Lemma lstrip_blank (ws s : pystr) : blank ws -> Str.lstrip (ws ++ s) = Str.lstrip s.
Proof. induction 1 as [|c ws Hc _ IH]; simpl; [done|]. by rewrite Hc. Qed.

Lemma lstrip_all_blank (ws : pystr) : blank ws -> Str.lstrip ws = [].
Proof. induction 1 as [|c ws Hc _ IH]; simpl; [done|]. by rewrite Hc. Qed.

Lemma lstrip_head (c : N) (s : pystr) : Str.is_space c = false -> Str.lstrip (c :: s) = c :: s.
Proof. intros H. simpl. by rewrite H. Qed.

Lemma lstrip_snoc (l : pystr) (c : N) :
  Str.is_space c = false -> Str.lstrip (l ++ [c]) = Str.lstrip l ++ [c].
Proof.
  intros Hc. induction l as [|x l IH]; simpl; [by rewrite Hc|].
  destruct (Str.is_space x); done.
Qed.

Lemma lstrip_head_tight (s : pystr) :
  match head (Str.lstrip s) with
  | Some c => Str.is_space c = false
  | None => True
  end.
Proof.
  induction s as [|c s IH]; simpl; [done|].
  destruct (Str.is_space c) eqn:E; [done|]. simpl. done.
Qed.

Lemma last_rev (m : pystr) : last (rev m) = head m.
Proof. destruct m as [|x m]; [done|]. simpl. by rewrite last_snoc. Qed.

Lemma rstrip_cons (c : N) (t : pystr) :
  Str.is_space c = false -> Str.rstrip (c :: t) = c :: Str.rstrip t.
Proof.
  intros Hc. unfold Str.rstrip. simpl. rewrite lstrip_snoc by done.
  by rewrite rev_app_distr.
Qed.

Lemma strip_blank_l (ws s : pystr) : blank ws -> Str.strip (ws ++ s) = Str.strip s.
Proof. intros H. unfold Str.strip. by rewrite lstrip_blank. Qed.

Lemma strip_all_blank (ws : pystr) : blank ws -> Str.strip ws = [].
Proof. intros H. unfold Str.strip. by rewrite lstrip_all_blank. Qed.

(** A text that neither starts nor ends with white space is left as it
    is. *)
Lemma strip_tight (s : pystr) (c d : N) :
  head s = Some c -> last s = Some d ->
  Str.is_space c = false -> Str.is_space d = false -> Str.strip s = s.
Proof.
  intros Hh Hl Hc Hd. unfold Str.strip, Str.rstrip.
  destruct s as [|c' s]; [done|]. injection Hh as ->. rewrite lstrip_head by done.
  assert (Hr : head (rev (c :: s)) = Some d) by (by rewrite <- last_rev, rev_involutive).
  destruct (rev (c :: s)) as [|d' r] eqn:E; [done|]. injection Hr as ->.
  rewrite lstrip_head by done. rewrite <- E. apply rev_involutive.
Qed.

(** What is left after stripping is empty, or starts and ends with a
    character that is not white space. *)
Lemma strip_ends (s : pystr) :
  Str.strip s = []
  ∨ exists c d, head (Str.strip s) = Some c ∧ last (Str.strip s) = Some d
                ∧ Str.is_space c = false ∧ Str.is_space d = false.
Proof.
  unfold Str.strip. pose proof (lstrip_head_tight s) as Hh.
  destruct (Str.lstrip s) as [|c t]; [by left|]. simpl in Hh. right.
  rewrite rstrip_cons by done. exists c.
  pose proof (lstrip_head_tight (rev t)) as Ht.
  unfold Str.rstrip. rewrite <- last_rev in Ht.
  destruct (rev (Str.lstrip (rev t))) as [|x m] eqn:E.
  - exists c. done.
  - simpl in Ht. rewrite last_cons.
    destruct (last (x :: m)) as [d|] eqn:El.
    + exists d. done.
    + by apply last_None in El.
Qed.

Lemma sentence_end_tight (e : N) : is_sentence_end e = true -> Str.is_space e = false.
Proof.
  unfold is_sentence_end. rewrite !orb_true_iff, !N.eqb_eq.
  intros [[[[->| ->]| ->]| ->]| ->]; reflexivity.
Qed.

Lemma upper_az_tight (c : N) : Str.is_upper_az c = true -> Str.is_space c = false.
Proof.
  unfold Str.is_upper_az, Str.is_space. rewrite andb_true_iff, !N.leb_le. intros [H1 H2].
  repeat (apply orb_false_iff; split);
    try (apply andb_false_iff; rewrite !N.leb_gt; lia);
    apply N.eqb_neq; lia.
Qed.

Lemma sub_start_tight (c : N) : is_sub_start c = true -> Str.is_space c = false.
Proof.
  unfold is_sub_start. rewrite orb_true_iff. intros [H|H]; [by apply upper_az_tight|].
  apply bool_decide_eq_true in H.
  set (l := u "ŹŻŚĆŁÓĄĘ") in H. vm_compute in l. subst l.
  repeat (apply elem_of_cons in H as [->|H]; [reflexivity|]). inversion H.
Qed.

Lemma ws_then_some_dotall (r3 g2 : pystr) :
  ws_then_some true r3 = Some g2 -> r3 ≠ [] ∧ Str.strip g2 = Str.strip r3.
Proof.
  unfold ws_then_some. destruct (span_spec Str.is_space r3) as (E & B & _).
  destruct (Str.span Str.is_space r3) as [ws r]. simpl in E, B.
  destruct r as [|c r].
  - destruct (List.find _ (rev ws)) as [x|] eqn:Ef; [|done]. intros [= <-].
    apply find_some in Ef as [Hin _]. apply in_rev, list_elem_of_In in Hin.
    rewrite app_nil_r in E. subst r3. split; [by intros ->; inversion Hin|].
    rewrite (strip_all_blank ws) by done. apply strip_all_blank.
    constructor; [|constructor]. by eapply Forall_forall in B.
  - intros [= <-]. subst r3. split; [by destruct ws|]. by rewrite strip_blank_l.
Qed.

Lemma QID_RE_match_spec (header qid g2 : pystr) :
  QID_RE_match header = Some (qid, g2) ->
  is_qid qid
  ∧ exists tail, header = qid ++ 46%N :: tail ∧ tail ≠ []
                 ∧ Str.strip g2 = Str.strip tail.
Proof.
  unfold QID_RE_match. destruct header as [|c0 r0]; [done|].
  destruct (Str.is_upper_az c0) eqn:Ec; [|done].
  destruct (span_spec Str.is_digit r0) as (E & D & _).
  destruct (Str.span Str.is_digit r0) as [ds r1]. simpl in E, D.
  destruct ds as [|d ds]; [done|].
  assert (Hlo : exists lo r2,
    (match r1 with
     | c :: r => if Str.is_lower_az c then ([c], r) else ([], r1)
     | [] => ([], [])
     end) = (lo, r2)
    ∧ r1 = lo ++ r2 ∧ (lo = [] ∨ exists l, lo = [l] ∧ Str.is_lower_az l = true)).
  { destruct r1 as [|c r]; [exists [], []; by repeat split; try left|].
    destruct (Str.is_lower_az c) eqn:El.
    - exists [c], r. split; [done|]. split; [done|]. right. by exists c.
    - exists [], (c :: r). split; [done|]. split; [done|]. by left. }
  destruct Hlo as (lo & r2 & -> & E2 & Hlo).
  destruct r2 as [|[|p] r3]; try done.
  destruct p as [p|p|]; try done. destruct p as [p|p|]; try done.
  destruct p as [p|p|]; try done. destruct p as [p|p|]; try done.
  destruct p as [p|p|]; try done. destruct p as [p|p|]; try done.
  destruct (ws_then_some true r3) as [g|] eqn:Ew; [|done].
  intros [= <- <-]. apply ws_then_some_dotall in Ew as [Hne Hs]. split.
  - exists c0, (d :: ds), lo. done.
  - exists r3. split; [|done]. subst r0 r1. simpl. by rewrite <- !app_assoc.
Qed.

Lemma sub_item_after_spec (r sub : pystr) :
  sub_item_after r = Some sub ->
  exists ws c r2,
    r = ws ++ sub ∧ ws ≠ [] ∧ blank ws
    ∧ sub = c :: r2 ∧ is_sub_start c = true ∧ (5 <= length r2)%nat.
Proof.
  unfold sub_item_after. destruct (span_spec Str.is_space r) as (E & B & _).
  destruct (Str.span Str.is_space r) as [ws r1]. simpl in E, B.
  destruct ws as [|w ws]; [done|]. destruct r1 as [|c r2]; [done|].
  destruct (is_sub_start c) eqn:Ec; [|done].
  destruct (5 <=? length r2)%nat eqn:El; [|done]. apply Nat.leb_le in El.
  intros [= <-]. by exists (w :: ws), c, r2.
Qed.

Lemma split_scan_spec (s : pystr) :
  forall pre g1 sub,
    split_scan pre s = Some (g1, sub) ->
    exists mid e ws c r2,
      s = mid ++ e :: ws ++ sub ∧ g1 = rev pre ++ mid ++ [e]
      ∧ is_sentence_end e = true ∧ ws ≠ [] ∧ blank ws
      ∧ sub = c :: r2 ∧ is_sub_start c = true ∧ (5 <= length r2)%nat.
Proof.
  induction s as [|c r IH]; intros pre g1 sub; [done|]. cbn [split_scan].
  assert (Hrec : split_scan (c :: pre) r = Some (g1, sub) ->
    exists mid e ws c0 r2,
      c :: r = mid ++ e :: ws ++ sub ∧ g1 = rev pre ++ mid ++ [e]
      ∧ is_sentence_end e = true ∧ ws ≠ [] ∧ blank ws
      ∧ sub = c0 :: r2 ∧ is_sub_start c0 = true ∧ (5 <= length r2)%nat).
  { intros H. apply IH in H as (mid & e & ws & c0 & r2 & E1 & E2 & H).
    exists (c :: mid), e, ws, c0, r2. split; [simpl; by rewrite <- E1|].
    split; [|done]. rewrite E2. simpl. by rewrite <- !app_assoc. }
  destruct pre as [|p pre]; [exact Hrec|].
  destruct (is_sentence_end c) eqn:Ee; [|exact Hrec].
  destruct (sub_item_after r) as [sub'|] eqn:Es; [|exact Hrec].
  intros [= <- <-]. apply sub_item_after_spec in Es as (ws & c0 & r2 & E & H).
  exists [], c, ws, c0, r2. split; [simpl; by rewrite E|]. split; [|done].
  simpl. by rewrite <- !app_assoc.
Qed.


End Headers.

(** ** Detection and extraction of a likert column *)

Section LikertData.

Lemma in_special_code_iff (special : gset Z) (z : Z) :
  in_special special (FNum (qz z)) = true <-> z ∈ special.
Proof.
  split; [|apply in_special_code].
  unfold in_special, qz. intros H. apply bool_decide_eq_true in H as [_ H].
  assert (E : Qred (inject_Z z) = inject_Z z).
  { apply Qred_identity. simpl. apply Z.gcd_1_r. }
  simpl in H. rewrite E in H. done.
Qed.

Lemma kv_parse (w : pystr) (n : Z) (l : pystr) :
  kv (Str.strip w) = Some (n, l) -> parse_likert_value (Some w) = Some (FNum (qz n)).
Proof.
  unfold kv, parse_likert_value.
  destruct (LIKERT_PREFIX_RE_match (Str.strip w)) as [[g1 g2]|] eqn:E; [|done].
  intros [= <- _]. destruct (Str.strip w) as [|c r] eqn:Es; [done|]. done.
Qed.



End LikertData.

(** ** Chi-square test *)

Section ChiSquareTest.

Local Open Scope Qc_scope.

#[local] Existing Instance str_le_total.
#[local] Existing Instance str_le_trans.

Variable F : Type.
Variable nan : F.
Variable py_round : F -> nat -> F.
Variable chi2_contingency : list (list Qc) -> exc (F * F).

Lemma sum_concat (t : list (list Qc)) : Stats.sum (concat t) = Stats.sum (map Stats.sum t).
Proof.
  induction t as [|row t IH]; [done|]. cbn [concat map].
  by rewrite sum_app, sum_cons, IH.
Qed.

Lemma filter_pair (rows : list (pystr * pystr * Qc)) (d g : pystr) :
  filter (fun r => r.1 = (d, g)) rows
  = filter (fun r => r.1.2 = g) (filter (fun r => r.1.1 = d) rows).
Proof.
  induction rows as [|[[d' g'] w] rows IH]; [done|].
  rewrite !filter_cons. cbn [fst snd].
  destruct (decide (d' = d)) as [->|Hd].
  - rewrite filter_cons. cbn [fst snd]. destruct (decide (g' = g)) as [->|Hg].
    + rewrite decide_True by done. by rewrite IH.
    + rewrite decide_False by (intros [= ?]; done). done.
  - rewrite decide_False by (intros [= ? ?]; done). done.
Qed.

(** The entries of the contingency table add up to the total weight of
    the rows. *)
Lemma contingency_total (rows : list (pystr * pystr * Qc)) :
  Stats.sum (concat (Stats.ct_values (Stats.contingency rows))) = Stats.sum rows.*2.
Proof.
  unfold Stats.contingency. cbn [Stats.ct_values].
  destruct (sorted_strs_spec (list_to_set rows.*1.*1)) as (_ & A2 & _ & A4).
  destruct (sorted_strs_spec (list_to_set rows.*1.*2)) as (_ & B2 & _ & B4).
  rewrite sum_concat, map_map.
  etrans; [|refine (sum_by_key (A := pystr * pystr * Qc) (fun r => r.1.1) snd
                     (sorted_strs (list_to_set rows.*1.*1)) rows A2 _)].
  - f_equal. apply map_ext. intros d.
    etrans; [|refine (sum_by_key (A := pystr * pystr * Qc) (fun r => r.1.2) snd
                       (sorted_strs (list_to_set rows.*1.*2))
                       (filter (fun r => r.1.1 = d) rows) B2 _)].
    + f_equal. apply map_ext. intros g. by rewrite filter_pair.
    + intros x Hx. apply list_elem_of_filter in Hx as [_ Hx].
      rewrite B4, elem_of_list_to_set.
      apply list_elem_of_fmap. exists x.1. split; [done|].
      apply list_elem_of_fmap. by exists x.
  - intros x Hx. rewrite A4, elem_of_list_to_set.
    apply list_elem_of_fmap. exists x.1. split; [done|].
    apply list_elem_of_fmap. by exists x.
Qed.

(** X20. Whatever chi_square_test returns is named chi2, and a failure of the
    routine with a value error never reaches the caller. A statistic is
    reported only when at least five rows have both cells present and
    not blank and the table has at least two rows and two columns; the
    table handed to the routine is rectangular and, without weights, its
    entries add up to the number of those rows. With fewer than five such
    rows the undefined result is returned and the weights are not looked
    at. *)
Theorem chi_square_test_outcome (data_col group_col : list cell)
    (weights : option (list (option Qc))) :
  let result :=
    Stats.chi_square_test F nan py_round chi2_contingency data_col group_col weights in
  let n := length (Stats.chi_rows data_col group_col) in
  result ≠ Raise ValueError
  ∧ ((n < 5)%nat -> result = Ok (Stats.undefined_result F nan (u "chi2")))
  ∧ forall r, result = Ok r ->
      Stats.test F r = u "chi2"
      ∧ (r = Stats.undefined_result F nan (u "chi2")
         ∨ exists table st,
             chi2_contingency table = Ok st
             ∧ r = Stats.rounded_result F py_round (u "chi2") st
             ∧ (5 <= n)%nat ∧ (2 <= length table)%nat
             ∧ (exists m, (2 <= m)%nat ∧ Forall (fun row => length row = m) table)
             ∧ (weights = None -> Stats.sum (concat table) = Stats.of_nat n)).
Proof.
  intros result n. subst result n. unfold Stats.chi_square_test.
  set (rows := Stats.chi_rows data_col group_col).
  destruct (length rows <? 5)%nat eqn:E5.
  { split; [done|]. split; [done|]. intros r [= <-]. split; [done|by left]. }
  apply Nat.ltb_ge in E5. split; [|split; [lia|]].
  - destruct (match weights with Some ws => _ | None => _ end) as [w|e] eqn:Ew; cbn [ebind].
    + destruct (_ || _); [done|].
      destruct (chi2_contingency _) as [st|[]]; done.
    + destruct weights as [ws|]; [|done].
      apply loc_fillna_raise in Ew as [-> _]. done.
  - intros r.
    destruct (match weights with Some ws => _ | None => _ end) as [w|e] eqn:Ew; cbn [ebind];
      [|done].
    set (table := Stats.contingency (zip rows.*2 w)).
    destruct (length (Stats.ct_index table) <? 2)%nat eqn:E1.
    { intros [= <-]. split; [done|by left]. }
    destruct (length (Stats.ct_columns table) <? 2)%nat eqn:E2.
    { intros [= <-]. split; [done|by left]. }
    apply Nat.ltb_ge in E1, E2. cbn [orb].
    destruct (chi2_contingency (Stats.ct_values table)) as [st|e] eqn:Ec.
    2:{ destruct e; try done. intros [= <-]. split; [done|by left]. }
    intros [= <-]. split; [done|]. right.
    exists (Stats.ct_values table), st. split; [done|]. split; [done|]. split; [done|].
    split; [by unfold table, Stats.contingency; cbn; rewrite length_map|].
    split.
    + exists (length (Stats.ct_columns table)). split; [done|].
      apply Forall_forall. intros row Hrow. unfold table, Stats.contingency in Hrow.
      cbn [Stats.ct_values] in Hrow.
      apply list_elem_of_In, in_map_iff in Hrow as (d & <- & _).
      by rewrite length_map.
    + intros ->. injection Ew as <-. unfold table. rewrite contingency_total.
      rewrite snd_zip by (by rewrite length_map, length_fmap).
      by rewrite sum_ones.
Qed.

End ChiSquareTest.

(** ** Wrapping of labels *)

Section WrapLabel.

Lemma split_from_app (cur a b : pystr) (sp : N) :
  Str.is_space sp = true ->
  split_from cur (a ++ sp :: b) = split_from cur a ++ split_from [] b.
Proof.
  intros Hsp. revert cur. induction a as [|c a IH]; intros cur; simpl.
  - rewrite Hsp. by destruct cur.
  - destruct (Str.is_space c); [|apply IH].
    destruct cur; rewrite IH; done.
Qed.

Lemma split_from_solid (cur w : pystr) :
  solid w ->
  split_from cur w = match rev cur ++ w with [] => [] | _ :: _ => [rev cur ++ w] end.
Proof.
  intros Hw. revert cur. induction Hw as [|c w Hc _ IH]; intros cur; simpl.
  - rewrite app_nil_r. destruct cur as [|x cur]; [done|].
    simpl. destruct (rev cur ++ [x]) eqn:E; [by destruct (rev cur)|done].
  - rewrite Hc, IH. simpl. rewrite <- app_assoc. simpl.
    destruct (rev cur ++ c :: w) eqn:E; [by destruct (rev cur)|done].
Qed.

Lemma split_word (w : pystr) : solid w -> w ≠ [] -> str_split w = [w].
Proof.
  intros Hw Hne. unfold str_split. rewrite split_from_solid by done. simpl.
  by destruct w.
Qed.

Lemma split_from_words (cur s : pystr) :
  solid cur -> Forall (fun w => w ≠ [] ∧ solid w) (split_from cur s).
Proof.
  revert cur. induction s as [|c s IH]; intros cur Hcur; simpl.
  - destruct cur as [|x cur]; [constructor|]. constructor; [|constructor]. split.
    + simpl. intros E'. destruct (rev cur); discriminate E'.
    + unfold solid in *. apply Forall_forall. intros y Hy. rewrite elem_of_rev' in Hy.
      eapply Forall_forall in Hcur; [exact Hcur|exact Hy].
  - destruct (Str.is_space c) eqn:Ec.
    + destruct cur as [|x cur]; [by apply IH; constructor|].
      constructor; [|by apply IH; constructor]. split.
      * simpl. intros E'. destruct (rev cur); discriminate E'.
      * unfold solid in *. apply Forall_forall. intros y Hy. rewrite elem_of_rev' in Hy.
        eapply Forall_forall in Hcur; [exact Hcur|exact Hy].
    + apply IH. by constructor.
Qed.

Lemma word_line (max_chars : nat) (all : list pystr) (w : pystr) :
  solid w -> w ≠ [] -> w ∈ all -> line_ok max_chars all w.
Proof.
  intros Hw Hne Hin. split; [|split; [|by right]].
  - eapply Forall_impl; [exact Hw|]. intros c Hc. by left.
  - destruct w as [|c r]; [done|]. exists c.
    destruct (last (c :: r)) as [d|] eqn:El; [|by apply last_None in El].
    exists d. split; [done|]. split; [done|]. split.
    + by apply Forall_cons in Hw as [? _].
    + apply last_Some_elem_of in El. by eapply Forall_forall in Hw.
Qed.

Lemma split_join (max_chars : nat) (all : list pystr) (lines : list pystr) :
  Forall (line_ok max_chars all) lines ->
  str_split (join_nl lines) = concat (map str_split lines).
Proof.
  induction 1 as [|l lines Hl Hr IH]; [done|].
  destruct lines as [|l2 r].
  - simpl. by rewrite app_nil_r.
  - change (join_nl (l :: l2 :: r)) with (l ++ 10%N :: join_nl (l2 :: r)).
    unfold str_split in *. rewrite split_from_app by done. rewrite IH. done.
Qed.

Lemma wrap_step_ok (max_chars : nat) (all : list pystr) (lines : list pystr)
    (current w : pystr) (seen : list pystr) :
  Forall (line_ok max_chars all) lines ->
  (current = [] ∨ line_ok max_chars all current) ->
  concat (map str_split lines) ++ str_split current = seen ->
  solid w -> w ≠ [] -> w ∈ all ->
  let st := wrap_step max_chars (lines, current) w in
  Forall (line_ok max_chars all) st.1
  ∧ line_ok max_chars all st.2
  ∧ concat (map str_split st.1) ++ str_split st.2 = seen ++ [w].
Proof.
  intros Hl Hc Hs Hw Hne Hin. unfold wrap_step. cbn [fst snd].
  pose proof (word_line max_chars all w Hw Hne Hin) as Hwl.
  destruct (bool_decide (current = [])) eqn:Ee.
  - apply bool_decide_eq_true in Ee as ->. rewrite andb_false_r. cbn [fst snd].
    assert (E : Str.strip ([] ++ 32%N :: w) = w).
    { change ([] ++ 32%N :: w) with ([32%N] ++ w).
      rewrite strip_blank_l by (by repeat constructor).
      destruct Hwl as (_ & (c & d & ? & ? & ? & ?) & _). by eapply strip_tight. }
    rewrite E. split; [done|]. split; [done|].
    rewrite <- Hs. rewrite (split_word w) by done.
    change (str_split []) with (@nil pystr). by rewrite app_nil_r.
  - apply bool_decide_eq_false in Ee. destruct Hc as [?|Hc]; [done|]. rewrite andb_true_r.
    destruct (max_chars <? _)%nat eqn:Em; cbn [fst snd].
    + split; [apply Forall_app; split; [done|by constructor]|]. split; [done|].
      rewrite map_app, concat_app. simpl. rewrite app_nil_r, <- Hs.
      by rewrite (split_word w).
    + apply Nat.ltb_ge in Em.
      destruct Hc as (Sc & (c & d & Hh & Hla & Tc & Td) & _).
      destruct Hwl as (Sw & (c' & d' & Hh' & Hla' & Tc' & Td') & _).
      assert (Hline : line_ok max_chars all (current ++ 32%N :: w)).
      { split; [|split].
        - apply Forall_app. split; [done|]. constructor; [by right|done].
        - exists c, d'. split; [by destruct current|]. split; [|done].
          destruct w as [|x w']; [done|]. by rewrite last_app_cons, last_cons_cons.
        - left. rewrite length_app. simpl. lia. }
      assert (E : Str.strip (current ++ 32%N :: w) = current ++ 32%N :: w).
      { destruct Hline as (_ & (x & y & ? & ? & ? & ?) & _). by eapply strip_tight. }
      rewrite E. split; [done|]. split; [done|].
      rewrite <- Hs, <- app_assoc. f_equal. unfold str_split.
      rewrite split_from_app by done. fold (str_split w). by rewrite (split_word w).
Qed.

Lemma wrap_fold_ok (max_chars : nat) (all : list pystr) (ws : list pystr) :
  forall lines current seen,
    Forall (fun w => w ≠ [] ∧ solid w ∧ w ∈ all) ws ->
    Forall (line_ok max_chars all) lines ->
    (current = [] ∨ line_ok max_chars all current) ->
    concat (map str_split lines) ++ str_split current = seen ->
    let st := fold_left (wrap_step max_chars) ws (lines, current) in
    Forall (line_ok max_chars all) st.1
    ∧ (st.2 = [] ∨ line_ok max_chars all st.2)
    ∧ concat (map str_split st.1) ++ str_split st.2 = seen ++ ws.
Proof.
  induction ws as [|w ws IH]; intros lines current seen Hws Hl Hc Hs.
  - simpl. by rewrite app_nil_r.
  - apply Forall_cons in Hws as [(Hne & Hw & Hin) Hws].
    destruct (wrap_step_ok max_chars all lines current w seen Hl Hc Hs Hw Hne Hin)
      as (S1 & S2 & S3).
    cbn [fold_left].
    destruct (wrap_step max_chars (lines, current) w) as [lines' current'].
    cbn [fst snd] in S1, S2, S3.
    destruct (IH lines' current' (seen ++ [w]) Hws S1 (or_intror S2) S3) as (R1 & R2 & R3).
    split; [done|]. split; [done|]. rewrite R3, <- app_assoc. done.
Qed.

Lemma spaced_no_newline (l : pystr) : spaced l -> 10%N ∉ l.
Proof.
  intros Hs Hin. eapply Forall_forall in Hs; [|exact Hin].
  by destruct Hs as [?|?].
Qed.

(** X21. _wrap_label never loses text: the words of the wrapped label are the
    words of the label, in order. A label within the limit is returned
    as it is. A longer one is cut into lines that hold no line break and
    no white space other than single spaces between words, and every
    line is within the limit unless it is a single word. *)
Theorem wrap_label_keeps_words (text : pystr) (max_chars : nat) :
  str_split (_wrap_label text max_chars) = str_split text
  ∧ ((length text <= max_chars)%nat -> _wrap_label text max_chars = text)
  ∧ ((max_chars < length text)%nat ->
     _wrap_label text max_chars = join_nl (wrapped_lines text max_chars)
     ∧ Forall (fun l => l ≠ [] ∧ spaced l ∧ 10%N ∉ l
                        ∧ ((length l <= max_chars)%nat ∨ l ∈ str_split text))
              (wrapped_lines text max_chars)).
Proof.
  assert (Hlines : Forall (line_ok max_chars (str_split text)) (wrapped_lines text max_chars)
                   ∧ concat (map str_split (wrapped_lines text max_chars)) = str_split text).
  { unfold wrapped_lines.
    destruct (wrap_fold_ok max_chars (str_split text) (str_split text) [] [] [])
      as (R1 & R2 & R3); [|done|by left|done|].
    { pose proof (split_from_words [] text ltac:(constructor)) as Hw.
      fold (str_split text) in Hw. apply Forall_forall. intros w Hin.
      eapply Forall_forall in Hw; [|exact Hin]. destruct Hw. done. }
    destruct (fold_left _ _ _) as [lines current]. cbn [fst snd] in *.
    simpl in R3. destruct current as [|c r].
    - split; [done|]. by rewrite app_nil_r in R3.
    - destruct R2 as [?|R2]; [done|]. split.
      + apply Forall_app. split; [done|by constructor].
      + rewrite map_app, concat_app. simpl. by rewrite app_nil_r. }
  destruct Hlines as [H1 H2]. unfold _wrap_label.
  destruct (length text <=? max_chars)%nat eqn:E.
  - apply Nat.leb_le in E. split; [done|]. split; [done|lia].
  - apply Nat.leb_gt in E. split; [|split; [lia|]].
    + by rewrite (split_join max_chars (str_split text)).
    + intros _. split; [done|]. eapply Forall_impl; [exact H1|].
      intros l (Hs & (c & d & Hh & _) & Hlen).
      split; [by destruct l|]. split; [done|]. split; [by apply spaced_no_newline|done].
Qed.

End WrapLabel.

(** ** Scale of a group and scales of its members *)

Section GroupScale.

Lemma qz_lt (a b : Z) : (qz a < qz b)%Qc <-> a < b.
Proof. unfold qz. to_Q. by rewrite <- Zlt_Qlt. Qed.

Lemma py_min2_int (m a : Z) : py_min2 (PInt m) (PInt a) = PInt (Z.min m a).
Proof.
  unfold py_min2, num_ltb, num_float, Float.ltb. fold (qz a) (qz m). case_bool_decide as H.
  - apply (proj1 (qz_lt _ _)) in H. f_equal. lia.
  - assert (Hn : ¬ a < m) by (intros Hlt; apply H; by apply qz_lt). f_equal. lia.
Qed.

Lemma py_max2_int (m a : Z) : py_max2 (PInt m) (PInt a) = PInt (Z.max m a).
Proof.
  unfold py_max2, num_ltb, num_float, Float.ltb. fold (qz a) (qz m). case_bool_decide as H.
  - apply (proj1 (qz_lt _ _)) in H. f_equal. lia.
  - assert (Hn : ¬ m < a) by (intros Hlt; apply H; by apply qz_lt). f_equal. lia.
Qed.

Lemma sig_type_likert (sig : signature) :
  sig_type sig = QT_LIKERT -> exists a b l s, sig = SigLikert a b l s.
Proof. destruct sig; try (by vm_compute); intros _; by do 4 eexists. Qed.

Lemma sig_type_single (sig : signature) :
  sig_type sig = QT_SINGLE_CHOICE -> exists cats n, sig = SigSingle cats n.
Proof. destruct sig; try (by vm_compute); intros _; by do 2 eexists. Qed.

(** The merged minimum of likert signatures lies below the minimum of
    each of them, the merged maximum above the maximum of each. *)
Lemma merged_min_likert (sigs : list signature) :
  Forall (fun sig => sig_type sig = QT_LIKERT) sigs ->
  forall m,
    exists lo,
      fold_left (fun acc ct => merge_bound py_min2 acc (sig_scale_min ct)) sigs
                (Some (PInt m)) = Some (PInt lo)
      ∧ lo <= m
      ∧ forall a b l s, SigLikert a b l s ∈ sigs -> lo <= a.
Proof.
  induction 1 as [|sig sigs Hs _ IH]; intros m.
  - exists m. split; [done|]. split; [lia|]. intros a b l s Hin. inversion Hin.
  - apply sig_type_likert in Hs as (a & b & l & s & ->). cbn [fold_left sig_scale_min merge_bound].
    rewrite py_min2_int. destruct (IH (Z.min m a)) as (lo & E & H1 & H2).
    exists lo. split; [done|]. split; [lia|].
    intros a' b' l' s' Hin. apply elem_of_cons in Hin as [[= -> _ _ _]|Hin]; [lia|].
    by eapply H2.
Qed.

Lemma merged_max_likert (sigs : list signature) :
  Forall (fun sig => sig_type sig = QT_LIKERT) sigs ->
  forall m,
    exists hi,
      fold_left (fun acc ct => merge_bound py_max2 acc (sig_scale_max ct)) sigs
                (Some (PInt m)) = Some (PInt hi)
      ∧ m <= hi
      ∧ forall a b l s, SigLikert a b l s ∈ sigs -> b <= hi.
Proof.
  induction 1 as [|sig sigs Hs _ IH]; intros m.
  - exists m. split; [done|]. split; [lia|]. intros a b l s Hin. inversion Hin.
  - apply sig_type_likert in Hs as (a & b & l & s & ->). cbn [fold_left sig_scale_max merge_bound].
    rewrite py_max2_int. destruct (IH (Z.max m b)) as (hi & E & H1 & H2).
    exists hi. split; [done|]. split; [lia|].
    intros a' b' l' s' Hin. apply elem_of_cons in Hin as [[= _ -> _ _]|Hin]; [lia|].
    by eapply H2.
Qed.

Lemma merged_special_incl (sigs : list signature) (acc : gset Z) :
  acc ⊆ fold_left (fun acc ct => acc ∪ sig_special_numeric ct) sigs acc
  ∧ forall sig, sig ∈ sigs ->
      sig_special_numeric sig
      ⊆ fold_left (fun acc ct => acc ∪ sig_special_numeric ct) sigs acc.
Proof.
  revert acc. induction sigs as [|sig sigs IH]; intros acc; simpl.
  - split; [done|]. intros sig Hin. inversion Hin.
  - destruct (IH (acc ∪ sig_special_numeric sig)) as [H1 H2]. split; [set_solver|].
    intros sig' Hin. apply elem_of_cons in Hin as [->|Hin]; [set_solver|by apply H2].
Qed.

Lemma merged_labels_incl (sigs : list signature) (acc : gmap Z pystr) :
  dom acc ⊆ dom (fold_left (fun acc ct => sig_scale_labels ct ∪ acc) sigs acc)
  ∧ forall sig, sig ∈ sigs ->
      dom (sig_scale_labels sig)
      ⊆ dom (fold_left (fun acc ct => sig_scale_labels ct ∪ acc) sigs acc).
Proof.
  revert acc. induction sigs as [|sig sigs IH]; intros acc; simpl.
  - split; [done|]. intros sig Hin. inversion Hin.
  - destruct (IH (sig_scale_labels sig ∪ acc)) as [H1 H2].
    rewrite dom_union_L in H1. split; [set_solver|].
    intros sig' Hin. apply elem_of_cons in Hin as [->|Hin]; [set_solver|by apply H2].
Qed.

Variable cols : list (pystr * signature).

Lemma group_question_scale_merged i col_str qid parent ctype demo g j q :
  is_group_type ctype = true -> gathered cols ctype j g ->
  group_question i col_str qid parent ctype demo g = Ok q ->
  scale_merged cols q.
Proof.
  intros _ (H1 & H2 & H3 & H4 & H5). unfold group_question.
  destruct (opt_int (merged_scale_min _)) as [smin|] eqn:Emin; [|done].
  destruct (opt_int (merged_scale_max _)) as [smax|] eqn:Emax; [|done].
  simpl. intros [= <-]. exists (group_sigs g). simpl.
  split; [|done].
  apply Forall2_same_length_lookup. split; [done|].
  intros k c sig Hc Hsig. destruct (H5 k c Hc) as (_ & hdr & sig' & E1 & E2 & E3 & _).
  rewrite Hsig in E2. injection E2 as <-. by exists hdr.
Qed.

Lemma choice_question_scale_merged i col_str qid parent ct demo :
  cols !! i = Some (col_str, ct) -> sig_type ct = QT_SINGLE_CHOICE ->
  scale_merged cols (choice_question i col_str qid parent (sig_n_unique ct) demo).
Proof.
  intros Hi Ht. exists [ct]. unfold choice_question. simpl.
  apply sig_type_single in Ht as Hs. destruct Hs as (cats & n & ->).
  split; [|done]. constructor; [|constructor]. by exists col_str.
Qed.

End GroupScale.

Section GroupScaleTheorem.

(** X22. The scale of a detected question covers the scales of its columns:
    for every member column that was detected as likert, the special
    codes of the column are special codes of the question, the codes
    that carry a label in the column carry a label in the question, and
    the question has a scale_min at or below and a scale_max at or above
    those of the column. *)
Theorem question_scale_covers_members (df : dataframe) (qs : list QuestionDef) :
  auto_detect_questions df = Some (Ok qs) ->
  forall q c a b labels special,
    q ∈ qs -> c ∈ columns q ->
    _detect_column_type (column_at df c) = SigLikert a b labels special ->
    special ⊆ special_values q
    ∧ dom labels ⊆ dom (scale_labels q)
    ∧ exists lo hi, scale_min q = Some lo ∧ scale_max q = Some hi ∧ lo <= a ∧ b <= hi.
Proof.
  unfold auto_detect_questions. intros H q c a b labels special Hq Hc Hd.
  pose proof (scan_questions (col_types df) (scale_merged (col_types df))
                (group_question_scale_merged (col_types df))
                (choice_question_scale_merged (col_types df))
                _ 0 _ {| questions := []; processed := ∅; seen_headers := ∅ |} [] qs
                eq_refl eq_refl (Forall_nil_2 _) H) as Hall.
  eapply Forall_forall in Hall; [|exact Hq].
  destruct Hall as (sigs & Hf & Emin & Emax & El & Es).
  apply list_elem_of_lookup_1 in Hc as [k Hk].
  destruct (Forall2_lookup_l _ _ _ k c Hf Hk) as (sig & Hsig & hdr & Hcol & Ht).
  assert (E : sig = SigLikert a b labels special).
  { unfold col_types in Hcol. rewrite list_lookup_fmap in Hcol.
    unfold column_at in Hd. destruct (df !! c) as [col|]; [|done].
    simpl in Hcol, Hd. injection Hcol as _ <-. done. }
  subst sig. apply list_elem_of_lookup_2 in Hsig.
  assert (Hlik : Forall (fun sig => sig_type sig = QT_LIKERT) sigs).
  { apply Forall_forall. intros sig Hin. apply list_elem_of_lookup_1 in Hin as [k' Hk'].
    destruct (Forall2_lookup_r _ _ _ k' sig Hf Hk') as (c' & _ & hdr' & _ & Ht').
    rewrite Ht', <- Ht. done. }
  split; [|split].
  - rewrite Es. unfold merged_special.
    by apply (proj2 (merged_special_incl sigs ∅) (SigLikert a b labels special)).
  - rewrite El. unfold merged_labels.
    by apply (proj2 (merged_labels_incl sigs ∅) (SigLikert a b labels special)).
  - destruct sigs as [|s0 sigs]; [inversion Hsig|].
    apply Forall_cons in Hlik as [H0 Hlik].
    apply sig_type_likert in H0 as (a0 & b0 & l0 & sp0 & ->).
    unfold merged_scale_min, merged_scale_max in Emin, Emax.
    cbn [fold_left sig_scale_min sig_scale_max merge_bound] in Emin, Emax.
    destruct (merged_min_likert sigs Hlik a0) as (lo & E1 & L1 & L2).
    destruct (merged_max_likert sigs Hlik b0) as (hi & E2 & G1 & G2).
    rewrite E1 in Emin. rewrite E2 in Emax. simpl in Emin, Emax.
    injection Emin as <-. injection Emax as <-.
    exists lo, hi. split; [done|]. split; [done|].
    apply elem_of_cons in Hsig as [[= -> -> _ _]|Hsig]; [lia|].
    split; [by eapply L2|by eapply G2].
Qed.

Lemma question_scale_covers_members_witness :
  exists lo hi, (lo <= 1 ∧ 5 <= hi)%Z.
Proof.
  destruct (question_scale_covers_members rating_sheet [rating_detected]
              ltac:(by_eval) rating_detected 0%nat 1 5
              (<[1 := u "Źle"]> (<[99 := u "Nie wiem"]> (<[5 := u "Dobrze"]> ∅))) {[99]})
    as (_ & _ & lo & hi & _ & _ & H1 & H2).
  - left.
  - left.
  - by_eval.
  - exists lo, hi. done.
Defined.

End GroupScaleTheorem.

(** ** Detection and extraction of a numeric column *)

Section NumericData.



End NumericData.
